(** * tridesclous: the catalogue constructor

    A shallow embedding of [tridesclous/catalogueconstructor.py] and the
    properties of its cluster bookkeeping, noise sampling, projection,
    noise estimation and catalogue synthesis.

    Conventions of the embedding:
    - a numpy structured array is a [list] of records; an [int64] value is a
      [Z] (its wrap-around is written out where the code does arithmetic on
      labels, see [wrap64]); a [float64]/[float32] sample is a rational [Q],
      with [float64] adding the [nan] the cluster table is initialised with;
      the statistics of the samples are computed in exact arithmetic, while
      the float products and comparisons that decide a length or a flag are
      rounded as the floats are (see [round_to]);
    - the arrays that the [ArrayCollection] sets as attributes of the
      constructor live in a [gmap string ndarray]; a missing key is the
      attribute being [None];
    - a Python exception is the [Raise] branch of [result];
    - the collaborators that are not part of this file (data access layer,
      engines, projector, random generator, label codes) are interfaces
      (type classes). *)

From stdpp Require Import base numbers list sorting gmap strings.
From Stdlib Require Import QArith Qround Qabs.

Local Open Scope string_scope.
Local Open Scope list_scope.
Local Open Scope Z_scope.

(** ** Exceptions and results *)

Inductive exn :=
| AssertionError (msg : string)
| NameError (name : string)
| UnboundLocalError (name : string)
| KeyError (key : string)
| TypeError
| AttributeError
| ValueError
| IndexError
| ZeroDivisionError
| NotImplementedError
| OverflowError.

Inductive result (A : Type) :=
| Ok (a : A)
| Raise (e : exn).
Arguments Ok {A} a.
Arguments Raise {A} e.

#[global] Instance result_ret : MRet result := λ A a, Ok a.
#[global] Instance result_bind : MBind result := λ A B f m,
  match m with
  | Ok a => f a
  | Raise e => Raise e
  end.

(** [x = d[key]] on an optional entry: [KeyError] when it is missing. *)
Definition getitem {A} (key : string) (o : option A) : result A :=
  match o with
  | Some a => Ok a
  | None => Raise (KeyError key)
  end.

(** Subscripting an attribute that may be [None]. *)
Definition subscriptable {A} (o : option A) : result A :=
  match o with
  | Some a => Ok a
  | None => Raise TypeError
  end.

Definition assert (b : bool) (msg : string) : result unit :=
  if b then Ok tt else Raise (AssertionError msg).

(** ** Data model *)

Inductive float64 :=
| nan
| fin (q : Q).

(** [_dtype_peak] *)
Record Peak := mkPeak {
  index : Z;
  label : Z;
  segment : Z;
}.

(** [_dtype_cluster] *)
Record Cluster := mkCluster {
  cluster_label : Z;
  cell_label : Z;
  max_on_channel : Z;
  max_peak_amplitude : float64;
  waveform_rms : float64;
  nb_peak : Z;
}.

Inductive ndarray :=
| PeakArray (a : list Peak)
| ClusterArray (a : list Cluster)
| IntArray (a : list Z)
| FloatArray1 (a : list float64)
| FloatArray2 (a : list (list Q))
| FloatArray3 (width nchan : nat) (a : list (list (list Q))).

Definition _persistent_metrics : list string :=
  ["spike_waveforms_similarity"; "cluster_similarity";
   "cluster_ratio_similarity"; "spike_silhouette"].

Definition _reset_after_peak_arrays : list string :=
  ["some_peaks_index"; "some_waveforms"; "some_features";
   "channel_to_features";
   "some_noise_index"; "some_noise_snippet"; "some_noise_features"]
  ++ _persistent_metrics.

Definition _persitent_arrays : list string :=
  ["all_peaks"; "signals_medians"; "signals_mads"; "clusters"]
  ++ _reset_after_peak_arrays.

(** [self.info['params_waveformextractor']] *)
Record WaveformExtractorParams := mkWaveformExtractorParams {
  n_left : Z;
  n_right : Z;
  nb_max : Z;
  align_waveform : bool;
  subsample_ratio : Z;
}.

(** [self.info['params_signalpreprocessor']], the entry the constructor reads. *)
Record SignalPreprocessorParams := mkSignalPreprocessorParams {
  lostfront_chunksize : Z;
}.

(** [self.params_peakdetector] *)
Record PeakDetectorParams := mkPeakDetectorParams {
  peak_sign : string;
  relative_threshold : Q;
  peak_span : Q;
}.

(** [self.info]: the entries are optional, reading a missing one is a
    [KeyError]. *)
Record Info := mkInfo {
  processed_length : option Z;
  params_waveformextractor : option WaveformExtractorParams;
  params_signalpreprocessor : option SignalPreprocessorParams;
  info_chunksize : option Z;
  info_params_peakdetector : option PeakDetectorParams;
  internal_dtype : option string;
}.

(** The constructor object.  [attrs] holds the attributes managed by
    [self.arrays]; [projector] is [self.projector] ([None] until fitted, as
    [__init__] sets it); [has_centroids] is [hasattr(self, 'centroids')];
    [chunksize] is [self.chunksize]. *)
Record CatalogueConstructor {Projector : Type} := mkCatalogueConstructor {
  attrs : gmap string ndarray;
  info : Info;
  projector : option Projector;
  has_centroids : bool;
  chunksize : Z;
  params_peakdetector : PeakDetectorParams;
}.
Arguments CatalogueConstructor : clear implicits.
Arguments mkCatalogueConstructor {Projector}.

Section Attributes.
Context {Projector : Type}.
Abbreviation CC := (CatalogueConstructor Projector).

Definition set_attrs (a : gmap string ndarray) (self : CC) : CC :=
  mkCatalogueConstructor a (info self) (projector self) (has_centroids self)
    (chunksize self) (params_peakdetector self).

Definition set_info (i : Info) (self : CC) : CC :=
  mkCatalogueConstructor (attrs self) i (projector self) (has_centroids self)
    (chunksize self) (params_peakdetector self).

Definition set_projector (p : option Projector) (self : CC) : CC :=
  mkCatalogueConstructor (attrs self) (info self) p (has_centroids self)
    (chunksize self) (params_peakdetector self).

Definition set_params_peakdetector (p : PeakDetectorParams) (self : CC) : CC :=
  mkCatalogueConstructor (attrs self) (info self) (projector self)
    (has_centroids self) (chunksize self) p.

Definition set_has_centroids (b : bool) (self : CC) : CC :=
  mkCatalogueConstructor (attrs self) (info self) (projector self) b
    (chunksize self) (params_peakdetector self).

(** [self.arrays.add_array(name, a, memory_mode)]: attach [a] as
    [self.<name>]. *)
Definition add_array (name : string) (a : ndarray) (self : CC) : CC :=
  set_attrs (<[name := a]> (attrs self)) self.

(** [self.arrays.detach_array(name); setattr(self, name, None)] *)
Definition setattr_None (name : string) (self : CC) : CC :=
  set_attrs (delete name (attrs self)) self.

Definition all_peaks (self : CC) : option (list Peak) :=
  match attrs self !! "all_peaks" with
  | Some (PeakArray a) => Some a
  | _ => None
  end.

Definition clusters (self : CC) : option (list Cluster) :=
  match attrs self !! "clusters" with
  | Some (ClusterArray a) => Some a
  | _ => None
  end.

Definition some_peaks_index (self : CC) : option (list Z) :=
  match attrs self !! "some_peaks_index" with
  | Some (IntArray a) => Some a
  | _ => None
  end.

Definition some_waveforms (self : CC) : option (list (list (list Q))) :=
  match attrs self !! "some_waveforms" with
  | Some (FloatArray3 _ _ a) => Some a
  | _ => None
  end.

Definition some_noise_index (self : CC) : option (list Peak) :=
  match attrs self !! "some_noise_index" with
  | Some (PeakArray a) => Some a
  | _ => None
  end.

Definition some_noise_snippet (self : CC) : option (list (list (list Q))) :=
  match attrs self !! "some_noise_snippet" with
  | Some (FloatArray3 _ _ a) => Some a
  | _ => None
  end.

(** The [cluster_labels] property. *)
Definition cluster_labels (self : CC) : list Z :=
  match clusters self with
  | Some cl => cluster_label <$> cl
  | None => []
  end.

(** The [positive_cluster_labels] property. *)
Definition positive_cluster_labels (self : CC) : list Z :=
  filter (λ k, 0 ≤ k) (cluster_labels self).
End Attributes.

(** ** numpy on lists *)

(** [np.unique]: the sorted distinct values. *)
Definition np_unique (l : list Z) : list Z := merge_sort Z.le (remove_dups l).

(** [np.sum(labels == k)] over the peak table. *)
Definition count_label (k : Z) (peaks : list Peak) : Z :=
  Z.of_nat (length (filter (λ p, label p = k) peaks)).

Definition sum_list_Z (l : list Z) : Z := foldr Z.add 0 l.

(** ** Cluster manager: rebuild *)

Definition set_cell_label (v : Z) (c : Cluster) : Cluster :=
  mkCluster (cluster_label c) v (max_on_channel c) (max_peak_amplitude c)
    (waveform_rms c) (nb_peak c).

(** The body of the loop "get previous cell_label": [j] is the first row of the
    previous table with the same [cluster_label]. *)
Definition previous_cell_label (prev : list Cluster) (c : Cluster) : Cluster :=
  match list_find (λ r, cluster_label c = cluster_label r) prev with
  | Some (j, r) => set_cell_label (cell_label r) c
  | None => c
  end.

Definition new_clusters (peaks : list Peak) (prev : option (list Cluster))
  : list Cluster :=
  let cluster_labels := np_unique (label <$> peaks) in
  let clusters :=
    (λ k, mkCluster k k (-1) nan nan (count_label k peaks)) <$> cluster_labels in
  match prev with
  | Some prev => previous_cell_label prev <$> clusters
  | None => clusters
  end.

Section Rebuild.
Context {Projector : Type}.
Abbreviation CC := (CatalogueConstructor Projector).

Definition on_new_cluster (self : CC) : CC :=
  match all_peaks self with
  | None => self
  | Some peaks =>
      let clusters := new_clusters peaks (clusters self) in
      if decide (0 < length clusters)%nat
      then add_array "clusters" (ClusterArray clusters) self
      else self
  end.
End Rebuild.

(** ** Python and numpy indexing *)

(** [for x in l: acc = f(acc, x)] where the body may raise. *)
Fixpoint foldlM {A B} (f : B → A → result B) (l : list A) (b : B) : result B :=
  match l with
  | [] => Ok b
  | x :: l => b' ← f b x; foldlM f l b'
  end.

(** [a[i]] for an integer [i]: negative indices count from the end. *)
Definition np_getitem {A} (a : list A) (i : Z) : result A :=
  let len := Z.of_nat (length a) in
  let j := if decide (i < 0) then i + len else i in
  if decide (0 ≤ j < len)
  then match a !! Z.to_nat j with Some x => Ok x | None => Raise IndexError end
  else Raise IndexError.

(** [a[idx]] for an integer array [idx]. *)
Definition np_take {A} (a : list A) (idx : list Z) : result (list A) :=
  foldlM (λ acc i, x ← np_getitem a i; Ok (acc ++ [x])) idx [].

(** [a[mask]] for a boolean array [mask] over the first axis. *)
Definition np_mask_select {A} (mask : list bool) (a : list A) : result (list A) :=
  if decide (length mask = length a)
  then Ok (fst <$> filter (λ xb, snd xb = true) (zip a mask))
  else Raise IndexError.

(** The bound of a slice, as Python normalises it on a sequence of length
    [len]. *)
Definition slice_bound (len i : Z) : Z :=
  if decide (i < 0) then Z.max 0 (i + len) else Z.min i len.

(** [int64] arithmetic wraps around. *)
Definition wrap64 (z : Z) : Z := (z + 2 ^ 63) `mod` 2 ^ 64 - 2 ^ 63.

Definition fabs (x : float64) : float64 :=
  match x with
  | nan => nan
  | fin q => fin (Qabs q)
  end.

(** ** Floating point arithmetic *)

#[global] Instance Qle_dec : RelDecision Qle :=
  λ x y, decide (Qnum x * QDen y ≤ Qnum y * QDen x)%Z.

#[global] Instance Qlt_dec : RelDecision Qlt :=
  λ x y, decide (Qnum x * QDen y < Qnum y * QDen x)%Z.

(** A binary floating point format: the number of bits of the significand,
    the exponent of the smallest positive value and the exponent of the
    first power of two that is out of range. *)
Record float_format := mkFormat {
  precision : Z;
  emin : Z;
  emax : Z;
}.

(** The Python [float] and [np.float64], and [np.float32] (IEEE 754). *)
Definition binary64 : float_format := mkFormat 53 (-1074) 1024.
Definition binary32 : float_format := mkFormat 24 (-149) 128.

(** The dtypes of the arrays of floats. *)
Inductive float_dtype :=
| dtype_float32
| dtype_float64.

Definition format_of (dtype : float_dtype) : float_format :=
  match dtype with
  | dtype_float32 => binary32
  | dtype_float64 => binary64
  end.

(** The result of a float operation on floats that are not [nan]: a value,
    or an infinity. *)
Inductive pyfloat :=
| float_of (q : Q)
| float_inf (negative : bool).

(** [2 ** k] for an integer [k] of either sign. *)
Definition pow2 (k : Z) : Q :=
  if decide (0 ≤ k) then inject_Z (2 ^ k) else 1 # Z.to_pos (2 ^ (- k)).

(** [floor(log2(x))] for a positive [x]. *)
Definition ilog2 (x : Q) : Z :=
  let k := Z.log2 (Qnum x) - Z.log2 (Zpos (Qden x)) in
  if decide (pow2 k <= x)%Q then k else k - 1.

(** The nearest integer, a tie going to the even one. *)
Definition round_half_even (y : Q) : Z :=
  let m := Qfloor y in
  match (y - inject_Z m ?= 1 # 2)%Q with
  | Lt => m
  | Gt => m + 1
  | Eq => if Z.even m then m else m + 1
  end.

(** Rounding of a real number to the nearest value of a format, a tie going
    to the even significand, what is beyond the largest value by half a step
    or more to an infinity: what a float operation makes of its exact
    result. *)
Definition round_to (f : float_format) (x : Q) : pyfloat :=
  if decide (Qnum x = 0) then float_of 0 else
  let a := Qabs x in
  let e := Z.max (ilog2 a - (precision f - 1)) (emin f) in
  let r := (inject_Z (round_half_even (a / pow2 e)) * pow2 e)%Q in
  if decide (pow2 (emax f) <= r)%Q then float_inf (bool_decide (Qnum x < 0))
  else float_of (if decide (Qnum x < 0) then (- r)%Q else r).

(** [a * b] for two Python floats of values [a] and [b]. *)
Definition float_mul (a b : Q) : pyfloat := round_to binary64 (a * b).

(** [float(n)] for a Python integer [n], as [n * x] converts [n] when [x] is
    a float. *)
Definition float_of_int (n : Z) : result Q :=
  match round_to binary64 (inject_Z n) with
  | float_of q => Ok q
  | float_inf _ => Raise OverflowError
  end.

(** Truncation towards zero. *)
Definition int_of_float (x : Q) : Z :=
  if decide (0 ≤ Qnum x) then Qfloor x else Qceiling x.

(** [int(x)] for a float. *)
Definition py_int (x : pyfloat) : result Z :=
  match x with
  | float_of q => Ok (int_of_float q)
  | float_inf _ => Raise OverflowError
  end.

(** [x <= y] *)
Definition float_le (x y : pyfloat) : bool :=
  match x, y with
  | float_of a, float_of b => bool_decide (a <= b)%Q
  | float_inf true, _ => true
  | _, float_inf false => true
  | _, _ => false
  end.

(** ** Broadcasting *)

(** One row of a 2-d value broadcast to [cols] columns. *)
Definition broadcast_row (cols : nat) (row : list Q) : result (list Q) :=
  if decide (length row = cols) then Ok row
  else match row with
       | [x] => Ok (replicate cols x)
       | _ => Raise ValueError
       end.

(** The value that [a[n, :, :] = wf] stores in a slot of shape
    [(rows, cols)]: [wf] itself, or [wf] broadcast along an axis on which it
    has length 1. *)
Definition broadcast_rows (rows cols : nat) (wf : list (list Q))
  : result (list (list Q)) :=
  wf ← foldlM (λ acc row, row ← broadcast_row cols row; Ok (acc ++ [row]))
        wf [];
  if decide (length wf = rows) then Ok wf
  else match wf with
       | [row] => Ok (replicate rows row)
       | _ => Raise ValueError
       end.

(** ** Collaborators *)

(** The numerical routines used on the cluster table.  [argsort] is
    [np.argsort] (an unstable sort, the order of ties is not fixed by the
    code); [centroid_stats wf n_left] stands for the statistics that
    [compute_centroid] derives from the waveforms of one cluster
    ([median_mad], [np.argmax], [np.sqrt(np.mean(median**2))]): the channel of
    the largest median amplitude at the peak sample, that amplitude and the
    rms of the median. *)
Class Numerics := {
  argsort : list float64 → list nat;
  centroid_stats : list (list (list Q)) → Z → result (Z * float64 * float64);
}.

(** [labelcodes], a module of constants that is not part of this file. *)
Class LabelCodes := {
  LABEL_TRASH : Z;
  LABEL_UNCLASSIFIED : Z;
  LABEL_NOISE : Z;
}.

(** ** Cluster manager: trash, centroids, reorder *)

Definition set_label (v : Z) (p : Peak) : Peak :=
  mkPeak (index p) v (segment p).

(** [all_peaks['label'][all_peaks['label'] == k] = v] *)
Definition relabel (k v : Z) (peaks : list Peak) : list Peak :=
  (λ p, if decide (label p = k) then set_label v p else p) <$> peaks.

Definition set_centroid_fields (chan : Z) (amp rms : float64) (c : Cluster)
  : Cluster :=
  mkCluster (cluster_label c) (cell_label c) chan amp rms (nb_peak c).

Section ClusterManager.
Context {Projector : Type} `{!Numerics}.
Abbreviation CC := (CatalogueConstructor Projector).

(** [self.<name>[...] = a]: the array attached as [name] is overwritten in
    place. *)
Definition write_array (name : string) (a : ndarray) (self : CC) : CC :=
  set_attrs (<[name := a]> (attrs self)) self.

(** One turn of the loop of [trash_small_cluster]. *)
Definition trash_one (n : Z) (self : CC) (k : Z) : result CC :=
  peaks ← subscriptable (all_peaks self);
  if decide (count_label k peaks ≤ n)
  then Ok (write_array "all_peaks" (PeakArray (relabel k (-1) peaks)) self)
  else Ok self.

Definition trash_small_cluster (n : Z) (self : CC) : result CC :=
  self' ← foldlM (trash_one n) (cluster_labels self) self;
  Ok (on_new_cluster self').

(** [self.all_peaks['label'][self.some_peaks_index]] *)
Definition sample_labels (self : CC) : result (list Z) :=
  peaks ← subscriptable (all_peaks self);
  match some_peaks_index self with
  | None => Raise IndexError
  | Some idx => np_take (label <$> peaks) idx
  end.

(** One turn of the loop of [compute_centroid] when [label_changed] is
    [self.cluster_labels] (so that [k] is always one of the labels of the
    table). *)
Definition centroid_one (wfs : list (list (list Q))) (n_left : Z)
    (self : CC) (k : Z) : result CC :=
  if decide (k < 0) then Ok self else
  labels ← sample_labels self;
  wf ← np_mask_select ((λ l, bool_decide (l = k)) <$> labels) wfs;
  '(chan, amp, rms) ← centroid_stats wf n_left;
  cl ← subscriptable (clusters self);
  match list_find (λ c, cluster_label c = k) cl with
  | None => Raise IndexError
  | Some (ind, c) =>
      Ok (write_array "clusters"
            (ClusterArray (<[ind := set_centroid_fields chan amp rms c]> cl))
            self)
  end.

(** [compute_centroid(label_changed=None)] *)
Definition compute_centroid (self : CC) : result CC :=
  let self := set_has_centroids true self in
  match attrs self !! "some_waveforms" with
  | Some (FloatArray3 _ _ wfs) =>
      wfp ← getitem "params_waveformextractor"
              (params_waveformextractor (info self));
      foldlM (centroid_one wfs (n_left wfp)) (cluster_labels self) self
  | _ => Ok self
  end.

(** [a[order]] *)
Definition np_reorder {A} (a : list A) (order : list nat) : list A :=
  omap (λ i, a !! i) order.

(** [max(sorted_labels)] *)
Definition py_max (l : list Z) : result Z :=
  match l with
  | [] => Raise ValueError
  | x :: l => Ok (foldl Z.max x l)
  end.

(** The second phase of the remap of the peak labels:
    [for new, old in enumerate(sorted_labels+N)]. *)
Definition remap_labels (N : Z) (sorted_labels : list Z) (peaks : list Peak)
  : list Peak :=
  foldl (λ ps no, relabel (snd no) (fst no) ps) peaks
    (imap (λ new s, (Z.of_nat new, wrap64 (s + N))) sorted_labels).

(** One turn of the loop that resolves the offset [cell_label]s. *)
Definition cell_step (rows : list Cluster) (i : nat) : list Cluster :=
  match rows !! i with
  | None => rows
  | Some ci =>
      let k := cell_label ci in
      match list_find (λ c, cell_label c = k) rows with
      | Some (first, _) =>
          if decide (first = i)
          then (λ c, if decide (cell_label c = k)
                     then set_cell_label (Z.of_nat i) c else c) <$> rows
          else rows
      | None => rows
      end
  end.

Definition set_cluster_label (v : Z) (c : Cluster) : Cluster :=
  mkCluster v (cell_label c) (max_on_channel c) (max_peak_amplitude c)
    (waveform_rms c) (nb_peak c).

(** The rows of the non-negative clusters after the reordering. *)
Definition reorder_rows (N : Z) (pos_clusters : list Cluster)
    (order : list nat) : list Cluster :=
  let pos_clusters := np_reorder pos_clusters order in
  let n := length pos_clusters in
  let pos_clusters :=
    imap (λ i c, set_cluster_label (Z.of_nat i) c) pos_clusters in
  let pos_clusters :=
    (λ c, set_cell_label (wrap64 (cell_label c + N)) c) <$> pos_clusters in
  foldl cell_step pos_clusters (seq 0 n).

Definition order_clusters (by_ : string) (self : CC) : result CC :=
  self ← (if has_centroids self then Ok self else compute_centroid self);
  clusters ← match clusters self with
             | Some cl => Ok cl
             | None => Raise AttributeError
             end;
  let neg_clusters := filter (λ c, cluster_label c < 0) clusters in
  let pos_clusters := filter (λ c, 0 ≤ cluster_label c) clusters in
  order ←
    (if decide (by_ = "waveforms_rms")
     then Ok (reverse (argsort (waveform_rms <$> pos_clusters)))
     else if decide (by_ = "max_peak_amplitude")
     then Ok (reverse (argsort
                ((λ c, fabs (max_peak_amplitude c)) <$> pos_clusters)))
     else Raise NotImplementedError);
  let sorted_labels := cluster_label <$> np_reorder pos_clusters order in
  m ← py_max sorted_labels;
  let N := wrap64 (m * 10) in
  peaks ← subscriptable (all_peaks self);
  let peaks :=
    (λ p, if decide (0 ≤ label p)
          then set_label (wrap64 (label p + N)) p else p) <$> peaks in
  let peaks := remap_labels N sorted_labels peaks in
  let self := write_array "all_peaks" (PeakArray peaks) self in
  let pos_clusters := reorder_rows N pos_clusters order in
  let new_cluster := neg_clusters ++ pos_clusters in
  Ok (write_array "clusters" (ClusterArray new_cluster) self).
End ClusterManager.

(** ** More collaborators *)

(** The data access layer [self.dataio].  A chunk of signal is a list of
    samples, each a list of one value per channel.  Writes of the conditioned
    signal back to the layer ([set_signals_chunk], [flush_processed_signals])
    change the layer, not the constructor, and are not represented. *)
Class DataIO := {
  nb_segment : nat;
  nb_channel : nat;
  sample_rate : Q;
  get_segment_length : Z → Z;
  (** [iter_over_chunk(seg_num, chunksize, i_stop, signal_type)] *)
  iter_over_chunk : Z → Z → option Z → string → list (Z * list (list Q));
  (** [get_signals_chunk(seg_num, i_start, i_stop, signal_type='processed')] *)
  get_signals_chunk : Z → Z → Z → list (list Q);
}.

(** The conditioning and peak detection engines: [change_params] gives a
    fresh engine, [process_data] consumes one chunk. *)
Class Engines := {
  signalpreprocessor : Type;
  peakdetector : Type;
  sp_change_params :
    bool → option ndarray → option ndarray → signalpreprocessor;
  sp_process_data :
    signalpreprocessor → Z → list (list Q) →
    signalpreprocessor * (Z * option (list (list Q)));
  pd_change_params : PeakDetectorParams → peakdetector;
  pd_process_data :
    peakdetector → Z → list (list Q) → peakdetector * (Z * option (list Z));
}.

(** [np.random.choice(a, size=size)]: the draw of the [call]-th use of the
    generator. *)
Class RandomState := {
  random_choice : nat → nat → nat → result (list nat);
}.

(** The fitted projector: [self.projector.transform(waveforms)]. *)
Class ProjectorOps (Projector : Type) := {
  transform :
    Projector → option (list (list (list Q))) → result (list (list Q));
}.

(** ** Pipeline orchestrator *)

(** The names under which the modules [signalpreprocessor] and
    [peakdetector], that are not part of this file, register their engines
    ([signalpreprocessor_engines], [peakdetector_engines]); the engines
    themselves are the ones of the interface [Engines]. *)
Class EngineNames := {
  signalpreprocessor_engines : list string;
  peakdetector_engines : list string;
}.

(** [d[key]] on a dictionary that has the keys [keys]. *)
Definition lookup_name (keys : list string) (key : string) : result unit :=
  if decide (key ∈ keys) then Ok tt else Raise (KeyError key).

Section Orchestrator.
Context {Projector : Type} `{!DataIO, !Engines, !LabelCodes, !EngineNames}.
Abbreviation CC := (CatalogueConstructor Projector).

(** Modelled from the spec: the persistent array store
    ([iotools.ArrayCollection]) is not part of this file; the spec
    describes "named, typed, resizable arrays that can be created, appended
    to incrementally, memory-mapped, detached, or reloaded".
    [initialize_array] starts an empty appendable array, [append_chunk]
    extends it, [finalize_array] makes it the final attribute. *)
Definition initialize_array (name : string) (self : CC) : CC :=
  set_attrs (<[name := PeakArray []]> (attrs self)) self.

Definition append_chunk (name : string) (peaks : list Peak) (self : CC)
  : result CC :=
  match attrs self !! name with
  | Some (PeakArray a) =>
      Ok (set_attrs (<[name := PeakArray (a ++ peaks)]> (attrs self)) self)
  | _ => Raise (KeyError name)
  end.

Definition finalize_array (name : string) (self : CC) : result CC :=
  match attrs self !! name with
  | Some _ => Ok self
  | None => Raise (KeyError name)
  end.

Definition _reset_waveform_and_features (self : CC) : CC :=
  foldl (λ self name, setattr_None name self) self _reset_after_peak_arrays.

(** The records appended for the peaks of one chunk. *)
Definition new_peaks (seg_num : Z) (chunk_peaks : list Z) : list Peak :=
  (λ i, mkPeak i LABEL_UNCLASSIFIED seg_num) <$> chunk_peaks.

Definition signalprocessor_one_chunk (seg_num : Z) (detect_peak : bool)
    (st : CC * signalpreprocessor * peakdetector)
    (pos_chunk : Z * list (list Q))
  : result (CC * signalpreprocessor * peakdetector) :=
  let '(self, sp, pd) := st in
  let '(sp, (pos2, preprocessed_chunk)) :=
    sp_process_data sp (fst pos_chunk) (snd pos_chunk) in
  match preprocessed_chunk with
  | None => Ok (self, sp, pd)
  | Some preprocessed_chunk =>
      if detect_peak then
        let '(pd, (n_peaks, chunk_peaks)) :=
          pd_process_data pd pos2 preprocessed_chunk in
        match chunk_peaks with
        | Some chunk_peaks =>
            self ← append_chunk "all_peaks" (new_peaks seg_num chunk_peaks) self;
            Ok (self, sp, pd)
        | None => Ok (self, sp, pd)
        end
      else Ok (self, sp, pd)
  end.

Definition set_processed_length (length : Z) (self : CC) : CC :=
  set_info (mkInfo (Some length) (params_waveformextractor (info self))
              (params_signalpreprocessor (info self))
              (info_chunksize (info self))
              (info_params_peakdetector (info self))
              (internal_dtype (info self))) self.

Definition run_signalprocessor_loop_one_segment (duration : Q)
    (detect_peak : bool) (self : CC) (seg_num : nat) : result CC :=
  let seg_num := Z.of_nat seg_num in
  length ← py_int (float_mul duration sample_rate);
  let length := Z.min length (get_segment_length seg_num) in
  if decide (chunksize self = 0) then Raise ZeroDivisionError else
  let length := length - length `mod` chunksize self in
  let self := set_processed_length length self in
  let sp := sp_change_params true (attrs self !! "signals_medians")
              (attrs self !! "signals_mads") in
  let pd := pd_change_params (params_peakdetector self) in
  st ← foldlM (signalprocessor_one_chunk seg_num detect_peak)
        (iter_over_chunk seg_num (chunksize self) (Some length) "initial")
        (self, sp, pd);
  Ok (fst (fst st)).

Definition finalize_signalprocessor_loop (self : CC) : result CC :=
  self ← finalize_array "all_peaks" self;
  let self := _reset_waveform_and_features self in
  Ok (on_new_cluster self).

Definition run_signalprocessor (duration : Q) (detect_peak : bool)
    (self : CC) : result CC :=
  self ← foldlM (run_signalprocessor_loop_one_segment duration detect_peak)
          (seq 0 nb_segment) self;
  finalize_signalprocessor_loop self.

Definition set_info_params_peakdetector (p : PeakDetectorParams) (self : CC)
  : CC :=
  set_info (mkInfo (processed_length (info self))
              (params_waveformextractor (info self))
              (params_signalpreprocessor (info self))
              (info_chunksize (info self)) (Some p)
              (internal_dtype (info self))) self.

(** One turn of the inner loop of [re_detect_peak]. *)
Definition re_detect_one_chunk (seg_num : Z) (st : CC * peakdetector)
    (pos_chunk : Z * list (list Q)) : result (CC * peakdetector) :=
  let '(self, pd) := st in
  let '(pd, (n_peaks, chunk_peaks)) :=
    pd_process_data pd (fst pos_chunk) (snd pos_chunk) in
  match chunk_peaks with
  | Some chunk_peaks =>
      self ← append_chunk "all_peaks" (new_peaks seg_num chunk_peaks) self;
      Ok (self, pd)
  | None => Ok (self, pd)
  end.

Definition re_detect_one_segment (chunksize : Z) (self : CC) (seg_num : nat)
  : result CC :=
  let seg_num := Z.of_nat seg_num in
  let pd := pd_change_params (params_peakdetector self) in
  st ← foldlM (re_detect_one_chunk seg_num)
        (iter_over_chunk seg_num chunksize None "processed") (self, pd);
  Ok (fst st).

Definition re_detect_peak (peakdetector_engine : string)
    (params : PeakDetectorParams) (self : CC) : result CC :=
  let self := set_params_peakdetector params self in
  _ ← lookup_name peakdetector_engines peakdetector_engine;
  chunksize ← getitem "chunksize" (info_chunksize (info self));
  dtype ← getitem "internal_dtype" (internal_dtype (info self));
  let self := set_info_params_peakdetector params self in
  let self := initialize_array "all_peaks" self in
  self ← foldlM (re_detect_one_segment chunksize) (seq 0 nb_segment) self;
  self ← finalize_array "all_peaks" self;
  let self := _reset_waveform_and_features self in
  Ok (on_new_cluster self).
End Orchestrator.

(** ** Noise sampler *)

(** [a[start:stop] = v] with the bounds already normalised. *)
Definition slice_assign {A} (start stop : Z) (v : A) (a : list A) : list A :=
  imap (λ i x, if decide (start ≤ Z.of_nat i < stop) then v else x) a.

(** [a[start:stop]] *)
Definition np_slice {A} (start stop : Z) (a : list A) : list A :=
  let len := Z.of_nat (length a) in
  let start := slice_bound len start in
  let stop := slice_bound len stop in
  take (Z.to_nat (stop - start)) (drop (Z.to_nat start) a).

(** [np.nonzero(mask)[0]] *)
Definition np_nonzero (mask : list bool) : list Z :=
  omap id (imap (λ i (b : bool), if b then Some (Z.of_nat i) else None) mask).

(** The eligibility mask of one segment.  The loop over the peaks evaluates a
    slice of the mask and drops it: it assigns nothing. *)
Definition possibles_mask (length peak_width n_left n_right : Z)
    (peaks : list Peak) : list bool :=
  let possibles := replicate (Z.to_nat length) true in
  let possibles :=
    slice_assign 0 (slice_bound length peak_width) false possibles in
  let possibles :=
    slice_assign (slice_bound length (- peak_width)) length false possibles in
  foldl (λ possibles peak,
           let _ := np_slice (index peak + n_left - n_right)
                      (index peak + n_right - n_left) possibles in
           possibles)
    possibles peaks.

Section NoiseSampler.
Context {Projector : Type} `{!DataIO, !LabelCodes, !RandomState}.
Abbreviation CC := (CatalogueConstructor Projector).

(** One turn of the loop over the segments. *)
Definition noise_index_one_segment (n_left n_right n_by_seg : Z) (self : CC)
    (seg_num : nat) : result (list Peak) :=
  let peak_width := n_right - n_left in
  length ← getitem "processed_length" (processed_length (info self));
  if decide (length < 0) then Raise ValueError else
  all_peaks ← subscriptable (all_peaks self);
  let peaks := filter (λ p, segment p = Z.of_nat seg_num) all_peaks in
  let possibles := possibles_mask length peak_width n_left n_right peaks in
  let possible_indexes := np_nonzero possibles in
  if decide (n_by_seg < 0) then Raise ValueError else
  choice ← random_choice seg_num (List.length possible_indexes)
             (Z.to_nat n_by_seg);
  let choice := merge_sort Nat.le choice in
  idx ← np_take possible_indexes (Z.of_nat <$> choice);
  if decide (Z.of_nat (List.length idx) = n_by_seg)
  then Ok ((λ i, mkPeak i LABEL_NOISE (Z.of_nat seg_num)) <$> idx)
  else Raise ValueError.

(** One turn of the loop that reads the snippets. *)
Definition noise_snippet_one (n_left peak_width : Z)
    (snippets : list (list (list Q))) (ind : Peak)
  : result (list (list (list Q))) :=
  let i_start := index ind + n_left in
  let i_stop := i_start + peak_width in
  let snippet := get_signals_chunk (segment ind) i_start i_stop in
  snippet ← broadcast_rows (Z.to_nat peak_width) nb_channel snippet;
  Ok (snippets ++ [snippet]).

Definition extract_some_noise (nb_snippet : Z) (self : CC) : result CC :=
  wfp ← match params_waveformextractor (info self) with
        | Some wfp => Ok wfp
        | None => Raise (AssertionError "")
        end;
  let n_left := n_left wfp in
  let n_right := n_right wfp in
  let peak_width := n_right - n_left in
  if decide (nb_segment = 0%nat) then Raise ZeroDivisionError else
  let n_by_seg := nb_snippet `div` Z.of_nat nb_segment in
  some_noise_index ←
    foldlM (λ acc seg_num,
              noise_index ←
                noise_index_one_segment n_left n_right n_by_seg self seg_num;
              Ok (acc ++ noise_index))
      (seq 0 nb_segment) [];
  let self := add_array "some_noise_index" (PeakArray some_noise_index) self in
  dtype ← getitem "internal_dtype" (internal_dtype (info self));
  if decide (peak_width < 0) then Raise ValueError else
  some_noise_snippet ←
    foldlM (noise_snippet_one n_left peak_width) some_noise_index [];
  Ok (add_array "some_noise_snippet"
        (FloatArray3 (Z.to_nat peak_width) nb_channel some_noise_snippet)
        self).
End NoiseSampler.

(** ** Feature projector adapter *)

(** The names bound at module level in [catalogueconstructor.py]. *)
Definition module_globals : list string :=
  ["os"; "json"; "OrderedDict"; "time"; "pickle"; "itertools"; "np"; "scipy";
   "sns"; "sklearn"; "signalpreprocessor"; "peakdetector"; "decomposition";
   "cluster"; "metrics"; "median_mad"; "get_pairs_over_threshold";
   "ArrayCollection"; "plt"; "labelcodes"; "_persistent_metrics";
   "_reset_after_peak_arrays"; "_persitent_arrays"; "_dtype_peak";
   "_dtype_cluster"; "CatalogueConstructor"].

(** What a name of a function body evaluates to. *)
Inductive pyobject :=
| PyArray (a : ndarray)
| PyGlobal (name : string).

(** Reading a name inside a function: its local variables first, then the
    module level names; a name bound in neither is a [NameError] (no builtin
    is called [some_features]). *)
Definition load_name (locals : list (string * pyobject)) (name : string)
  : result pyobject :=
  match list_find (λ kv, fst kv = name) locals with
  | Some (_, kv) => Ok (snd kv)
  | None =>
      if decide (name ∈ module_globals) then Ok (PyGlobal name)
      else Raise (NameError name)
  end.

(** [x.astype(dtype)] *)
Definition astype (x : pyobject) : result ndarray :=
  match x with
  | PyArray a => Ok a
  | PyGlobal _ => Raise AttributeError
  end.

Section FeatureProjector.
Context {Projector : Type} `{!ProjectorOps Projector}.
Abbreviation CC := (CatalogueConstructor Projector).

Definition apply_projection (self : CC) : result CC :=
  match projector self with
  | None => Raise (AssertionError "")
  | Some projector =>
      features ← transform projector (some_waveforms self);
      let locals := [("features", PyArray (FloatArray2 features))] in
      some_features ← load_name locals "some_features";
      a ← astype some_features;
      Ok (add_array "some_features" a self)
  end.
End FeatureProjector.

(** ** Noise estimation *)

(** [np.median] of a 1-d array: [nan] on an empty one. *)
Definition np_median (l : list Q) : float64 :=
  let s := merge_sort Qle l in
  let n := length s in
  match s !! (n / 2)%nat with
  | None => nan
  | Some hi =>
      if Nat.even n
      then match s !! (n / 2 - 1)%nat with
           | Some lo => fin ((lo + hi) / 2)
           | None => nan
           end
      else fin hi
  end.

(** Column [c] of a 2-d array. *)
Definition column (c : nat) (a : list (list Q)) : list Q :=
  omap (λ row, row !! c) a.

(** [np.median(a, axis=0)] of a 2-d array with [nchan] columns. *)
Definition np_median_axis0 (nchan : nat) (a : list (list Q)) : list float64 :=
  (λ c, np_median (column c a)) <$> seq 0 nchan.

(** [np.median(np.abs(a - medians), axis=0) * 1.4826] *)
Definition np_mad_axis0 (nchan : nat) (a : list (list Q)) : list float64 :=
  (λ c, match np_median (column c a) with
        | nan => nan
        | fin m =>
            match np_median ((λ x, Qabs (x - m)) <$> column c a) with
            | nan => nan
            | fin d => fin (d * (14826 # 10000))
            end
        end) <$> seq 0 nchan.

(** [a[start:stop, :] = v] for a 2-d array [v], broadcast to the shape of
    the slice. *)
Definition np_slice_set (nchan : nat) (start stop : Z) (v a : list (list Q))
  : result (list (list Q)) :=
  let len := Z.of_nat (length a) in
  let start := slice_bound len start in
  let stop := slice_bound len stop in
  v ← broadcast_rows (Z.to_nat (stop - start)) nchan v;
  Ok (take (Z.to_nat start) a ++ v ++ drop (Z.to_nat (Z.max start stop)) a).

Section NoiseEstimation.
Context {Projector : Type} `{!DataIO, !Engines}.
Abbreviation CC := (CatalogueConstructor Projector).

(** One turn of the loop over the chunks: [pos2] is the local variable of
    that name, unbound ([None]) before the first turn. *)
Definition estimate_one_chunk
    (st : signalpreprocessor * list (list Q) * option Z)
    (pos_chunk : Z * list (list Q))
  : result (signalpreprocessor * list (list Q) * option Z) :=
  let '(sp, filtered_sigs, _) := st in
  let '(sp, (pos2, preprocessed_chunk)) :=
    sp_process_data sp (fst pos_chunk) (snd pos_chunk) in
  match preprocessed_chunk with
  | Some preprocessed_chunk =>
      filtered_sigs ←
        np_slice_set nb_channel
          (pos2 - Z.of_nat (length preprocessed_chunk)) pos2
          preprocessed_chunk filtered_sigs;
      Ok (sp, filtered_sigs, Some pos2)
  | None => Ok (sp, filtered_sigs, Some pos2)
  end.

(** What follows the assertion of [estimate_signals_noise]. *)
Definition estimate_from_prefix (seg_num length : Z) (self : CC)
  : result CC :=
  spp ← match params_signalpreprocessor (info self) with
        | Some spp => Ok spp
        | None => Raise AttributeError
        end;
  dtype ← getitem "internal_dtype" (internal_dtype (info self));
  let nrows := length - lostfront_chunksize spp in
  if decide (nrows < 0) then Raise ValueError else
  let filtered_sigs :=
    replicate (Z.to_nat nrows) (replicate nb_channel 0%Q) in
  let sp := sp_change_params false None None in
  st ← foldlM estimate_one_chunk
        (iter_over_chunk seg_num (chunksize self) (Some length) "initial")
        (sp, filtered_sigs, None);
  let '(_, filtered_sigs, pos2) := st in
  pos2 ← match pos2 with
         | Some pos2 => Ok pos2
         | None => Raise (UnboundLocalError "pos2")
         end;
  let sigs := np_slice 0 pos2 filtered_sigs in
  let self :=
    add_array "signals_medians"
      (FloatArray1 (np_median_axis0 nb_channel sigs)) self in
  Ok (add_array "signals_mads"
        (FloatArray1 (np_mad_axis0 nb_channel sigs)) self).

Definition estimate_signals_noise (seg_num : Z) (duration : Q) (self : CC)
  : result CC :=
  length ← py_int (float_mul duration sample_rate);
  if decide (chunksize self = 0) then Raise ZeroDivisionError else
  let length := length - length `mod` chunksize self in
  _ ← assert (bool_decide (length < get_segment_length seg_num))
        "duration exeed size";
  estimate_from_prefix seg_num length self.
End NoiseEstimation.

(** ** Colours of the clusters *)

Definition color : Type := Q * Q * Q.

(** [sns.color_palette(palette, n)] *)
Class Palette := {
  color_palette : string → nat → result (list color);
}.

Section Colors.
Context {Projector : Type} `{!LabelCodes, !Palette}.
Abbreviation CC := (CatalogueConstructor Projector).

(** [refresh_colors(reset, palette)]: [colors] is [self.colors], [None]
    when the constructor has no such attribute yet; the result is the new
    [self.colors]. *)
Definition refresh_colors (reset : bool) (palette : string)
    (colors : option (gmap Z color)) (self : CC) : result (gmap Z color) :=
  let colors := if reset then Some ∅ else colors in
  let labels_ok := filter (λ k, 0 ≤ k) (cluster_labels self) in
  let n := length labels_ok in
  color_table ← color_palette palette n;
  colors ← match colors with
           | Some colors => Ok colors
           | None => Raise AttributeError
           end;
  colors ←
    foldlM (λ (colors : gmap Z color) (ik : nat * Z),
              match colors !! snd ik with
              | Some _ => Ok colors
              | None =>
                  c ← np_getitem color_table (Z.of_nat (fst ik));
                  Ok (<[snd ik := c]> colors)
              end)
      (imap (λ i k, (i, k)) labels_ok) colors;
  let colors := <[LABEL_TRASH := ((4 # 10, 4 # 10, 4 # 10) : color)]> colors in
  let colors :=
    <[LABEL_UNCLASSIFIED := ((6 # 10, 6 # 10, 6 # 10) : color)]> colors in
  Ok (<[LABEL_NOISE := ((8 # 10, 8 # 10, 8 # 10) : color)]> colors).
End Colors.

(** ** Catalogue builder *)

(** [scipy.interpolate.interp1d(np.arange(full_width), center0, axis=0,
    kind='cubic')(subsample)] *)
Class Interpolation := {
  interp1d_cubic : list (list float64) → list Q → result (list (list float64));
}.

(** [self.catalogue], without the entry [chan_grp], the channel group that
    the constructor only hands on.  The two entries of the noise statistics
    are copies of the attributes [signals_medians] and [signals_mads]
    ([None] when they are). *)
Record Catalogue := mkCatalogue {
  catalogue_n_left : Z;
  catalogue_n_right : Z;
  catalogue_peak_width : Z;
  catalogue_cluster_labels : list Z;
  centers0 : list (list (list float64));
  centers1 : list (list (list float64));
  centers2 : list (list (list float64));
  catalogue_subsample_ratio : Z;
  interp_centers0 : list (list (list float64));
  label_to_index : gmap Z nat;
  catalogue_max_on_channel : list Z;
  cluster_colors : gmap Z color;
  catalogue_params_signalpreprocessor : SignalPreprocessorParams;
  catalogue_params_peakdetector : PeakDetectorParams;
  catalogue_signals_medians : option ndarray;
  catalogue_signals_mads : option ndarray;
}.

(** Sample [t], channel [c] of a waveform; [0] outside of it, as the
    convolution pads. *)
Definition sample_at (wf : list (list Q)) (t : Z) (c : nat) : Q :=
  if decide (0 ≤ t)
  then default 0%Q (wf !! Z.to_nat t ≫= λ row, row !! c)
  else 0%Q.

(** [scipy.signal.fftconvolve(wf, kernel, 'same')] along the time axis for
    [kernel = [1, 0, -1] / 2], on one waveform: the central difference
    [(x[t+1] - x[t-1]) / 2]. *)
Definition central_difference (wf : list (list Q)) : list (list Q) :=
  imap (λ t row,
          imap (λ c _, ((sample_at wf (Z.of_nat t + 1)%Z c
                         - sample_at wf (Z.of_nat t - 1)%Z c) / 2)%Q) row) wf.

(** [np.median(wf, axis=0)] of a 3-d array of shape
    [(n, full_width, nchan)]. *)
Definition np_median_waveforms (full_width nchan : nat)
    (wfs : list (list (list Q))) : list (list float64) :=
  (λ t, (λ c, np_median (omap (λ wf, wf !! t ≫= λ row, row !! c) wfs))
          <$> seq 0 nchan) <$> seq 0 full_width.

(** [np.arange(start, stop, step)] for floats, in exact arithmetic: the
    [ceil((stop - start) / step)] values [start + i * step]. *)
Definition np_arange (start stop step : Q) : list Q :=
  (λ i, (start + inject_Z i * step)%Q)
    <$> seqZ 0 (Qceiling ((stop - start) / step)).

(** The running best of [np.argmax]: a [nan] is the largest value. *)
Definition argmax_step (best : nat * float64) (i : nat) (x : float64)
  : nat * float64 :=
  match snd best, x with
  | nan, _ => best
  | fin _, nan => (i, x)
  | fin b, fin q => if decide (Qlt b q) then (i, x) else best
  end.

(** [np.argmax] of a 1-d array. *)
Definition np_argmax (l : list float64) : result Z :=
  match l with
  | [] => Raise ValueError
  | x :: l' =>
      Ok (Z.of_nat (fst (foldl (λ best ix, argmax_step best (fst ix) (snd ix))
                           (0%nat, x) (imap (λ i y, (S i, y)) l'))))
  end.

Section CatalogueBuilder.
Context {Projector : Type} `{!Interpolation, !LabelCodes, !Palette}.
Abbreviation CC := (CatalogueConstructor Projector).

(** The templates of one cluster: the body of the first loop of
    [make_catalogue] without the bookkeeping of the index. *)
Definition cluster_templates (full_width nchan : nat)
    (wfs : list (list (list Q))) (subsample : list Q) (self : CC) (k : Z)
  : result (list (list float64) * list (list float64)
            * list (list float64) * list (list float64)) :=
  labels ← sample_labels self;
  wf0 ← np_mask_select ((λ l, bool_decide (l = k)) <$> labels) wfs;
  (* an empty selection makes the first convolution return a 1-d empty
     array, which the second convolution rejects *)
  if decide (length wf0 = 0 ∨ full_width = 0 ∨ nchan = 0)%nat
  then Raise ValueError else
  let wf1 := central_difference <$> wf0 in
  let wf2 := central_difference <$> wf1 in
  let center0 := np_median_waveforms full_width nchan wf0 in
  let c0 := np_slice 2 (-2) center0 in
  let c1 := np_slice 2 (-2) (np_median_waveforms full_width nchan wf1) in
  let c2 := np_slice 2 (-2) (np_median_waveforms full_width nchan wf2) in
  oversampled_center ← interp1d_cubic center0 subsample;
  if decide (length oversampled_center = length subsample
             ∧ Forall (λ row, length row = nchan) oversampled_center)
  then Ok (c0, c1, c2, oversampled_center)
  else Raise ValueError.

(** [make_catalogue]: [colors] is [self.colors], [None] when the constructor
    has no such attribute yet (then the colours are made, and are those of
    the catalogue). *)
Definition make_catalogue (colors : option (gmap Z color)) (self : CC)
  : result Catalogue :=
  wfp ← getitem "params_waveformextractor"
          (params_waveformextractor (info self));
  let n_left := n_left wfp + 2 in
  let n_right := n_right wfp - 2 in
  let cluster_labels := filter (λ k, 0 ≤ k) (cluster_labels self) in
  match attrs self !! "some_waveforms" with
  | Some (FloatArray3 full_width nchan wfs) =>
      dtype ← getitem "internal_dtype" (internal_dtype (info self));
      if decide (full_width < 4)%nat then Raise ValueError else
      let subsample :=
        np_arange (15 # 10)
          (inject_Z (Z.of_nat full_width) - (25 # 10))%Q (1 # 20) in
      templates ←
        foldlM (λ acc k,
                  t ← cluster_templates full_width nchan wfs subsample self k;
                  Ok (acc ++ [t]))
          cluster_labels [];
      let centers0 := (λ t, fst (fst (fst t))) <$> templates in
      max_on_channel ←
        foldlM (λ acc center,
                  row ← np_getitem center (- n_left);
                  chan ← np_argmax (fabs <$> row);
                  Ok (acc ++ [chan]))
          centers0 [];
      colors ← match colors with
               | Some colors => Ok colors
               | None => refresh_colors true "husl" None self
               end;
      spp ← getitem "params_signalpreprocessor"
              (params_signalpreprocessor (info self));
      pdp ← getitem "params_peakdetector"
              (info_params_peakdetector (info self));
      Ok (mkCatalogue n_left n_right (n_right - n_left) cluster_labels
            centers0
            ((λ t, snd (fst (fst t))) <$> templates)
            ((λ t, snd (fst t)) <$> templates)
            20
            (snd <$> templates)
            (list_to_map (imap (λ i k, (k, i)) cluster_labels))
            max_on_channel colors spp pdp
            (attrs self !! "signals_medians") (attrs self !! "signals_mads"))
  | _ => Raise AttributeError
  end.
End CatalogueBuilder.

(** The first derivative template as the specification words it: the central
    difference of the median template, trimmed by two samples at each end. *)
Definition difference_of_median (full_width nchan : nat)
    (wf0 : list (list (list Q))) : list (list float64) :=
  let center0 := np_median_waveforms full_width nchan wf0 in
  let finite :=
    (λ row : list float64,
       (λ x, match x with fin q => q | nan => 0%Q end) <$> row) <$> center0 in
  np_slice 2 (-2)
    ((λ row : list Q, fin <$> row) <$> central_difference finite).

(** ** Cluster manager: tagging clusters as one cell *)

(** [min(labels_to_group)] *)
Definition py_min (l : list Z) : result Z :=
  match l with
  | [] => Raise ValueError
  | x :: l => Ok (foldl Z.min x l)
  end.

(** [np.in1d(a, values)] *)
Definition np_in1d (a values : list Z) : list bool :=
  (λ x, bool_decide (x ∈ values)) <$> a.

Section CellTags.
Context {Projector : Type}.
Abbreviation CC := (CatalogueConstructor Projector).

(** [tag_same_cell(labels_to_group)]: the rows found by [np.in1d] get the
    smallest of the listed labels as [cell_label]. *)
Definition tag_same_cell (labels_to_group : list Z) (self : CC) : result CC :=
  clusters ← subscriptable (clusters self);
  let inds :=
    np_nonzero (np_in1d (cluster_label <$> clusters) labels_to_group) in
  v ← py_min labels_to_group;
  Ok (write_array "clusters"
        (ClusterArray
           (foldl (λ cl i, alter (set_cell_label v) (Z.to_nat i) cl)
              clusters inds))
        self).

(** The [nb_peak] property. *)
Definition nb_peak_of (self : CC) : Z :=
  match all_peaks self with
  | None => 0
  | Some peaks => Z.of_nat (length peaks)
  end.

Definition set_chunksize (c : Z) (self : CC) : CC :=
  mkCatalogueConstructor (attrs self) (info self) (projector self)
    (has_centroids self) c (params_peakdetector self).

(** [self.<name> = None]: the attribute reads [None] from now on. *)
Definition set_attribute_None (name : string) (self : CC) : CC :=
  set_attrs (delete name (attrs self)) self.
End CellTags.

(** ** Pipeline orchestrator: the parameters *)

Section Parameters.
Context {Projector : Type} `{!DataIO, !Engines, !LabelCodes, !EngineNames}.
Abbreviation CC := (CatalogueConstructor Projector).

(** [set_preprocessor_params]: of the parameters of the conditioning only
    [lostfront_chunksize] is read back by the constructor. *)
Definition set_preprocessor_params (chunksize : Z) (internal_dtype : string)
    (signalpreprocessor_engine : string) (lostfront_chunksize : Z)
    (peakdetector_engine : string) (peak_sign : string)
    (relative_threshold peak_span : Q) (self : CC) : result CC :=
  let self := set_chunksize chunksize self in
  let self := initialize_array "all_peaks" self in
  let params_signalpreprocessor :=
    mkSignalPreprocessorParams lostfront_chunksize in
  _ ← lookup_name signalpreprocessor_engines signalpreprocessor_engine;
  let params_peakdetector :=
    mkPeakDetectorParams peak_sign relative_threshold peak_span in
  let self := set_params_peakdetector params_peakdetector self in
  _ ← lookup_name peakdetector_engines peakdetector_engine;
  Ok (set_info
        (mkInfo (processed_length (info self))
           (params_waveformextractor (info self))
           (Some params_signalpreprocessor) (Some chunksize)
           (Some params_peakdetector) (Some internal_dtype))
        self).
End Parameters.

(** ** Waveform extractor *)

(** The window [(n_left, n_right)] of recorded parameters. *)
Definition window_of (wfp : WaveformExtractorParams) : Z * Z :=
  (n_left wfp, n_right wfp).

(** [scipy.signal.resample(x, num, axis=0)] *)
Class Resampler := {
  resample : list (list Q) → Z → result (list (list Q));
}.

(** A bound of a slice with a negative step, as Python normalises it on a
    sequence of length [len]. *)
Definition slice_bound_backwards (len i : Z) : Z :=
  let i := if decide (i < 0) then i + len else i in
  if decide (i < 0) then -1 else if decide (len ≤ i) then len - 1 else i.

(** The positions that [a[start:stop:step]] selects on a sequence of length
    [len], for a non-zero [step]. *)
Definition py_slice_indices (len start stop step : Z) : list Z :=
  if decide (0 < step) then
    let start := slice_bound len start in
    let stop := slice_bound len stop in
    if decide (start < stop)
    then (λ i, start + i * step) <$> seqZ 0 ((stop - start - 1) `div` step + 1)
    else []
  else
    let start := slice_bound_backwards len start in
    let stop := slice_bound_backwards len stop in
    if decide (stop < start)
    then (λ i, start + i * step)
           <$> seqZ 0 ((start - stop - 1) `div` (- step) + 1)
    else [].

(** [a[start:stop:step]] *)
Definition np_slice_step {A} (start stop step : Z) (a : list A)
  : result (list A) :=
  if decide (step = 0) then Raise ValueError
  else Ok (omap (λ i, a !! Z.to_nat i)
             (py_slice_indices (Z.of_nat (length a)) start stop step)).

(** The running best of [np.argmin]: a [nan] is the smallest value. *)
Definition argmin_step (best : nat * float64) (i : nat) (x : float64)
  : nat * float64 :=
  match snd best, x with
  | nan, _ => best
  | fin _, nan => (i, x)
  | fin b, fin q => if decide (Qlt q b) then (i, x) else best
  end.

(** [np.argmin] of a 1-d array. *)
Definition np_argmin (l : list float64) : result Z :=
  match l with
  | [] => Raise ValueError
  | x :: l' =>
      Ok (Z.of_nat (fst (foldl (λ best ix, argmin_step best (fst ix) (snd ix))
                           (0%nat, x) (imap (λ i y, (S i, y)) l'))))
  end.

(** [mask[idx] = True] for an integer array [idx]. *)
Definition np_put_true (mask : list bool) (idx : list Z) : result (list bool) :=
  foldlM (λ mask i,
            let len := Z.of_nat (length mask) in
            let j := if decide (i < 0) then i + len else i in
            if decide (0 ≤ j < len)
            then Ok (<[Z.to_nat j := true]> mask)
            else Raise IndexError)
    idx mask.

Section WaveformExtractor.
Context {Projector : Type}
  `{!DataIO, !RandomState, !ProjectorOps Projector, !Resampler}.
Abbreviation CC := (CatalogueConstructor Projector).

(** The branch [if align_waveform:] of the loop over the peaks: the window
    is read three times as wide, oversampled, and cut again around the
    extremum nearest to the peak. *)
Definition aligned_waveform (peak_sign : string)
    (n_left peak_width ratio : Z) (seg_num i_start i_stop : Z)
  : result (list (list Q)) :=
  let wf := get_signals_chunk seg_num (i_start - peak_width)
              (i_stop + peak_width) in
  wf2 ← resample wf (Z.of_nat (length wf) * ratio);
  let wf2_around_peak :=
    np_slice ((peak_width - n_left - 2) * ratio)
      ((peak_width - n_left + 3) * ratio) wf2 in
  ind_max ←
    (if decide (peak_sign = "+") then
       row ← np_getitem wf2_around_peak ratio;
       ind_chan_max ← np_argmax (fin <$> row);
       np_argmax (fin <$> column (Z.to_nat ind_chan_max) wf2_around_peak)
     else if decide (peak_sign = "-") then
       row ← np_getitem wf2_around_peak ratio;
       ind_chan_max ← np_argmin (fin <$> row);
       np_argmin (fin <$> column (Z.to_nat ind_chan_max) wf2_around_peak)
     else Raise (UnboundLocalError "ind_max"));
  let shift := ind_max - ratio * 2 in
  let i1 := peak_width * ratio + shift in
  let i2 := i1 + peak_width * ratio in
  np_slice_step i1 i2 ratio wf2.

(** One turn of the loop over the peaks of a segment. *)
Definition extract_one_waveform (peak_sign : string)
    (n_left peak_width : Z) (align_waveform : bool) (subsample_ratio : Z)
    (seg_num : Z) (waveforms : list (list (list Q))) (peak : Peak)
  : result (list (list (list Q))) :=
  let i_start := index peak + n_left in
  let i_stop := i_start + peak_width in
  wf ← (if align_waveform
        then aligned_waveform peak_sign n_left peak_width subsample_ratio
               seg_num i_start i_stop
        else Ok (get_signals_chunk seg_num i_start i_stop));
  wf ← broadcast_rows (Z.to_nat peak_width) nb_channel wf;
  Ok (waveforms ++ [wf]).

(** One turn of the loop over the segments. *)
Definition extract_one_segment (peak_sign : string)
    (n_left peak_width : Z) (align_waveform : bool) (subsample_ratio : Z)
    (all_peaks : list Peak) (some_peak_mask : list bool)
    (waveforms : list (list (list Q))) (seg_num : Z)
  : result (list (list (list Q))) :=
  insegment_peaks ←
    np_mask_select
      (zip_with andb some_peak_mask
         ((λ p, bool_decide (segment p = seg_num)) <$> all_peaks))
      all_peaks;
  foldlM (extract_one_waveform peak_sign n_left peak_width align_waveform
            subsample_ratio seg_num)
    insegment_peaks waveforms.

Definition set_params_waveformextractor (p : WaveformExtractorParams)
    (self : CC) : CC :=
  set_info (mkInfo (processed_length (info self)) (Some p)
              (params_signalpreprocessor (info self))
              (info_chunksize (info self))
              (info_params_peakdetector (info self))
              (internal_dtype (info self))) self.

(** The choice of the peaks to sample when no [index] is given. *)
Definition choose_peaks_index (mode : string) (nb_max : Z) (self : CC)
  : result (list Z) :=
  if decide (mode = "rand" ∧ nb_max < nb_peak_of self) then
    if decide (nb_max < 0) then Raise ValueError else
    (choice ← random_choice 0%nat (Z.to_nat (nb_peak_of self))
                (Z.to_nat nb_max);
     Ok (Z.of_nat <$> choice) : result (list Z))
  else if decide (mode = "rand" ∧ nb_peak_of self ≤ nb_max) then
    Ok (seqZ 0 (nb_peak_of self))
  else if decide (mode = "all") then
    Ok (seqZ 0 (nb_peak_of self))
  else
    (* [raise(NotImplementedError, 'unknown mode')] raises a tuple *)
    Raise TypeError.

(** [extract_some_waveforms].  The attribute [self.memory_mode], that
    [set_preprocessor_params] sets and that is only handed on to the array
    store, is taken to be set.  The array [some_waveforms] is created filled
    with zeros, and a window width below zero is refused when it is created;
    [index] is the argument [index], [None] when it is not given. *)
Definition extract_some_waveforms (n_left n_right : option Z)
    (index : option (list Z)) (mode : string) (nb_max : Z)
    (align_waveform : bool) (subsample_ratio : Z) (self : CC) : result CC :=
  '(n_left, n_right) ←
    match n_left, n_right with
    | Some n_left, Some n_right => Ok (n_left, n_right)
    | _, _ =>
        match params_waveformextractor (info self) with
        | Some wfp => Ok (window_of wfp)
        | None => Raise (AssertionError "")
        end
    end;
  pdp ← getitem "params_peakdetector" (info_params_peakdetector (info self));
  let peak_sign := peak_sign pdp in
  let peak_width := n_right - n_left in
  some_peaks_index ←
    match index with
    | Some index => Ok index
    | None => choose_peaks_index mode nb_max self
    end;
  let some_peaks_index := np_unique some_peaks_index in
  some_peak_mask ←
    np_put_true (replicate (Z.to_nat (nb_peak_of self)) false)
      some_peaks_index;
  let nb := length some_peaks_index in
  let self := add_array "some_peaks_index" (IntArray some_peaks_index) self in
  dtype ← getitem "internal_dtype" (internal_dtype (info self));
  if decide (peak_width < 0) then Raise ValueError else
  all_peaks ← subscriptable (all_peaks self);
  let seg_nums := np_unique (segment <$> all_peaks) in
  waveforms ←
    foldlM (extract_one_segment peak_sign n_left peak_width align_waveform
              subsample_ratio all_peaks some_peak_mask)
      seg_nums [];
  (* the slots that the loop has not reached keep the zeros of the array
     as it is created *)
  let some_waveforms :=
    waveforms
    ++ replicate (nb - length waveforms)
         (replicate (Z.to_nat peak_width) (replicate nb_channel 0%Q)) in
  let self :=
    add_array "some_waveforms"
      (FloatArray3 (Z.to_nat peak_width) nb_channel some_waveforms) self in
  let self :=
    set_params_waveformextractor
      (mkWaveformExtractorParams n_left n_right nb_max align_waveform
         subsample_ratio) self in
  match projector self with
  | Some _ =>
      match apply_projection self with
      | Ok self => Ok self
      | Raise _ => Ok (set_attribute_None "some_features" self)
      end
  | None => Ok (set_attribute_None "some_features" self)
  end.
End WaveformExtractor.

(** ** Limits of the waveform window *)

(** [tools.median_mad(data, axis=0)] on the waveform sample, from a module
    that is not part of this file: the median and the spread per sample and
    channel, two arrays of floats, with their dtype ([np.float32] or
    [np.float64]). *)
Class Tools := {
  median_mad :
    option (list (list (list Q)))
    → result (float_dtype * list (list float64) * list (list float64));
}.

(** [np.diff(a)] *)
Definition np_diff (a : list Z) : list Z := zip_with (λ x y, y - x) a (tail a).

(** [np.where(a == v)[0]] *)
Definition np_where_eq (a : list Z) (v : Z) : list Z :=
  np_nonzero ((λ x, bool_decide (x = v)) <$> a).

(** [a - b] for two 1-d arrays: an axis of length 1 is broadcast. *)
Definition np_subtract (a b : list Z) : result (list Z) :=
  if decide (length a = length b) then Ok (zip_with Z.sub a b)
  else match a, b with
       | [x], _ => Ok ((λ y, x - y) <$> b)
       | _, [y] => Ok ((λ x, x - y) <$> a)
       | _, _ => Raise ValueError
       end.

(** [np.argmax] of a 1-d array of integers. *)
Definition np_argmax_int (l : list Z) : result Z :=
  match l with
  | [] => Raise ValueError
  | x :: l' =>
      Ok (Z.of_nat
            (fst (foldl (λ best ix : nat * Z,
                           if decide (snd best < snd ix) then ix else best)
                    (0%nat, x) (imap (λ i y, (S i, y)) l'))))
  end.

(** [x >= threshold] for an entry [x] of an array of floats: never for a
    [nan]. *)
Definition float_ge (x : float64) (threshold : pyfloat) : bool :=
  match x with
  | nan => false
  | fin q => float_le threshold (float_of q)
  end.

(** The part of [find_good_limits] that reads the limits off the flags
    [above], one per sample of the window; [None] is the result
    [(None, None)]. *)
Definition limits_of_flags (above : list bool)
    (old_n_left min_left max_right : Z) : result (option (Z * Z)) :=
  let d := np_diff ((λ b : bool, if b then 1 else 0) <$> above) in
  let up := np_where_eq d 1 in
  let down := np_where_eq d (-1) in
  if decide (length up = 0%nat ∨ length down = 0%nat) then Ok None else
  m ← py_max down;
  let up := filter (λ u, u < m) up in
  m ← py_min up;
  let down := filter (λ d, m < d) down in
  if decide (length up = 0%nat ∨ length down = 0%nat) then Ok None else
  differences ← np_subtract down up;
  best ← np_argmax_int differences;
  u ← np_getitem up best;
  d ← np_getitem down best;
  let n_left := old_n_left + u in
  let n_right := old_n_left + d + 1 in
  Ok (Some (Z.min n_left min_left, Z.max n_right max_right)).

Section GoodLimits.
Context {Projector : Type}
  `{!DataIO, !RandomState, !ProjectorOps Projector, !Resampler, !Tools}.
Abbreviation CC := (CatalogueConstructor Projector).

(** The flags of [find_good_limits]: the samples of the window at which the
    spread reaches [mad_threshold] on at least the fraction
    [channel_percent] of the channels.  numpy compares the array [mad] with
    the Python float [mad_threshold] in the precision of the array, and the
    counts [nb_above] (integers) with the float product
    [self.nb_channel*channel_percent] as floats. *)
Definition flags_above (mad_threshold channel_percent : Q)
    (dtype : float_dtype) (mad : list (list float64)) : result (list bool) :=
  let threshold := round_to (format_of dtype) mad_threshold in
  let nb_above :=
    (λ row, Z.of_nat (length (filter (λ x, float_ge x threshold = true)
                                row))) <$> mad in
  nb_channel ← float_of_int (Z.of_nat nb_channel);
  let limit := float_mul nb_channel channel_percent in
  Ok ((λ n, float_le limit (round_to binary64 (inject_Z n))) <$> nb_above).

Definition find_good_limits (mad_threshold channel_percent : Q)
    (extract : bool) (min_left max_right : Z) (self : CC)
  : result (CC * option (Z * Z)) :=
  wfp ← getitem "params_waveformextractor"
          (params_waveformextractor (info self));
  '(dtype, median, mad) ← median_mad (some_waveforms self);
  above ← flags_above mad_threshold channel_percent dtype mad;
  limits ← limits_of_flags above (n_left wfp) min_left max_right;
  match limits with
  | None => Ok (self, None)
  | Some (n_left, n_right) =>
      if extract then
        let self := set_projector None self in
        self ← extract_some_waveforms (Some n_left) (Some n_right)
                 (some_peaks_index self) "rand" 10000 (align_waveform wfp) 20
                 self;
        Ok (self, Some (n_left, n_right))
      else Ok (self, Some (n_left, n_right))
  end.
End GoodLimits.

(** ** Relations used to state the properties of the cluster manager *)

(** What one pass of the loop of [trash_small_cluster] may do to a peak: keep
    it, or send its label to [-1]. *)
Definition trashed (p p' : Peak) : Prop :=
  index p' = index p ∧ segment p' = segment p
  ∧ (label p' = label p ∨ label p' = -1).

(** The value of a label after the loop
    [for new, old in ...: labels[labels == old] = new]. *)
Definition remap_value (olds : list (Z * Z)) (v : Z) : Z :=
  foldl (λ v no, if decide (v = snd no) then fst no else v) v olds.

(** What the two phases of the remap of [order_clusters] do to one label. *)
Definition new_label (N : Z) (sorted_labels : list Z) (l : Z) : Z :=
  remap_value (imap (λ new s, (Z.of_nat new, wrap64 (s + N))) sorted_labels)
    (if decide (0 ≤ l) then wrap64 (l + N) else l).

(** Two rows that agree on the bookkeeping columns. *)
Definition same_keys (c c' : Cluster) : Prop :=
  cluster_label c' = cluster_label c ∧ cell_label c' = cell_label c
  ∧ nb_peak c' = nb_peak c.

(** A row transformer that keeps the label and the count of a row and sends
    rows of one cell to rows of one cell. *)
Definition keeps_cells (g : Cluster → Cluster) : Prop :=
  (∀ c, cluster_label (g c) = cluster_label c ∧ nb_peak (g c) = nb_peak c)
  ∧ ∀ a b, cell_label a = cell_label b → cell_label (g a) = cell_label (g b).

(** The peak table and the bookkeeping columns of the cluster table are the
    same in [self] and [self']. *)
Definition centroid_inv {Projector} (self self' : CatalogueConstructor Projector)
  : Prop :=
  all_peaks self' = all_peaks self
  ∧ ∀ cl, clusters self = Some cl →
          ∃ cl', clusters self' = Some cl' ∧ Forall2 same_keys cl cl'.

(** Every attribute but the peak table is the same in [self] and [self']. *)
Definition same_except_peaks {Projector}
    (self self' : CatalogueConstructor Projector) : Prop :=
  ∀ name, name ≠ "all_peaks" → attrs self' !! name = attrs self !! name.

(** The peak table is under construction (or final) in [self]. *)
Definition peaks_ready {Projector} (self : CatalogueConstructor Projector)
  : Prop :=
  ∃ a, attrs self !! "all_peaks" = Some (PeakArray a).

(** The windows of width [peak_width] read around the samples [i] and [j],
    [[i + n_left, i + n_left + peak_width)] and the same at [j], have no
    sample in common. *)
Definition windows_disjoint (n_left peak_width i j : Z) : Prop :=
  i + n_left + peak_width ≤ j + n_left ∨ j + n_left + peak_width ≤ i + n_left.

(** A 3-d array of shape [(a, b, c)]. *)
Definition has_shape3 {A} (a b c : nat) (t : list (list (list A))) : Prop :=
  length t = a
  ∧ Forall (λ m, length m = b ∧ Forall (λ row, length row = c) m) t.

(** The templates that the loop of [make_catalogue] computes for cluster [k]
    from the waveforms [wf0] of its members. *)
Definition templates_of {Projector} (W nchan : nat)
    (wfs : list (list (list Q))) (self : CatalogueConstructor Projector)
    (k : Z) (t : list (list float64) * list (list float64)
                 * list (list float64) * list (list float64)) : Prop :=
  ∃ labels wf0,
    sample_labels self = Ok labels
    ∧ np_mask_select ((λ l, bool_decide (l = k)) <$> labels) wfs = Ok wf0
    ∧ wf0 ≠ []
    ∧ fst (fst (fst t)) = np_slice 2 (-2) (np_median_waveforms W nchan wf0)
    ∧ snd (fst (fst t))
      = np_slice 2 (-2)
          (np_median_waveforms W nchan (central_difference <$> wf0))
    ∧ snd (fst t)
      = np_slice 2 (-2)
          (np_median_waveforms W nchan
             (central_difference <$> (central_difference <$> wf0))).

(** ** Relations used to state the properties of the other stages *)

(** The order in which numpy sorts floats: a [nan] comes last. *)
Definition float64_le (x y : float64) : Prop :=
  match x, y with
  | _, nan => True
  | nan, fin _ => False
  | fin a, fin b => (a <= b)%Q
  end.


(** What [compute_centroid] may do to a row: fill in the measured columns of
    a cluster with a non-negative label. *)
Definition remeasured (c c' : Cluster) : Prop :=
  same_keys c c' ∧ (cluster_label c < 0 → c' = c).

(** What [compute_centroid] leaves alone: every attribute but the cluster
    table, the recorded parameters, and in the table the bookkeeping columns
    of every row and the rows of the reserved labels. *)
Definition centroid_frame {Projector}
    (self self' : CatalogueConstructor Projector) : Prop :=
  (∀ name, name ≠ "clusters" → attrs self' !! name = attrs self !! name)
  ∧ info self' = info self
  ∧ ∀ cl, clusters self = Some cl →
          ∃ cl', clusters self' = Some cl' ∧ Forall2 remeasured cl cl'.

(** The peak table as peak detection builds it up to segment [k]: every
    record is unclassified and of a segment below [k], and the records come
    segment after segment. *)
Definition detected_upto `{!LabelCodes} (k : Z) (a : list Peak) : Prop :=
  Forall (λ p, label p = LABEL_UNCLASSIFIED ∧ 0 ≤ segment p < k) a
  ∧ StronglySorted (λ p q, segment p ≤ segment q) a.

(** The peak table of [self] is [a0] followed by records detected in the
    segments below [k]. *)
Definition extends_table {Projector} `{!LabelCodes} (a0 : list Peak) (k : Z)
    (self : CatalogueConstructor Projector) : Prop :=
  ∃ new, attrs self !! "all_peaks" = Some (PeakArray (a0 ++ new))
         ∧ detected_upto k new.

(** The flags rise after sample [i]: sample [i] is not flagged and the
    next one is. *)
Definition rises_after (above : list bool) (i : nat) : Prop :=
  above !! i = Some false ∧ above !! S i = Some true.

(** The flags fall after sample [i]: sample [i] is flagged and the next one
    is not. *)
Definition falls_after (above : list bool) (i : nat) : Prop :=
  above !! i = Some true ∧ above !! S i = Some false.

(** [xs] and [ys] alternate above [lo]: [lo < x1 < y1 < x2 < y2 < ...],
    as the rises and the falls of the flags do. *)
Inductive interleaved : Z → list Z → list Z → Prop :=
  | interleaved_nil lo : interleaved lo [] []
  | interleaved_cons lo x xs ys :
      lo < x → interleaved x ys xs → interleaved lo (x :: xs) ys.

(** ** Example collaborators and constructors *)

Module Examples.
(** One segment of 100 conditioned samples on one channel, delivered as a
    single chunk; reading a window gives as many samples as asked. *)
Definition dataio : DataIO := {|
  nb_segment := 1;
  nb_channel := 1;
  sample_rate := 1000;
  get_segment_length := λ _, 100;
  iter_over_chunk := λ _ _ _ _, [(100, replicate 100 [0%Q])];
  get_signals_chunk := λ _ i_start i_stop,
    replicate (Z.to_nat (i_stop - i_start)) [0%Q];
|}.

(** Engines that pass the chunks through and find no peak. *)
Definition quiet_engines : Engines := {|
  signalpreprocessor := unit;
  peakdetector := unit;
  sp_change_params := λ _ _ _, tt;
  sp_process_data := λ sp pos chunk, (sp, (pos, Some chunk));
  pd_change_params := λ _, tt;
  pd_process_data := λ pd pos chunk, (pd, (0, None));
|}.

Definition labelcodes : LabelCodes := {|
  LABEL_TRASH := -1;
  LABEL_UNCLASSIFIED := -10;
  LABEL_NOISE := -2;
|}.

Definition detector_params : PeakDetectorParams :=
  mkPeakDetectorParams "-" 7 (2 # 10000).

Definition engine_names : EngineNames := {|
  signalpreprocessor_engines := ["numpy"; "opencl"];
  peakdetector_engines := ["numpy"; "opencl"];
|}.

(** A palette of one colour. *)
Definition plain_palette : Palette := {|
  color_palette := λ _ n, Ok (replicate n (1%Q, 0%Q, 0%Q));
|}.

(** The float nearest to [x]. *)
Definition double (x : Q) : Q :=
  match round_to binary64 x with
  | float_of q => q
  | float_inf _ => 0%Q
  end.

Definition empty_info : Info := mkInfo None None None None None None.

(** A constructor holding [peaks] and, when given, a cluster table. *)
Definition constructor (peaks : list Peak) (tbl : option (list Cluster))
    (i : Info) : CatalogueConstructor unit :=
  mkCatalogueConstructor
    (match tbl with
     | Some tbl => <["clusters" := ClusterArray tbl]> {["all_peaks" := PeakArray peaks]}
     | None => {["all_peaks" := PeakArray peaks]}
     end)
    i None true 1024 detector_params.

(** A generator whose draws all fall on position [k] of the population. *)
Definition pick (k : nat) : RandomState := {|
  random_choice := λ call a size,
    if decide (a = 0)%nat then Raise ValueError
    else Ok (replicate size (k `min` (a - 1))%nat);
|}.

(** A projector whose transform keeps the first sample of each waveform. *)
Definition first_sample : ProjectorOps unit := {|
  transform := λ _ waveforms,
    match waveforms with
    | Some wfs => Ok ((λ wf, default [] (head wf)) <$> wfs)
    | None => Raise TypeError
    end;
|}.

Definition window_info (n_left n_right : Z) (processed_length : Z) : Info :=
  mkInfo (Some processed_length)
    (Some (mkWaveformExtractorParams n_left n_right 10000 false 20))
    (Some (mkSignalPreprocessorParams 128)) (Some 1024)
    (Some detector_params) (Some "float32").

Definition chunked_constructor (chunksize : Z) (i : Info)
  : CatalogueConstructor unit :=
  mkCatalogueConstructor ∅ i None false chunksize detector_params.

(** One segment of 13 raw samples, read as one chunk of 10. *)
Definition short_dataio : DataIO := {|
  nb_segment := 1;
  nb_channel := 1;
  sample_rate := 1000;
  get_segment_length := λ _, 13;
  iter_over_chunk := λ _ _ _ _, [(10, replicate 10 [1%Q])];
  get_signals_chunk := λ _ i_start i_stop,
    replicate (Z.to_nat (i_stop - i_start)) [0%Q];
|}.

(** A conditioning engine that drops the first 2 samples of a chunk. *)
Definition trim_engines : Engines := {|
  signalpreprocessor := unit;
  peakdetector := unit;
  sp_change_params := λ _ _ _, tt;
  sp_process_data := λ sp pos chunk, (sp, (pos - 2, Some (drop 2 chunk)));
  pd_change_params := λ _, tt;
  pd_process_data := λ pd pos chunk, (pd, (0, None));
|}.

Definition trim_info : Info :=
  mkInfo None None (Some (mkSignalPreprocessorParams 2)) (Some 10)
    (Some detector_params) (Some "float32").

(** An interpolant that is flat: only its shape matters here. *)
Definition flat_interpolation : Interpolation := {|
  interp1d_cubic := λ center0 xs,
    Ok ((λ _, (λ _, fin 0) <$> default [] (head center0)) <$> xs);
|}.

(** Three waveforms of 5 samples on one channel, all of cluster 0. *)
Definition three_waveforms : list (list (list Q)) :=
  [ [[0%Q]; [0%Q]; [0%Q]; [10%Q]; [0%Q]];
    [[0%Q]; [5%Q]; [0%Q]; [6%Q]; [0%Q]];
    [[0%Q]; [9%Q]; [0%Q]; [9%Q]; [0%Q]] ].

Definition three_peaks : list Peak :=
  [mkPeak 10 0 0; mkPeak 20 0 0; mkPeak 30 0 0].

Definition sampled_constructor : CatalogueConstructor unit :=
  mkCatalogueConstructor
    (<["some_waveforms" := FloatArray3 5 1 three_waveforms]>
       (<["some_peaks_index" := IntArray [0; 1; 2]]>
          (<["clusters" := ClusterArray (new_clusters three_peaks None)]>
             {["all_peaks" := PeakArray three_peaks]})))
    (window_info (-2) 3 100) None true 1024 detector_params.

Definition ok_or {A} (d : A) (r : result A) : A :=
  match r with
  | Ok a => a
  | Raise _ => d
  end.

(** The order of [np.argsort]: a [nan] sorts last. *)
Definition float_leb (x y : float64) : bool :=
  match x, y with
  | _, nan => true
  | nan, fin _ => false
  | fin a, fin b => Qle_bool a b
  end.

Definition key_le (x y : float64 * nat) : Prop :=
  float_leb (fst x) (fst y) = true.

#[global] Instance key_le_dec : RelDecision key_le :=
  λ x y, decide (float_leb (fst x) (fst y) = true).

Definition argsort_stable (l : list float64) : list nat :=
  snd <$> merge_sort key_le (zip l (seq 0 (length l))).

Definition numerics : Numerics := {|
  argsort := argsort_stable;
  centroid_stats := λ _ _, Ok (0, nan, nan);
|}.

(** Four peaks: one of cluster 0, two of cluster 1, one already trashed. *)
Definition four_peaks : list Peak :=
  [mkPeak 5 0 0; mkPeak 9 1 0; mkPeak 12 1 0; mkPeak 20 (-1) 0].

(** A previous table in which cluster 1 was tagged as cell 0. *)
Definition tagged_table : list Cluster :=
  [mkCluster 1 0 (-1) nan nan 2].

(** The table of [four_peaks] with the rms of the two clusters filled in,
    and both clusters tagged as cell 0. *)
Definition measured_table : list Cluster :=
  [mkCluster (-1) (-1) (-1) nan nan 1;
   mkCluster 0 0 0 (fin 3) (fin 1) 1;
   mkCluster 1 0 0 (fin 5) (fin 2) 2].

Definition measured : CatalogueConstructor unit :=
  constructor four_peaks (Some measured_table) empty_info.

Definition ordered : CatalogueConstructor unit :=
  ok_or measured (@order_clusters unit numerics "waveforms_rms" measured).

Definition redetected : CatalogueConstructor unit :=
  ok_or measured
    (@re_detect_peak unit dataio quiet_engines labelcodes engine_names
       "numpy" detector_params
       (constructor four_peaks (Some measured_table)
          (window_info (-2) 3 100))).

Definition noisy : CatalogueConstructor unit :=
  ok_or measured
    (@extract_some_noise unit dataio labelcodes (pick 45) 3
       (constructor four_peaks None (window_info (-2) 3 100))).

Definition sampled_catalogue : result Catalogue :=
  @make_catalogue unit flat_interpolation labelcodes plain_palette None
    sampled_constructor.

Definition empty_catalogue : Catalogue :=
  mkCatalogue 0 0 0 [] [] [] [] 0 [] ∅ [] ∅ (mkSignalPreprocessorParams 0)
    detector_params None None.

(** Two segments of 100 samples on one channel, read as two chunks of 50;
    the conditioned signal of segment [s] at sample [t] is [1000 s + t]. *)
Definition two_segments : DataIO := {|
  nb_segment := 2;
  nb_channel := 1;
  sample_rate := 1000;
  get_segment_length := λ _, 100;
  iter_over_chunk := λ _ _ _ _,
    [(50, replicate 50 [0%Q]); (100, replicate 50 [0%Q])];
  get_signals_chunk := λ seg i_start i_stop,
    (λ t, [inject_Z (seg * 1000 + t)]) <$> seqZ i_start (i_stop - i_start);
|}.

(** Engines that pass the chunks through and find two peaks in each. *)
Definition spiky_engines : Engines := {|
  signalpreprocessor := unit;
  peakdetector := unit;
  sp_change_params := λ _ _ _, tt;
  sp_process_data := λ sp pos chunk, (sp, (pos, Some chunk));
  pd_change_params := λ _, tt;
  pd_process_data := λ pd pos chunk, (pd, (2, Some [pos - 30; pos - 10]));
|}.

(** A resampler that returns its input. *)
Definition plain_resampler : Resampler := {|
  resample := λ wf num, Ok wf;
|}.

(** Six peaks in two segments. *)
Definition six_peaks : list Peak :=
  [mkPeak 10 0 0; mkPeak 20 1 0; mkPeak 30 0 0;
   mkPeak 7 1 1; mkPeak 15 0 1; mkPeak 40 2 1].

Definition six_constructor : CatalogueConstructor unit :=
  constructor six_peaks None (window_info (-1) 2 100).

(** A constructor with an empty peak table. *)
Definition fresh_constructor : CatalogueConstructor unit :=
  constructor [] None (window_info (-2) 3 100).

Definition detected : CatalogueConstructor unit :=
  ok_or fresh_constructor
    (@run_signalprocessor unit two_segments spiky_engines labelcodes
       1 true fresh_constructor).

Definition detected_again : CatalogueConstructor unit :=
  ok_or measured
    (@re_detect_peak unit two_segments spiky_engines labelcodes
       engine_names "numpy" detector_params
       (constructor four_peaks (Some measured_table)
          (window_info (-2) 3 100))).

Definition extracted (index : option (list Z)) : CatalogueConstructor unit :=
  ok_or six_constructor
    (@extract_some_waveforms unit two_segments (pick 0) first_sample
       plain_resampler None None index "rand" 10000 false 20
       six_constructor).

(** A spread that is high on the first and on the last of three samples. *)
Definition edge_tools : Tools := {|
  median_mad := λ waveforms,
    match waveforms with
    | Some _ =>
        Ok (dtype_float32, [[fin 0]; [fin 0]; [fin 0]],
            [[fin 2]; [fin 0]; [fin 2]])
    | None => Raise TypeError
    end;
|}.

(** Three peaks of which the last, the only one of cluster 1, is not
    sampled. *)
Definition unsampled_constructor : CatalogueConstructor unit :=
  mkCatalogueConstructor
    (<["some_waveforms" := FloatArray3 5 1 (take 2 three_waveforms)]>
       (<["some_peaks_index" := IntArray [0; 1]]>
          (<["clusters" :=
               ClusterArray
                 (new_clusters [mkPeak 10 0 0; mkPeak 20 0 0; mkPeak 30 1 0]
                    None)]>
             {["all_peaks" :=
                 PeakArray [mkPeak 10 0 0; mkPeak 20 0 0; mkPeak 30 1 0]]})))
    (window_info (-2) 3 100) None true 1024 detector_params.

(** Ten channels. *)
Definition ten_channels : DataIO := {|
  nb_segment := 1;
  nb_channel := 10;
  sample_rate := 1000;
  get_segment_length := λ _, 100;
  iter_over_chunk := λ _ _ _ _, [(100, replicate 100 (replicate 10 0%Q))];
  get_signals_chunk := λ _ i_start i_stop,
    replicate (Z.to_nat (i_stop - i_start)) (replicate 10 0%Q);
|}.

(** The spread [x] on the first of ten channels, none on the others. *)
Definition one_of_ten (x : Q) : list float64 := fin x :: replicate 9 (fin 0).

Definition run_mad : list (list float64) :=
  one_of_ten <$> [0%Q; 2%Q; 2%Q; 0%Q; 2%Q; 0%Q].

(** A spread that is high, on one channel of the ten, on samples 1, 2 and 4
    of six. *)
Definition run_tools : Tools := {|
  median_mad := λ waveforms,
    match waveforms with
    | Some _ => Ok (dtype_float32, replicate 6 (replicate 10 (fin 0)), run_mad)
    | None => Raise TypeError
    end;
|}.

(** A constructor with all the arrays downstream of peak detection. *)
Definition with_downstream (self : CatalogueConstructor unit)
  : CatalogueConstructor unit :=
  foldr (λ name self, add_array name (FloatArray2 [[1%Q]]) self) self
    _reset_after_peak_arrays.

(** A constructor after a first pass of the whole chain: peaks, clusters
    and the arrays downstream of peak detection. *)
Definition processed : CatalogueConstructor unit :=
  with_downstream
    (constructor four_peaks (Some measured_table) (window_info (-2) 3 100)).

(** The same with the peak table that [set_preprocessor_params] leaves. *)
Definition processed_fresh : CatalogueConstructor unit :=
  with_downstream
    (constructor [] (Some measured_table) (window_info (-2) 3 100)).

Definition processed_then_detected : CatalogueConstructor unit :=
  ok_or measured
    (@run_signalprocessor unit two_segments spiky_engines labelcodes
       1 true processed_fresh).

Definition processed_then_redetected : CatalogueConstructor unit :=
  ok_or measured
    (@re_detect_peak unit two_segments spiky_engines labelcodes
       engine_names "numpy" detector_params processed).

(** Noise sampled in two segments: three snippets are asked for. *)
Definition noisy_two : CatalogueConstructor unit :=
  ok_or measured
    (@extract_some_noise unit two_segments labelcodes (pick 45) 3
       (constructor six_peaks None (window_info (-2) 3 100))).

(** One segment of 5700 raw samples at 10 kHz. *)
Definition long_dataio : DataIO := {|
  nb_segment := 1;
  nb_channel := 1;
  sample_rate := 10000;
  get_segment_length := λ _, 5700;
  iter_over_chunk := λ _ _ _ _, [(100, replicate 100 [1%Q])];
  get_signals_chunk := λ _ i_start i_stop,
    replicate (Z.to_nat (i_stop - i_start)) [0%Q];
|}.

(** A spread that is low everywhere. *)
Definition flat_tools : Tools := {|
  median_mad := λ waveforms,
    match waveforms with
    | Some _ => Ok (dtype_float32, replicate 3 [fin 0], replicate 3 [fin 0])
    | None => Raise TypeError
    end;
|}.
End Examples.

(* ================================================================== *)
(* THEOREMS *)

(** ** Facts about the numpy helpers *)

Lemma np_unique_Permutation (l : list Z) : np_unique l ≡ₚ remove_dups l.
Proof. apply merge_sort_Permutation. Qed.

Lemma elem_of_np_unique (l : list Z) (x : Z) : x ∈ np_unique l ↔ x ∈ l.
Proof. by rewrite np_unique_Permutation, elem_of_remove_dups. Qed.

Lemma NoDup_np_unique (l : list Z) : NoDup (np_unique l).
Proof. rewrite np_unique_Permutation. apply NoDup_remove_dups. Qed.

Lemma np_unique_nil_inv (l : list Z) : np_unique l = [] → l = [].
Proof.
  intros H. destruct l as [|x l]; [done|].
  assert (x ∈ np_unique (x :: l)) as Hx by (apply elem_of_np_unique; left).
  rewrite H in Hx. by apply elem_of_nil in Hx.
Qed.

Lemma count_label_cons (k : Z) (p : Peak) (peaks : list Peak) :
  count_label k (p :: peaks)
  = (if decide (label p = k) then 1 else 0) + count_label k peaks.
Proof.
  unfold count_label. rewrite filter_cons.
  destruct (decide (label p = k)); simpl; lia.
Qed.

Lemma count_label_nonneg (k : Z) (peaks : list Peak) : 0 ≤ count_label k peaks.
Proof. unfold count_label. lia. Qed.

Lemma sum_list_Z_app (l1 l2 : list Z) :
  sum_list_Z (l1 ++ l2) = sum_list_Z l1 + sum_list_Z l2.
Proof. induction l1 as [|x l1 IH]; simpl; [done|]. rewrite IH. lia. Qed.

(** Over a duplicate-free list of keys, exactly one key matches a value that
    is in the list. *)
Lemma sum_indicator_NoDup (x : Z) (ks : list Z) :
  NoDup ks →
  sum_list_Z ((λ k, if decide (x = k) then 1 else 0) <$> ks)
  = if decide (x ∈ ks) then 1 else 0.
Proof.
  induction 1 as [|k ks Hk Hnd IH]; csimpl.
  - done.
  - rewrite IH.
    destruct (decide (x ∈ ks)) as [Hin|Hnin], (decide (x = k)) as [Heq|Hne];
      subst; try done.
    + rewrite decide_True by (by right). done.
    + rewrite decide_True by left. done.
    + rewrite decide_False; [done|]. by intros [?|?]%elem_of_cons.
Qed.

(** Summing the per-label counts over duplicate-free keys that cover the
    labels of the table counts every peak whose label is among the keys. *)
Lemma sum_count_label (ks : list Z) (peaks : list Peak) :
  NoDup ks →
  sum_list_Z ((λ k, count_label k peaks) <$> ks)
  = Z.of_nat (length (filter (λ p, label p ∈ ks) peaks)).
Proof.
  intros Hnd. induction peaks as [|p peaks IH].
  - rewrite filter_nil. clear Hnd.
    induction ks as [|k ks IHk]; [done|]. rewrite fmap_cons. simpl.
    rewrite IHk. done.
  - rewrite filter_cons.
    assert (sum_list_Z ((λ k, count_label k (p :: peaks)) <$> ks)
            = sum_list_Z ((λ k, if decide (label p = k) then 1 else 0) <$> ks)
              + sum_list_Z ((λ k, count_label k peaks) <$> ks)) as ->.
    { clear. induction ks as [|k ks IHk]; [done|].
      rewrite !fmap_cons. simpl. rewrite IHk, count_label_cons. lia. }
    rewrite IH, sum_indicator_NoDup by done.
    destruct (decide (label p ∈ ks)); simpl; lia.
Qed.

(** ** Rebuild of the cluster table *)

Lemma clusters_add_array {Projector} (self : CatalogueConstructor Projector)
    (tbl : list Cluster) :
  clusters (add_array "clusters" (ClusterArray tbl) self) = Some tbl.
Proof. unfold clusters, add_array; simpl. by rewrite lookup_insert_eq. Qed.

Lemma all_peaks_add_array_clusters {Projector}
    (self : CatalogueConstructor Projector) (a : ndarray) :
  all_peaks (add_array "clusters" a self) = all_peaks self.
Proof. unfold all_peaks, add_array; simpl. by rewrite lookup_insert_ne. Qed.

Lemma previous_cell_label_fields (prev : list Cluster) (c : Cluster) :
  cluster_label (previous_cell_label prev c) = cluster_label c
  ∧ nb_peak (previous_cell_label prev c) = nb_peak c.
Proof.
  unfold previous_cell_label.
  by destruct (list_find _ prev) as [[j r]|].
Qed.

Lemma new_clusters_cluster_label (peaks : list Peak) (prev : option (list Cluster)) :
  cluster_label <$> new_clusters peaks prev = np_unique (label <$> peaks).
Proof.
  unfold new_clusters. generalize (np_unique (label <$> peaks)) as ks.
  intros ks. destruct prev as [prev|]; rewrite <-?list_fmap_compose.
  - induction ks as [|k ks IH]; [done|]. rewrite fmap_cons, IH. simpl.
    by rewrite (proj1 (previous_cell_label_fields _ _)).
  - induction ks as [|k ks IH]; [done|]. by rewrite fmap_cons, IH.
Qed.

Lemma new_clusters_nb_peak (peaks : list Peak) (prev : option (list Cluster)) :
  nb_peak <$> new_clusters peaks prev
  = (λ k, count_label k peaks) <$> np_unique (label <$> peaks).
Proof.
  unfold new_clusters. generalize (np_unique (label <$> peaks)) as ks.
  intros ks. destruct prev as [prev|]; rewrite <-?list_fmap_compose.
  - induction ks as [|k ks IH]; [done|]. rewrite !fmap_cons, IH. simpl.
    by rewrite (proj2 (previous_cell_label_fields _ _)).
  - induction ks as [|k ks IH]; [done|]. by rewrite !fmap_cons, IH.
Qed.

(** Every row of the rebuilt table counts the peaks bearing its label. *)
Lemma new_clusters_row (peaks : list Peak) (prev : option (list Cluster))
    (c : Cluster) :
  c ∈ new_clusters peaks prev →
  nb_peak c = count_label (cluster_label c) peaks.
Proof.
  unfold new_clusters. intros Hc. destruct prev as [prev|].
  - apply list_elem_of_fmap in Hc as (c0 & -> & Hc0).
    apply list_elem_of_fmap in Hc0 as (k & -> & _).
    by destruct (previous_cell_label_fields prev
                   (mkCluster k k (-1) nan nan (count_label k peaks))) as [-> ->].
  - by apply list_elem_of_fmap in Hc as (k & -> & _).
Qed.

Lemma new_clusters_nonempty (peaks : list Peak) (prev : option (list Cluster)) :
  peaks ≠ [] → (0 < length (new_clusters peaks prev))%nat.
Proof.
  intros Hne.
  rewrite <-(length_fmap cluster_label), new_clusters_cluster_label.
  destruct (np_unique (label <$> peaks)) as [|k ks] eqn:E; simpl; [|lia].
  apply np_unique_nil_inv, fmap_nil_inv in E. done.
Qed.

Lemma on_new_cluster_nonempty {Projector} (self : CatalogueConstructor Projector)
    (peaks : list Peak) :
  all_peaks self = Some peaks → peaks ≠ [] →
  on_new_cluster self
  = add_array "clusters" (ClusterArray (new_clusters peaks (clusters self))) self.
Proof.
  intros Hp Hne. unfold on_new_cluster. rewrite Hp.
  by rewrite decide_True by by apply new_clusters_nonempty.
Qed.

(** Restricting rows and labels by the same test on the label. *)
Lemma filter_rows_by_label (P : Z → Prop) `{!∀ k, Decision (P k)}
    (tbl : list Cluster) :
  cluster_label <$> filter (λ c, P (cluster_label c)) tbl
  = filter P (cluster_label <$> tbl).
Proof.
  induction tbl as [|c tbl IH]; [done|].
  rewrite fmap_cons, !filter_cons.
  destruct (decide (P (cluster_label c))); by rewrite ?fmap_cons, IH.
Qed.

Lemma sum_nb_peak_filter (P : Z → Prop) `{!∀ k, Decision (P k)}
    (peaks : list Peak) (tbl : list Cluster) :
  (∀ c, c ∈ tbl → nb_peak c = count_label (cluster_label c) peaks) →
  sum_list_Z (nb_peak <$> filter (λ c, P (cluster_label c)) tbl)
  = sum_list_Z ((λ k, count_label k peaks)
                  <$> filter P (cluster_label <$> tbl)).
Proof.
  induction tbl as [|c tbl IH]; intros Hrow; [done|].
  rewrite fmap_cons, !filter_cons.
  assert (∀ c', c' ∈ tbl → nb_peak c' = count_label (cluster_label c') peaks)
    as Htl by (intros; apply Hrow; by right).
  destruct (decide (P (cluster_label c))).
  - rewrite !fmap_cons. simpl. rewrite IH by done.
    by rewrite (Hrow c) by left.
  - by apply IH.
Qed.

Lemma filter_peaks_by_label_in (P : Z → Prop) `{!∀ k, Decision (P k)}
    (peaks : list Peak) :
  filter (λ p, label p ∈ filter P (np_unique (label <$> peaks))) peaks
  = filter (λ p, P (label p)) peaks.
Proof.
  assert (∀ l : list Peak, (∀ p, p ∈ l → p ∈ peaks) →
    filter (λ p, label p ∈ filter P (np_unique (label <$> peaks))) l
    = filter (λ p, P (label p)) l) as Hgen; [|by apply Hgen].
  induction l as [|p l IH]; intros Hsub; [done|].
  rewrite !filter_cons, IH by (intros; apply Hsub; by right).
  assert (label p ∈ filter P (np_unique (label <$> peaks)) ↔ P (label p)) as Hiff.
  { rewrite list_elem_of_filter, elem_of_np_unique, list_elem_of_fmap.
    split; [tauto|]. intros HP. split; [done|]. exists p. split; [done|].
    apply Hsub. left. }
  destruct (decide (P (label p))), (decide (label p ∈ _)); tauto.
Qed.

(** C1 (as amended).  After a rebuild on a non-empty peak table the cluster
    table has one row per distinct peak label, reserved (negative) labels
    included: its labels are [np.unique] of the peak labels and its [nb_peak]
    column sums to the number of peaks.  Restricted to the rows with a
    non-negative label, the [nb_peak] column sums to the number of peaks with
    a non-negative label and the labels are the distinct non-negative peak
    labels. *)
Theorem on_new_cluster_counts {Projector} (self : CatalogueConstructor Projector)
    (peaks : list Peak) :
  all_peaks self = Some peaks → peaks ≠ [] →
  ∃ tbl, clusters (on_new_cluster self) = Some tbl
    ∧ cluster_label <$> tbl = np_unique (label <$> peaks)
    ∧ sum_list_Z (nb_peak <$> tbl) = Z.of_nat (length peaks)
    ∧ sum_list_Z (nb_peak <$> filter (λ c, 0 ≤ cluster_label c) tbl)
      = Z.of_nat (length (filter (λ p, 0 ≤ label p) peaks))
    ∧ ∀ k, k ∈ cluster_label <$> filter (λ c, 0 ≤ cluster_label c) tbl
           ↔ 0 ≤ k ∧ k ∈ label <$> peaks.
Proof.
  intros Hp Hne. exists (new_clusters peaks (clusters self)).
  rewrite (on_new_cluster_nonempty self peaks Hp Hne), clusters_add_array.
  set (tbl := new_clusters peaks (clusters self)).
  assert (∀ c, c ∈ tbl → nb_peak c = count_label (cluster_label c) peaks)
    as Hrow by apply new_clusters_row.
  assert (cluster_label <$> tbl = np_unique (label <$> peaks)) as Hlab
    by apply new_clusters_cluster_label.
  split_and!; try done.
  - unfold tbl. rewrite new_clusters_nb_peak, sum_count_label
      by apply NoDup_np_unique.
    f_equal. f_equal. clear.
    assert (∀ l : list Peak, (∀ p, p ∈ l → p ∈ peaks) →
      filter (λ p, label p ∈ np_unique (label <$> peaks)) l = l) as Hgen;
      [|by apply Hgen].
    induction l as [|p l IH]; intros Hsub; [done|].
    rewrite filter_cons_True, IH; [done| |].
    + intros; apply Hsub; by right.
    + apply elem_of_np_unique, list_elem_of_fmap. exists p. split; [done|].
      apply Hsub. left.
  - rewrite (sum_nb_peak_filter (λ k, 0 ≤ k) peaks tbl Hrow), Hlab.
    rewrite sum_count_label by apply NoDup_filter, NoDup_np_unique.
    by rewrite (filter_peaks_by_label_in (λ k, 0 ≤ k)).
  - intros k. rewrite (filter_rows_by_label (λ k, 0 ≤ k)), Hlab.
    by rewrite list_elem_of_filter, elem_of_np_unique.
Qed.

(** C4.  A rebuild on a non-empty peak table while a previous cluster table
    exists: the new table has one row per distinct peak label (its label
    column is [np.unique] of the peak labels); a new row whose
    [cluster_label] occurs in the previous table takes the [cell_label] of
    the (first) previous row with that label; a new row whose label is absent
    from the previous table has its own [cluster_label] as [cell_label]. *)
Theorem on_new_cluster_cell_label {Projector}
    (self : CatalogueConstructor Projector)
    (peaks : list Peak) (prev : list Cluster) :
  all_peaks self = Some peaks → clusters self = Some prev → peaks ≠ [] →
  ∃ tbl, clusters (on_new_cluster self) = Some tbl
    ∧ cluster_label <$> tbl = np_unique (label <$> peaks)
    ∧ ∀ c, c ∈ tbl →
        (∀ (j : nat) (r : Cluster),
            prev !! j = Some r → cluster_label r = cluster_label c →
            (∀ (i : nat) (r' : Cluster), prev !! i = Some r' → (i < j)%nat →
               cluster_label r' ≠ cluster_label c) →
            cell_label c = cell_label r)
        ∧ (cluster_label c ∉ cluster_label <$> prev →
           cell_label c = cluster_label c).
Proof.
  intros Hp Hprev Hne. exists (new_clusters peaks (Some prev)).
  rewrite (on_new_cluster_nonempty self peaks Hp Hne), clusters_add_array, Hprev.
  split; [done|]. split; [apply new_clusters_cluster_label|].
  intros c Hc. unfold new_clusters in Hc.
  apply list_elem_of_fmap in Hc as (c0 & -> & Hc0).
  apply list_elem_of_fmap in Hc0 as (k & -> & _).
  set (c0 := mkCluster k k (-1) nan nan (count_label k peaks)).
  destruct (previous_cell_label_fields prev c0) as [Hl _]. rewrite Hl.
  unfold previous_cell_label.
  destruct (list_find _ prev) as [[j0 r0]|] eqn:Hfind.
  - apply list_find_Some in Hfind as (Hj0 & Heq0 & Hmin). simpl in *. split.
    + intros j r Hj Heq Hfirst.
      destruct (Nat.lt_trichotomy j j0) as [Hlt|[->|Hgt]].
      * exfalso. by apply (Hmin j r Hj Hlt).
      * congruence.
      * exfalso. by apply (Hfirst j0 r0 Hj0 Hgt).
    + intros Hnin. exfalso. apply Hnin, list_elem_of_fmap. exists r0.
      split; [done|]. by eapply list_elem_of_lookup_2.
  - apply list_find_None in Hfind. split; [|done].
    intros j r Hj Heq _. exfalso.
    rewrite Forall_forall in Hfind. apply (Hfind r).
    + by eapply list_elem_of_lookup_2.
    + done.
Qed.

Lemma all_peaks_on_new_cluster {Projector}
    (self : CatalogueConstructor Projector) :
  all_peaks (on_new_cluster self) = all_peaks self.
Proof.
  unfold on_new_cluster. destruct (all_peaks self) as [peaks|] eqn:Hp; [|done].
  case_decide; [|done]. by rewrite all_peaks_add_array_clusters.
Qed.

(** ** Trashing the small clusters *)

Lemma trashed_refl (peaks : list Peak) : Forall2 trashed peaks peaks.
Proof.
  induction peaks as [|p peaks IH]; [constructor|].
  constructor; [|done]. unfold trashed. tauto.
Qed.

Lemma trashed_trans (l1 l2 l3 : list Peak) :
  Forall2 trashed l1 l2 → Forall2 trashed l2 l3 → Forall2 trashed l1 l3.
Proof.
  intros H12. revert l3. induction H12 as [|p1 p2 l1 l2 Hp H12 IH];
    intros l3 H23; inversion H23 as [|? p3 ? l3' Hp' H23']; subst;
    constructor; [|by apply IH].
  unfold trashed in *. destruct Hp as (? & ? & ?), Hp' as (? & ? & ?).
  split_and!; [congruence..|]. destruct_or!; [left|right|right|right]; congruence.
Qed.

Lemma trashed_relabel (k : Z) (peaks : list Peak) :
  Forall2 trashed peaks (relabel k (-1) peaks).
Proof.
  unfold relabel. induction peaks as [|p peaks IH]; [constructor|].
  rewrite fmap_cons. constructor; [|done].
  unfold trashed. case_decide; simpl; tauto.
Qed.

Lemma count_label_relabel_self (k v : Z) (peaks : list Peak) :
  v ≠ k → count_label k (relabel k v peaks) = 0.
Proof.
  intros Hv. unfold relabel.
  induction peaks as [|p peaks IH]; [done|].
  rewrite fmap_cons, count_label_cons, IH.
  destruct (decide (label p = k)); simpl; by rewrite decide_False.
Qed.

Lemma count_label_trashed (k : Z) (l1 l2 : list Peak) :
  k ≠ -1 → Forall2 trashed l1 l2 → count_label k l2 ≤ count_label k l1.
Proof.
  intros Hk. induction 1 as [|p p' l1 l2 (_ & _ & Hl) _ IH]; [done|].
  rewrite !count_label_cons.
  destruct (decide (label p = k)), (decide (label p' = k)); lia.
Qed.

Lemma count_label_zero (k : Z) (peaks : list Peak) (p : Peak) :
  count_label k peaks = 0 → p ∈ peaks → label p ≠ k.
Proof.
  unfold count_label. intros H0 Hp Hk.
  assert (p ∈ filter (λ p, label p = k) peaks) as Hin
    by by apply list_elem_of_filter.
  destruct (filter _ peaks); [by apply elem_of_nil in Hin|simpl in H0; lia].
Qed.

Section TrashSmallCluster.
Context {Projector : Type}.
Implicit Types self : CatalogueConstructor Projector.

Lemma all_peaks_write_array self (peaks : list Peak) :
  all_peaks (write_array "all_peaks" (PeakArray peaks) self) = Some peaks.
Proof. unfold all_peaks, write_array; simpl. by rewrite lookup_insert_eq. Qed.

Lemma clusters_write_array_all_peaks self (a : ndarray) :
  clusters (write_array "all_peaks" a self) = clusters self.
Proof. unfold clusters, write_array; simpl. by rewrite lookup_insert_ne. Qed.

Lemma trash_one_spec (n : Z) self (k : Z) (peaks : list Peak) :
  all_peaks self = Some peaks →
  ∃ self1 peaks1,
    trash_one n self k = Ok self1
    ∧ all_peaks self1 = Some peaks1
    ∧ clusters self1 = clusters self
    ∧ Forall2 trashed peaks peaks1
    ∧ (k ≠ -1 → count_label k peaks ≤ n → count_label k peaks1 = 0).
Proof.
  intros Hp. unfold trash_one. rewrite Hp. simpl.
  destruct (decide (count_label k peaks ≤ n)) as [Hle|Hgt].
  - eexists _, _. split; [done|].
    rewrite all_peaks_write_array, clusters_write_array_all_peaks.
    split_and!; try done; [apply trashed_relabel|].
    intros Hk _. apply count_label_relabel_self. congruence.
  - exists self, peaks. split_and!; try done. apply trashed_refl.
Qed.

Lemma trash_loop_spec (n : Z) (ks : list Z) self (peaks : list Peak) :
  all_peaks self = Some peaks →
  ∃ self' peaks',
    foldlM (trash_one n) ks self = Ok self'
    ∧ all_peaks self' = Some peaks'
    ∧ clusters self' = clusters self
    ∧ Forall2 trashed peaks peaks'
    ∧ ∀ k, k ∈ ks → k ≠ -1 → count_label k peaks ≤ n →
           count_label k peaks' = 0.
Proof.
  revert self peaks. induction ks as [|k0 ks IH]; intros self peaks Hp.
  - exists self, peaks. split_and!; try done; [apply trashed_refl|].
    intros k Hk. by apply elem_of_nil in Hk.
  - destruct (trash_one_spec n self k0 peaks Hp)
      as (self1 & peaks1 & Hrun & Hp1 & Hcl1 & Hrel1 & Hzero1).
    destruct (IH self1 peaks1 Hp1)
      as (self' & peaks' & Hrun' & Hp' & Hcl' & Hrel' & Hzero').
    exists self', peaks'. simpl. rewrite Hrun. simpl.
    split_and!; try done; [congruence|by eapply trashed_trans|].
    intros k Hk Hne Hle.
    pose proof (count_label_trashed k peaks peaks1 Hne Hrel1) as Hmono1.
    pose proof (count_label_trashed k peaks1 peaks' Hne Hrel') as Hmono'.
    pose proof (count_label_nonneg k peaks') as Hnn.
    apply elem_of_cons in Hk as [->|Hk].
    + specialize (Hzero1 Hne Hle). lia.
    + apply Hzero'; [done..|lia].
Qed.

(** C6 (as amended).  [trash_small_cluster(n)] completes whenever the peak
    table exists; for every cluster of the table whose label is not [-1]
    and whose [nb_peak] counts the peaks bearing its label and is at most
    [n], no peak bears that label afterwards, the peaks that bore it now
    have the label [-1] (index and segment unchanged), and the cluster table
    has been rebuilt from the resulting peaks.  The peaks labelled [-1] are
    left as they are, and every peak keeps its index and its segment, and
    its label unless it now has the label [-1]. *)
Theorem trash_small_cluster_spec (n : Z) self (peaks : list Peak)
    (tbl : list Cluster) :
  all_peaks self = Some peaks → clusters self = Some tbl → peaks ≠ [] →
  ∃ self' peaks',
    trash_small_cluster n self = Ok self'
    ∧ all_peaks self' = Some peaks'
    ∧ clusters self' = Some (new_clusters peaks' (Some tbl))
    ∧ (∀ c, c ∈ tbl → cluster_label c ≠ -1 →
           nb_peak c = count_label (cluster_label c) peaks → nb_peak c ≤ n →
           (∀ p', p' ∈ peaks' → label p' ≠ cluster_label c)
           ∧ (∀ (i : nat) (p : Peak),
                peaks !! i = Some p → label p = cluster_label c →
                peaks' !! i = Some (set_label (-1) p))
           ∧ cluster_label c ∉ cluster_labels self')
    ∧ (∀ (i : nat) (p : Peak),
         peaks !! i = Some p → label p = -1 → peaks' !! i = Some p)
    ∧ Forall2 trashed peaks peaks'.
Proof.
  intros Hp Htbl Hne.
  destruct (trash_loop_spec n (cluster_labels self) self peaks Hp)
    as (self1 & peaks' & Hrun & Hp' & Hcl & Hrel & Hzero).
  assert (peaks' ≠ []) as Hne'.
  { intros ->. apply Forall2_nil_inv_r in Hrel. done. }
  exists (on_new_cluster self1), peaks'.
  assert (clusters (on_new_cluster self1)
          = Some (new_clusters peaks' (Some tbl))) as Hnew.
  { rewrite (on_new_cluster_nonempty self1 peaks' Hp' Hne').
    by rewrite clusters_add_array, Hcl, Htbl. }
  unfold trash_small_cluster. rewrite Hrun. simpl.
  rewrite all_peaks_on_new_cluster.
  split_and!; try done.
  2:{ intros i p Hi Hl.
      destruct (Forall2_lookup_l _ _ _ _ _ Hrel Hi)
        as (p' & Hi' & Hi1 & Hi2 & Hi3).
      rewrite Hi'. f_equal. destruct p as [pi pl ps], p' as [pi' pl' ps'].
      simpl in *. f_equal; [done| |done]. destruct Hi3; congruence. }
  intros c Hc Hc1 Hnb Hle.
  assert (count_label (cluster_label c) peaks' = 0) as H0.
  { apply Hzero; [|done|lia].
    unfold cluster_labels. rewrite Htbl. apply list_elem_of_fmap. eauto. }
  split_and!.
  - intros p' Hin. by eapply count_label_zero.
  - intros i p Hi Hl.
    destruct (Forall2_lookup_l _ _ _ _ _ Hrel Hi) as (p' & Hi' & Hi1 & Hi2 & Hi3).
    rewrite Hi'. f_equal.
    assert (label p' ≠ cluster_label c) as Hnk.
    { eapply count_label_zero; [done|]. by eapply list_elem_of_lookup_2. }
    destruct p as [pi pl ps], p' as [pi' pl' ps']. unfold set_label.
    simpl in *. f_equal; [done| |done]. destruct Hi3; congruence.
  - unfold cluster_labels. rewrite Hnew, new_clusters_cluster_label.
    rewrite elem_of_np_unique, list_elem_of_fmap.
    intros (p' & Heq & Hin). by eapply (count_label_zero _ _ p' H0).
Qed.
End TrashSmallCluster.

(** ** Reordering the clusters *)

Lemma wrap64_small (z : Z) : - 2 ^ 63 ≤ z < 2 ^ 63 → wrap64 z = z.
Proof. intros Hz. unfold wrap64. rewrite Z.mod_small; lia. Qed.

Lemma omap_lookup_seq {A} (pre a : list A) :
  omap (λ i, (pre ++ a) !! i) (seq (length pre) (length a)) = a.
Proof.
  revert pre. induction a as [|x a IH]; intros pre; [done|].
  simpl. rewrite list_lookup_middle by done. f_equal.
  specialize (IH (pre ++ [x])).
  replace (length (pre ++ [x])) with (S (length pre)) in IH
    by (rewrite length_app; simpl; lia).
  replace ((pre ++ [x]) ++ a) with (pre ++ x :: a) in IH
    by (by rewrite <-app_assoc).
  exact IH.
Qed.

Lemma np_reorder_Permutation {A} (a : list A) (order : list nat) :
  order ≡ₚ seq 0 (length a) → np_reorder a order ≡ₚ a.
Proof.
  intros Hperm. unfold np_reorder. rewrite Hperm.
  pose proof (omap_lookup_seq [] a) as Hseq. simpl in Hseq. by rewrite Hseq.
Qed.

Lemma foldl_max_spec (l : list Z) (x : Z) :
  (foldl Z.max x l = x ∨ foldl Z.max x l ∈ l)
  ∧ x ≤ foldl Z.max x l ∧ ∀ y, y ∈ l → y ≤ foldl Z.max x l.
Proof.
  revert x. induction l as [|y l IH]; intros x; simpl.
  - split_and!; [by left|lia|]. intros y Hy. by apply elem_of_nil in Hy.
  - destruct (IH (x `max` y)) as (Hin & Hle & Hall). split_and!.
    + destruct Hin as [Heq|Hin]; [|right; by right].
      rewrite Heq. destruct (Z.max_spec x y) as [[_ ->]|[_ ->]];
        [right; left|by left].
    + lia.
    + intros z [->|Hz]%elem_of_cons; [lia|by apply Hall].
Qed.

Lemma py_max_spec (l : list Z) (m : Z) :
  py_max l = Ok m → m ∈ l ∧ ∀ y, y ∈ l → y ≤ m.
Proof.
  destruct l as [|x l]; [done|]. simpl. intros [= <-].
  destruct (foldl_max_spec l x) as (Hin & Hle & Hall). split.
  - destruct Hin as [->|Hin]; [left|by right].
  - intros y [->|Hy]%elem_of_cons; [done|by apply Hall].
Qed.

(** Duplicate-free values of [0..m] are at most [m + 1]. *)
Lemma NoDup_bounded_length (l : list Z) (m : Z) :
  0 ≤ m → NoDup l → (∀ x, x ∈ l → 0 ≤ x ≤ m) → Z.of_nat (length l) ≤ m + 1.
Proof.
  intros Hm Hnd Hb.
  assert (l ⊆+ seqZ 0 (m + 1)) as Hsub.
  { apply NoDup_submseteq; [done|]. intros x Hx. apply elem_of_seqZ.
    specialize (Hb x Hx). lia. }
  apply submseteq_length in Hsub. rewrite length_seqZ in Hsub. lia.
Qed.

Lemma remap_value_cons (new old : Z) (olds : list (Z * Z)) (v : Z) :
  remap_value ((new, old) :: olds) v
  = remap_value olds (if decide (v = old) then new else v).
Proof. done. Qed.

Lemma remap_value_notin (olds : list (Z * Z)) (v : Z) :
  v ∉ snd <$> olds → remap_value olds v = v.
Proof.
  induction olds as [|[new old] olds IH]; [done|]. rewrite fmap_cons.
  intros Hnin. apply not_elem_of_cons in Hnin as [Hne Hnin]. simpl in Hne.
  rewrite remap_value_cons, decide_False by done. by apply IH.
Qed.

Lemma remap_value_hit (pre post : list (Z * Z)) (new old : Z) :
  old ∉ snd <$> pre → new ∉ snd <$> post →
  remap_value (pre ++ (new, old) :: post) old = new.
Proof.
  intros Hpre Hpost. unfold remap_value. rewrite foldl_app.
  fold (remap_value pre old). rewrite (remap_value_notin pre old Hpre).
  simpl. rewrite decide_True by done.
  by apply (remap_value_notin post new).
Qed.

Lemma set_label_fields (v : Z) (p : Peak) :
  label (set_label v p) = v ∧ index (set_label v p) = index p
  ∧ segment (set_label v p) = segment p.
Proof. done. Qed.

Lemma set_label_same (p : Peak) : set_label (label p) p = p.
Proof. by destruct p. Qed.

Lemma relabel_loop_fmap (olds : list (Z * Z)) (peaks : list Peak) :
  foldl (λ ps no, relabel (snd no) (fst no) ps) peaks olds
  = (λ p, set_label (remap_value olds (label p)) p) <$> peaks.
Proof.
  revert peaks. induction olds as [|[new old] olds IH]; intros peaks.
  - simpl. rewrite <-(list_fmap_id peaks) at 1.
    apply list_fmap_ext. intros _ p _. by rewrite set_label_same.
  - cbn [foldl]. rewrite IH. unfold relabel. rewrite <-list_fmap_compose.
    apply list_fmap_ext. intros _ p _. rewrite remap_value_cons.
    unfold compose. cbn [fst snd]. by destruct (decide (label p = old)).
Qed.

Lemma count_label_fmap_inj (f : Z → Z) (k : Z) (peaks : list Peak) :
  (∀ p, p ∈ peaks → f (label p) = f k → label p = k) →
  count_label (f k) ((λ p, set_label (f (label p)) p) <$> peaks)
  = count_label k peaks.
Proof.
  induction peaks as [|p peaks IH]; intros Hinj; [done|].
  rewrite fmap_cons, !count_label_cons, IH
    by (intros; apply Hinj; [by right|done]).
  simpl. destruct (decide (label p = k)) as [->|Hne].
  - by rewrite decide_True.
  - rewrite decide_False; [done|]. intros Heq. apply Hne, Hinj; [left|done].
Qed.

Section NewLabel.
Variables (sorted_labels : list Z) (m : Z).
Hypothesis Hnodup : NoDup sorted_labels.
Hypothesis Hnonneg : ∀ s, s ∈ sorted_labels → 0 ≤ s.
Hypothesis Hmax : py_max sorted_labels = Ok m.
Hypothesis Hbound : m < 2 ^ 59.

Let N := wrap64 (m * 10).
Let olds := imap (λ new s, (Z.of_nat new, wrap64 (s + N))) sorted_labels.

Local Lemma max_in : m ∈ sorted_labels ∧ 0 ≤ m.
Proof.
  destruct (py_max_spec _ _ Hmax) as [Hin _]. split; [done|]. by apply Hnonneg.
Qed.

Local Lemma offset_value : N = m * 10.
Proof. destruct max_in. unfold N. apply wrap64_small. lia. Qed.

Local Lemma sorted_range (s : Z) : s ∈ sorted_labels → 0 ≤ s ≤ m.
Proof.
  intros Hs. destruct (py_max_spec _ _ Hmax) as [_ Hle].
  split; [by apply Hnonneg|by apply Hle].
Qed.

Local Lemma sorted_length : Z.of_nat (length sorted_labels) ≤ m + 1.
Proof.
  destruct max_in. apply NoDup_bounded_length; [done..|apply sorted_range].
Qed.

Local Lemma olds_lookup (j : nat) (new old : Z) :
  olds !! j = Some (new, old) ↔
  new = Z.of_nat j ∧ ∃ s, sorted_labels !! j = Some s ∧ old = s + N.
Proof.
  unfold olds. rewrite list_lookup_imap.
  destruct (sorted_labels !! j) as [s|] eqn:Hj; simpl.
  - assert (wrap64 (s + N) = s + N) as ->.
    { apply list_elem_of_lookup_2, sorted_range in Hj.
      destruct max_in. rewrite offset_value. apply wrap64_small. lia. }
    split.
    + intros [= <- <-]. eauto.
    + intros (-> & s' & [= <-] & ->). done.
  - split; [done|]. by intros (_ & s & ? & _).
Qed.

Local Lemma olds_elem (old : Z) :
  old ∈ snd <$> olds ↔ ∃ s, s ∈ sorted_labels ∧ old = s + N.
Proof.
  rewrite list_elem_of_fmap. split.
  - intros ([new old'] & -> & Hin).
    apply list_elem_of_lookup_1 in Hin as [j Hj].
    apply olds_lookup in Hj as (_ & s & Hs & ->).
    exists s. split; [by eapply list_elem_of_lookup_2|done].
  - intros (s & Hs & ->). apply list_elem_of_lookup_1 in Hs as [j Hj].
    exists (Z.of_nat j, s + N). split; [done|].
    apply (list_elem_of_lookup_2 _ j), olds_lookup. eauto.
Qed.

(** Reserved labels are left alone. *)
Lemma new_label_negative (l : Z) :
  l < 0 → new_label N sorted_labels l = l.
Proof.
  intros Hl. unfold new_label. rewrite decide_False by lia.
  apply remap_value_notin. fold olds. rewrite olds_elem.
  intros (s & Hs & ->). apply sorted_range in Hs. destruct max_in.
  rewrite offset_value in Hl. lia.
Qed.

(** The label at position [p] of the sorted labels becomes [p]. *)
Lemma new_label_sorted (p : nat) (s : Z) :
  sorted_labels !! p = Some s → new_label N sorted_labels s = Z.of_nat p.
Proof.
  intros Hp. pose proof (list_elem_of_lookup_2 _ _ _ Hp) as Hs.
  apply sorted_range in Hs. destruct max_in as [_ Hm0].
  unfold new_label. rewrite decide_True by lia. fold olds.
  assert (wrap64 (s + N) = s + N) as ->.
  { rewrite offset_value. apply wrap64_small. lia. }
  assert (olds !! p = Some (Z.of_nat p, s + N)) as Hop
    by (apply olds_lookup; eauto).
  rewrite <-(take_drop_middle olds p _ Hop). apply remap_value_hit.
  - rewrite list_elem_of_fmap. intros ([new old] & Heq & Hin). simpl in Heq.
    apply elem_of_take in Hin as (j & Hj & Hlt).
    apply olds_lookup in Hj as (_ & s' & Hs' & ->).
    assert (s' = s) as -> by lia.
    pose proof (NoDup_lookup _ _ _ _ Hnodup Hs' Hp). lia.
  - rewrite list_elem_of_fmap. intros ([new old] & Heq & Hin). simpl in Heq.
    apply list_elem_of_lookup_1 in Hin as [j Hj]. rewrite lookup_drop in Hj.
    apply olds_lookup in Hj as (_ & s' & Hs' & ->).
    pose proof (lookup_lt_Some _ _ _ Hs') as Hlen.
    pose proof (list_elem_of_lookup_2 _ _ _ Hs') as Hr.
    apply sorted_range in Hr. pose proof sorted_length.
    rewrite offset_value in Heq. lia.
Qed.

(** Only the label at position [p] becomes [p]: the remap is one-to-one on
    the clusters of the table. *)
Lemma new_label_inv (l : Z) (p : nat) (s : Z) :
  l < 2 ^ 59 → sorted_labels !! p = Some s →
  new_label N sorted_labels l = Z.of_nat p → l = s.
Proof.
  intros Hl Hp Hnew. destruct max_in as [Hmin Hm0].
  destruct (decide (l < 0)) as [Hneg|Hpos].
  { rewrite new_label_negative in Hnew by done. lia. }
  destruct (decide (l ∈ sorted_labels)) as [Hin|Hnin].
  - apply list_elem_of_lookup_1 in Hin as [q Hq].
    rewrite (new_label_sorted q l Hq) in Hnew.
    assert (q = p) as -> by lia. congruence.
  - exfalso. unfold new_label in Hnew. rewrite decide_True in Hnew by lia.
    fold olds in Hnew.
    assert (wrap64 (l + N) = l + N) as Hw.
    { rewrite offset_value. apply wrap64_small. lia. }
    rewrite Hw, remap_value_notin in Hnew.
    + pose proof (lookup_lt_Some _ _ _ Hp). pose proof sorted_length.
      rewrite offset_value in Hnew.
      assert (l = m) as -> by lia. done.
    + rewrite olds_elem. intros (s' & Hs' & Heq).
      assert (l = s') as -> by lia. done.
Qed.
End NewLabel.

Lemma keeps_cells_id : keeps_cells id.
Proof. by split. Qed.

Lemma keeps_cells_compose (g1 g2 : Cluster → Cluster) :
  keeps_cells g1 → keeps_cells g2 → keeps_cells (g2 ∘ g1).
Proof.
  intros [Hk1 Hc1] [Hk2 Hc2]. split.
  - intros c. simpl. destruct (Hk1 c), (Hk2 (g1 c)). split; congruence.
  - intros a b Hab. simpl. by apply Hc2, Hc1.
Qed.

Lemma cell_step_fmap (rows : list Cluster) (i : nat) :
  ∃ g, cell_step rows i = g <$> rows ∧ keeps_cells g.
Proof.
  unfold cell_step.
  assert (∃ g, rows = g <$> rows ∧ keeps_cells g) as Hid.
  { exists id. split; [by rewrite list_fmap_id|apply keeps_cells_id]. }
  destruct (rows !! i) as [ci|]; [|done].
  destruct (list_find _ rows) as [[first c0]|]; [|done].
  case_decide; [|done].
  eexists. split; [done|]. split.
  - intros c. by case_decide.
  - intros a b Hab. rewrite Hab. by case_decide.
Qed.

Lemma cell_loop_fmap (steps : list nat) (rows : list Cluster) :
  ∃ g, foldl cell_step rows steps = g <$> rows ∧ keeps_cells g.
Proof.
  revert rows. induction steps as [|i steps IH]; intros rows.
  - exists id. split; [by rewrite list_fmap_id|apply keeps_cells_id].
  - destruct (cell_step_fmap rows i) as (g1 & Hg1 & Hk1).
    destruct (IH (cell_step rows i)) as (g2 & Hg2 & Hk2).
    exists (g2 ∘ g1). split; [|by apply keeps_cells_compose].
    simpl. by rewrite Hg2, Hg1, <-list_fmap_compose.
Qed.

(** The rows of the non-negative clusters after the reordering: row [p] is
    the old row at position [p] of the sorted order, with [p] as label, the
    same count, and a cell label that only depends on the old cell label. *)
Lemma reorder_rows_spec (N : Z) (pos_clusters : list Cluster)
    (order : list nat) :
  ∃ g, keeps_cells g ∧
    ∀ (p : nat) (a' : Cluster),
      reorder_rows N pos_clusters order !! p = Some a' ↔
      ∃ a, np_reorder pos_clusters order !! p = Some a
           ∧ a' = g (set_cell_label (wrap64 (cell_label a + N))
                       (set_cluster_label (Z.of_nat p) a)).
Proof.
  unfold reorder_rows. set (rows := np_reorder pos_clusters order).
  destruct (cell_loop_fmap (seq 0 (length rows))
              ((λ c, set_cell_label (wrap64 (cell_label c + N)) c)
                 <$> imap (λ i c, set_cluster_label (Z.of_nat i) c) rows))
    as (g & Hg & Hk).
  exists g. split; [done|]. intros p a'.
  rewrite Hg, !list_lookup_fmap, list_lookup_imap.
  destruct (rows !! p) as [a|]; simpl.
  - split; [intros [= <-]; eauto|]. by intros (a0 & [= <-] & ->).
  - split; [done|]. by intros (a0 & ? & _).
Qed.

Lemma same_keys_refl (cl : list Cluster) : Forall2 same_keys cl cl.
Proof. induction cl; constructor; [by unfold same_keys|done]. Qed.

Lemma same_keys_trans (l1 l2 l3 : list Cluster) :
  Forall2 same_keys l1 l2 → Forall2 same_keys l2 l3 → Forall2 same_keys l1 l3.
Proof.
  intros H12. revert l3. induction H12 as [|c1 c2 l1 l2 Hc H12 IH];
    intros l3 H23; inversion H23 as [|? c3 ? l3' Hc' H23']; subst;
    constructor; [|by apply IH].
  unfold same_keys in *. destruct Hc as (? & ? & ?), Hc' as (? & ? & ?).
  split_and!; congruence.
Qed.

Lemma same_keys_insert (cl : list Cluster) (ind : nat) (c : Cluster)
    (chan : Z) (amp rms : float64) :
  cl !! ind = Some c →
  Forall2 same_keys cl (<[ind := set_centroid_fields chan amp rms c]> cl).
Proof.
  revert ind. induction cl as [|c0 cl IH]; intros [|ind] Hc; try done.
  - simpl in Hc. injection Hc as ->. constructor; [done|apply same_keys_refl].
  - simpl. constructor; [done|by apply IH].
Qed.

Lemma same_keys_fmap (cl cl0 : list Cluster) :
  Forall2 same_keys cl cl0 →
  cluster_label <$> cl0 = cluster_label <$> cl
  ∧ nb_peak <$> cl0 = nb_peak <$> cl.
Proof.
  induction 1 as [|c c0 cl cl0 (Hl & _ & Hn) _ [IHl IHn]]; [done|].
  rewrite !fmap_cons. split; congruence.
Qed.

Section ComputeCentroid.
Context {Projector : Type} `{!Numerics}.
Implicit Types self : CatalogueConstructor Projector.

Lemma centroid_inv_refl self : centroid_inv self self.
Proof. split; [done|]. intros cl Hcl. eauto using same_keys_refl. Qed.

Lemma centroid_inv_trans self1 self2 self3 :
  centroid_inv self1 self2 → centroid_inv self2 self3 →
  centroid_inv self1 self3.
Proof.
  intros [Hp12 Hc12] [Hp23 Hc23]. split; [congruence|].
  intros cl Hcl. destruct (Hc12 cl Hcl) as (cl2 & Hcl2 & H12).
  destruct (Hc23 cl2 Hcl2) as (cl3 & Hcl3 & H23).
  eauto using same_keys_trans.
Qed.

Lemma centroid_one_inv (wfs : list (list (list Q))) (n_left : Z)
    self (k : Z) self' :
  centroid_one wfs n_left self k = Ok self' → centroid_inv self self'.
Proof.
  unfold centroid_one. case_decide.
  { intros [= <-]. apply centroid_inv_refl. }
  destruct (sample_labels self) as [labels|]; [simpl|done].
  destruct (np_mask_select _ wfs) as [wf|]; [simpl|done].
  destruct (centroid_stats wf n_left) as [[[chan amp] rms]|]; [simpl|done].
  destruct (clusters self) as [cl|] eqn:Hcl; [simpl|done].
  destruct (list_find _ cl) as [[ind c]|] eqn:Hfind; [|done].
  intros [= <-]. apply list_find_Some in Hfind as (Hind & _ & _). split.
  - unfold all_peaks, write_array; simpl. by rewrite lookup_insert_ne.
  - intros cl0 Hcl0. rewrite Hcl in Hcl0. injection Hcl0 as <-.
    eexists. split.
    + unfold clusters, write_array; simpl. by rewrite lookup_insert_eq.
    + by apply same_keys_insert.
Qed.

Lemma centroid_loop_inv (wfs : list (list (list Q))) (n_left : Z)
    (ks : list Z) self self' :
  foldlM (centroid_one wfs n_left) ks self = Ok self' →
  centroid_inv self self'.
Proof.
  revert self. induction ks as [|k ks IH]; intros self; simpl.
  - intros [= <-]. apply centroid_inv_refl.
  - destruct (centroid_one wfs n_left self k) as [self1|] eqn:H1; [|done].
    simpl. intros Hrest. eapply centroid_inv_trans; [|by apply IH].
    by eapply centroid_one_inv.
Qed.

Lemma compute_centroid_inv self self' :
  compute_centroid self = Ok self' → centroid_inv self self'.
Proof.
  unfold compute_centroid.
  assert (centroid_inv self (set_has_centroids true self)) as H0.
  { split; [done|]. intros cl Hcl. eauto using same_keys_refl. }
  destruct (attrs (set_has_centroids true self) !! "some_waveforms")
    as [[| | | | |w c wfs]|]; try (intros [= <-]; done).
  destruct (getitem _ _) as [wfp|]; [simpl|done].
  intros Hloop. eapply centroid_inv_trans; [done|].
  by eapply centroid_loop_inv.
Qed.
End ComputeCentroid.

Section OrderClusters.
Context {Projector : Type} `{!Numerics}.
Implicit Types self : CatalogueConstructor Projector.

Lemma order_permutation (by_ : string) (pos_clusters : list Cluster)
    (order : list nat) :
  (∀ l, argsort l ≡ₚ seq 0 (length l)) →
  (if decide (by_ = "waveforms_rms")
   then Ok (reverse (argsort (waveform_rms <$> pos_clusters)))
   else if decide (by_ = "max_peak_amplitude")
   then Ok (reverse (argsort
              ((λ c, fabs (max_peak_amplitude c)) <$> pos_clusters)))
   else Raise NotImplementedError) = Ok order →
  order ≡ₚ seq 0 (length pos_clusters).
Proof.
  intros Hsort Hord. repeat case_decide; try done;
    injection Hord as <-; by rewrite reverse_Permutation, Hsort, length_fmap.
Qed.

Lemma offset_then_remap (N : Z) (sorted_labels : list Z) (peaks : list Peak) :
  remap_labels N sorted_labels
    ((λ p, if decide (0 ≤ label p)
           then set_label (wrap64 (label p + N)) p else p) <$> peaks)
  = (λ p, set_label (new_label N sorted_labels (label p)) p) <$> peaks.
Proof.
  unfold remap_labels. rewrite relabel_loop_fmap, <-list_fmap_compose.
  apply list_fmap_ext. intros _ p _. unfold compose, new_label.
  by destruct (decide (0 ≤ label p)).
Qed.

(** C5.  Whenever [order_clusters] completes on a table with distinct
    cluster labels (labels below [2^59], so that the offset phase stays
    within [int64]): every peak is relabelled by one function [f] of its
    label, [f] leaves the negative (reserved) labels alone, and for every
    non-negative cluster [a] of the table exactly the peaks that bore its
    label bear its new label [f (cluster_label a)], which is the label of a
    row with the same [nb_peak]; the [nb_peak] column of the table is
    permuted; and the new rows of two non-negative clusters that shared a
    [cell_label] share a [cell_label]. *)
Theorem order_clusters_invariants (by_ : string) self self'
    (peaks : list Peak) (cl : list Cluster) :
  (∀ l, argsort l ≡ₚ seq 0 (length l)) →
  all_peaks self = Some peaks → clusters self = Some cl →
  NoDup (cluster_label <$> cl) →
  Forall (λ c, cluster_label c < 2 ^ 59) cl →
  Forall (λ p, label p < 2 ^ 59) peaks →
  order_clusters by_ self = Ok self' →
  ∃ (f : Z → Z) (peaks' : list Peak) (cl' : list Cluster),
    all_peaks self' = Some peaks' ∧ clusters self' = Some cl'
    ∧ peaks' = (λ p, set_label (f (label p)) p) <$> peaks
    ∧ (∀ l, l < 0 → f l = l)
    ∧ nb_peak <$> cl' ≡ₚ nb_peak <$> cl
    ∧ (∀ a, a ∈ cl → 0 ≤ cluster_label a →
         0 ≤ f (cluster_label a)
         ∧ (∀ p, p ∈ peaks → f (label p) = f (cluster_label a) →
                 label p = cluster_label a)
         ∧ count_label (f (cluster_label a)) peaks'
           = count_label (cluster_label a) peaks
         ∧ ∃ a', a' ∈ cl' ∧ cluster_label a' = f (cluster_label a)
                 ∧ nb_peak a' = nb_peak a)
    ∧ (∀ a b a' b',
         a ∈ cl → b ∈ cl → 0 ≤ cluster_label a → 0 ≤ cluster_label b →
         a' ∈ cl' → b' ∈ cl' →
         cluster_label a' = f (cluster_label a) →
         cluster_label b' = f (cluster_label b) →
         cell_label a = cell_label b → cell_label a' = cell_label b').
Proof.
  intros Hsort Hp Hcl Hnd Hbc Hbp Hrun. unfold order_clusters in Hrun.
  destruct (if has_centroids self then Ok self else compute_centroid self)
    as [self0|] eqn:H0; [simpl in Hrun|done].
  assert (centroid_inv self self0) as [Hp0 Hc0].
  { destruct (has_centroids self).
    - injection H0 as <-. split; [done|]. eauto using same_keys_refl.
    - by apply compute_centroid_inv. }
  destruct (Hc0 cl Hcl) as (cl0 & Hcl0 & Hkeys). clear H0 Hc0.
  rewrite Hcl0 in Hrun. simpl in Hrun.
  destruct (same_keys_fmap cl cl0 Hkeys) as [Hlab0 Hnb0].
  set (neg0 := filter (λ c, cluster_label c < 0) cl0) in *.
  set (pos0 := filter (λ c, 0 ≤ cluster_label c) cl0) in *.
  match type of Hrun with
  | context [mbind _ ?o] => destruct o as [order|] eqn:Hord
  end; [simpl in Hrun|done].
  apply (order_permutation by_ pos0 order Hsort) in Hord.
  set (rows := np_reorder pos0 order) in *.
  set (sorted := cluster_label <$> rows) in *.
  destruct (py_max sorted) as [m|] eqn:Hmax; [simpl in Hrun|done].
  rewrite Hp0, Hp in Hrun. simpl in Hrun. injection Hrun as <-.
  set (N := wrap64 (m * 10)).
  rewrite offset_then_remap. set (f := new_label N sorted).
  (* the sorted labels *)
  assert (rows ≡ₚ pos0) as Hrows by by apply np_reorder_Permutation.
  assert (cluster_label <$> pos0 = filter (λ k, 0 ≤ k) (cluster_label <$> cl))
    as Hpos_lab by (rewrite <-Hlab0; apply (filter_rows_by_label (λ k, 0 ≤ k))).
  assert (NoDup sorted) as Hnds.
  { unfold sorted. rewrite Hrows, Hpos_lab. by apply NoDup_filter. }
  assert (∀ s, s ∈ sorted → 0 ≤ s ∧ s < 2 ^ 59) as Hrange.
  { intros s. unfold sorted. rewrite Hrows, Hpos_lab, list_elem_of_filter.
    intros [Hs (c & -> & Hc)%list_elem_of_fmap]. split; [done|].
    rewrite Forall_forall in Hbc. by apply Hbc. }
  assert (m < 2 ^ 59) as Hm.
  { apply py_max_spec in Hmax as [Hin _]. by apply Hrange. }
  assert (∀ s, s ∈ sorted → 0 ≤ s) as Hnn by (intros; by apply Hrange).
  (* every old non-negative row sits at some position of the sorted order *)
  assert (∀ a, a ∈ cl → 0 ≤ cluster_label a →
            ∃ (p : nat) a0, rows !! p = Some a0 ∧ same_keys a a0
                            ∧ f (cluster_label a) = Z.of_nat p) as Hposn.
  { intros a Ha Hanon. apply list_elem_of_lookup_1 in Ha as [i Hi].
    destruct (Forall2_lookup_l _ _ _ _ _ Hkeys Hi) as (a0 & Hi0 & Hk0).
    assert (a0 ∈ rows) as Hin.
    { rewrite Hrows. apply list_elem_of_filter. destruct Hk0 as (-> & _).
      split; [done|]. by eapply list_elem_of_lookup_2. }
    apply list_elem_of_lookup_1 in Hin as [p Hp1].
    exists p, a0. split_and!; [done..|].
    destruct Hk0 as (<- & _). apply (new_label_sorted sorted m); try done.
    unfold sorted. by rewrite list_lookup_fmap, Hp1. }
  destruct (reorder_rows_spec N pos0 order) as (g & [Hgk Hgc] & Hrow').
  fold rows in Hrow'. set (rows' := reorder_rows N pos0 order) in *.
  exists f, ((λ p, set_label (f (label p)) p) <$> peaks), (neg0 ++ rows').
  split_and!.
  - unfold all_peaks, write_array; simpl.
    by rewrite lookup_insert_ne, lookup_insert_eq.
  - unfold clusters, write_array; simpl. by rewrite lookup_insert_eq.
  - done.
  - intros l Hl. by apply (new_label_negative sorted m).
  - rewrite <-Hnb0, fmap_app.
    assert (nb_peak <$> rows' = nb_peak <$> rows) as ->.
    { apply list_eq. intros p. rewrite !list_lookup_fmap.
      destruct (rows' !! p) as [a'|] eqn:Ha'.
      - apply Hrow' in Ha' as (a & -> & ->). simpl.
        by destruct (Hgk (set_cell_label (wrap64 (cell_label a + N))
                            (set_cluster_label (Z.of_nat p) a))) as [_ ->].
      - destruct (rows !! p) as [a|] eqn:Ha; [|done]. exfalso.
        assert (is_Some (rows' !! p)) as [? Hsome]
          by (eexists; apply Hrow'; eauto).
        congruence. }
    rewrite Hrows, <-fmap_app. apply fmap_Permutation.
    etrans; [|apply (filter_app_complement (λ c, cluster_label c < 0) cl0)].
    apply Permutation_app; [done|]. unfold pos0.
    erewrite list_filter_iff; [done|]. intros c. simpl. lia.
  - intros a Ha Hanon. destruct (Hposn a Ha Hanon) as (p & a0 & Hp1 & Hk0 & Hf).
    assert (sorted !! p = Some (cluster_label a)) as Hsp.
    { unfold sorted. rewrite list_lookup_fmap, Hp1. simpl.
      by destruct Hk0 as (-> & _). }
    assert (∀ pk, pk ∈ peaks → f (label pk) = f (cluster_label a) →
                   label pk = cluster_label a) as Hinj.
    { intros pk Hpk Heq. rewrite Hf in Heq.
      apply (new_label_inv sorted m Hnds Hnn Hmax Hm _ p); try done.
      rewrite Forall_forall in Hbp. by apply Hbp. }
    split_and!.
    + rewrite Hf. lia.
    + done.
    + by apply count_label_fmap_inj.
    + assert (is_Some (rows' !! p)) as [a' Ha']
        by (eexists; apply Hrow'; eauto).
      exists a'. split; [apply elem_of_app; right;
                         by eapply list_elem_of_lookup_2|].
      apply Hrow' in Ha' as (a1 & Ha1 & ->). rewrite Hp1 in Ha1.
      injection Ha1 as <-.
      destruct (Hgk (set_cell_label (wrap64 (cell_label a0 + N))
                       (set_cluster_label (Z.of_nat p) a0))) as [-> ->].
      simpl. destruct Hk0 as (_ & _ & ->). by rewrite Hf.
  - intros a b a' b' Ha Hb Hanon Hbnon Ha' Hb' Hla Hlb Hcell.
    assert (∀ c c', c ∈ cl → 0 ≤ cluster_label c → c' ∈ neg0 ++ rows' →
              cluster_label c' = f (cluster_label c) →
              ∃ c0, same_keys c c0
                    ∧ cell_label c'
                      = cell_label (g (set_cell_label
                                         (wrap64 (cell_label c0 + N)) c0)))
      as Hrow.
    { intros c c' Hc Hcnon Hc' Hlc.
      destruct (Hposn c Hc Hcnon) as (p & c0 & Hp1 & Hk0 & Hf).
      apply elem_of_app in Hc' as [Hneg|Hpos'].
      { apply list_elem_of_filter in Hneg as [Hneg _]. lia. }
      apply list_elem_of_lookup_1 in Hpos' as [q Hq].
      apply Hrow' in Hq as (c1 & Hq & ->).
      destruct (Hgk (set_cell_label (wrap64 (cell_label c1 + N))
                       (set_cluster_label (Z.of_nat q) c1))) as [Hl1 _].
      rewrite Hl1 in Hlc. simpl in Hlc.
      assert (q = p) as -> by lia. rewrite Hp1 in Hq. injection Hq as <-.
      exists c0. split; [done|]. by apply Hgc. }
    destruct (Hrow a a' Ha Hanon Ha' Hla) as (a0 & (_ & Hca & _) & ->).
    destruct (Hrow b b' Hb Hbnon Hb' Hlb) as (b0 & (_ & Hcb & _) & ->).
    apply Hgc. simpl. congruence.
Qed.
(** [order_clusters] completes once the centroids exist, the ordering key is
    one of the two supported ones, and the table has a non-negative
    cluster. *)
Lemma order_clusters_completes (by_ : string) self
    (peaks : list Peak) (cl : list Cluster) (c : Cluster) :
  (∀ l, argsort l ≡ₚ seq 0 (length l)) →
  has_centroids self = true →
  all_peaks self = Some peaks → clusters self = Some cl →
  c ∈ cl → 0 ≤ cluster_label c →
  by_ = "waveforms_rms" ∨ by_ = "max_peak_amplitude" →
  ∃ self', order_clusters by_ self = Ok self'.
Proof.
  intros Hsort Hcen Hp Hcl Hc Hnon Hby. unfold order_clusters.
  rewrite Hcen. simpl. rewrite Hcl. simpl.
  set (pos0 := filter (λ c, 0 ≤ cluster_label c) cl).
  assert (∃ order,
    (if decide (by_ = "waveforms_rms")
     then Ok (reverse (argsort (waveform_rms <$> pos0)))
     else if decide (by_ = "max_peak_amplitude")
     then Ok (reverse (argsort
                ((λ c, fabs (max_peak_amplitude c)) <$> pos0)))
     else Raise NotImplementedError) = Ok order) as [order Hord].
  { destruct Hby as [-> | ->]; repeat case_decide; try done; eauto. }
  rewrite Hord. simpl.
  pose proof (order_permutation by_ pos0 order Hsort Hord) as Hperm.
  apply np_reorder_Permutation in Hperm.
  destruct (cluster_label <$> np_reorder pos0 order) as [|s sorted] eqn:Hs.
  { exfalso. apply fmap_nil_inv in Hs. rewrite Hs in Hperm.
    apply Permutation_nil_l in Hperm.
    assert (c ∈ pos0) as Hin by by apply list_elem_of_filter.
    rewrite <-Hperm in Hin. by apply elem_of_nil in Hin. }
  simpl. rewrite Hp. simpl. eauto.
Qed.
End OrderClusters.

(** ** Reset of the stages downstream of peak detection *)

Lemma foldlM_inv {A B} (R : B → B → Prop) (f : B → A → result B)
    (l : list A) (b b' : B) :
  (∀ b, R b b) → (∀ b1 b2 b3, R b1 b2 → R b2 b3 → R b1 b3) →
  (∀ b x b', f b x = Ok b' → R b b') →
  foldlM f l b = Ok b' → R b b'.
Proof.
  intros Hrefl Htrans Hstep. revert b.
  induction l as [|x l IH]; intros b; simpl.
  - intros [= <-]. apply Hrefl.
  - destruct (f b x) as [b1|] eqn:H1; [simpl|done].
    intros Hrest. eapply Htrans; [by eapply Hstep|by apply IH].
Qed.

Section Reset.
Context {Projector : Type} `{!DataIO, !Engines, !LabelCodes, !EngineNames}.
Implicit Types self : CatalogueConstructor Projector.

Lemma setattr_None_loop_lookup (names : list string) self (name : string) :
  attrs (foldl (λ self name, setattr_None name self) self names) !! name
  = if decide (name ∈ names) then None else attrs self !! name.
Proof.
  revert self. induction names as [|n names IH]; intros self.
  - cbn [foldl]. by rewrite decide_False by apply not_elem_of_nil.
  - cbn [foldl]. rewrite IH. unfold setattr_None. simpl.
    destruct (decide (name ∈ names)) as [Hin|Hnin].
    + by rewrite decide_True by by right.
    + destruct (decide (name = n)) as [->|Hne].
      * rewrite decide_True by left. by rewrite lookup_delete_eq.
      * rewrite lookup_delete_ne by done.
        rewrite decide_False; [done|]. by intros [?|?]%elem_of_cons.
Qed.

Lemma reset_lookup self (name : string) :
  attrs (_reset_waveform_and_features self) !! name
  = if decide (name ∈ _reset_after_peak_arrays) then None
    else attrs self !! name.
Proof. apply setattr_None_loop_lookup. Qed.

Lemma on_new_cluster_lookup self (name : string) :
  name ≠ "clusters" →
  attrs (on_new_cluster self) !! name = attrs self !! name.
Proof.
  intros Hne. unfold on_new_cluster.
  destruct (all_peaks self); [|done]. case_decide; [|done].
  unfold add_array; simpl. by rewrite lookup_insert_ne.
Qed.

Lemma same_except_peaks_refl self : same_except_peaks self self.
Proof. by intros name _. Qed.

Lemma same_except_peaks_trans self1 self2 self3 :
  same_except_peaks self1 self2 → same_except_peaks self2 self3 →
  same_except_peaks self1 self3.
Proof. intros H12 H23 name Hne. by rewrite H23, H12. Qed.

Lemma append_chunk_same (peaks : list Peak) self self' :
  append_chunk "all_peaks" peaks self = Ok self' →
  same_except_peaks self self'.
Proof.
  unfold append_chunk.
  destruct (attrs self !! "all_peaks") as [[a| | | | |]|]; try done.
  intros [= <-] name Hne. simpl. by rewrite lookup_insert_ne.
Qed.

Lemma signalprocessor_one_chunk_same (seg_num : Z) (detect_peak : bool)
    (st st' : CatalogueConstructor Projector * signalpreprocessor * peakdetector)
    (pos_chunk : Z * list (list Q)) :
  signalprocessor_one_chunk seg_num detect_peak st pos_chunk = Ok st' →
  same_except_peaks (fst (fst st)) (fst (fst st')).
Proof.
  destruct st as [[self sp] pd]. unfold signalprocessor_one_chunk.
  destruct (sp_process_data sp _ _) as [sp' [pos2 [pre|]]];
    [|intros [= <-]; apply same_except_peaks_refl].
  destruct detect_peak; [|intros [= <-]; apply same_except_peaks_refl].
  destruct (pd_process_data pd pos2 pre) as [pd' [n [chunk_peaks|]]];
    [|intros [= <-]; apply same_except_peaks_refl].
  destruct (append_chunk _ _ self) as [self1|] eqn:Happ; [simpl|done].
  intros [= <-]. simpl. by eapply append_chunk_same.
Qed.

Lemma run_one_segment_same (duration : Q) (detect_peak : bool) self
    (seg_num : nat) self' :
  run_signalprocessor_loop_one_segment duration detect_peak self seg_num
  = Ok self' →
  same_except_peaks self self'.
Proof.
  unfold run_signalprocessor_loop_one_segment.
  destruct (py_int _) as [requested|]; [simpl|done]. case_decide; [done|].
  match goal with
  | |- context [foldlM ?f ?l ?b] => destruct (foldlM f l b) as [st|] eqn:Hloop
  end; [simpl|done].
  intros [= <-].
  apply (foldlM_inv (λ st st', same_except_peaks (fst (fst st)) (fst (fst st'))))
    in Hloop; [done|..].
  - intros ?. apply same_except_peaks_refl.
  - intros ???. apply same_except_peaks_trans.
  - intros ???. apply signalprocessor_one_chunk_same.
Qed.

Lemma re_detect_one_segment_same (cs : Z) self (seg_num : nat) self' :
  re_detect_one_segment cs self seg_num = Ok self' →
  same_except_peaks self self'.
Proof.
  unfold re_detect_one_segment.
  match goal with
  | |- context [foldlM ?f ?l ?b] => destruct (foldlM f l b) as [st|] eqn:Hloop
  end; [simpl|done].
  intros [= <-].
  apply (foldlM_inv (λ st st', same_except_peaks (fst st) (fst st')))
    in Hloop; [done|..].
  - intros ?. apply same_except_peaks_refl.
  - intros ???. apply same_except_peaks_trans.
  - intros [s1 pd1] pc [s2 pd2]. unfold re_detect_one_chunk.
    destruct (pd_process_data pd1 _ _) as [pd' [n [chunk_peaks|]]];
      [|intros [= <- _]; apply same_except_peaks_refl].
    destruct (append_chunk _ _ s1) as [s1'|] eqn:Happ; [simpl|done].
    intros [= <- _]. simpl. by eapply append_chunk_same.
Qed.

(** What the common tail of [run_signalprocessor] and [re_detect_peak] (the
    reset, then the rebuild) leaves behind. *)
Lemma reset_then_rebuild self0 self1 :
  same_except_peaks self0 self1 →
  let self' := on_new_cluster (_reset_waveform_and_features self1) in
  (∀ name, name ∈ _reset_after_peak_arrays → attrs self' !! name = None)
  ∧ all_peaks self' = all_peaks self1
  ∧ (∀ peaks, all_peaks self' = Some peaks → peaks ≠ [] →
       clusters self' = Some (new_clusters peaks (clusters self0)))
  ∧ (all_peaks self' = Some [] → clusters self' = clusters self0).
Proof.
  intros Hsame self'.
  assert (all_peaks (_reset_waveform_and_features self1) = all_peaks self1)
    as Hp by (unfold all_peaks; by rewrite reset_lookup).
  assert (clusters (_reset_waveform_and_features self1) = clusters self0)
    as Hc by (unfold clusters; by rewrite reset_lookup, Hsame).
  assert (all_peaks self' = all_peaks self1) as Hp'
    by (unfold self'; by rewrite all_peaks_on_new_cluster).
  split_and!; [|done|..].
  - intros name Hin. unfold self'. rewrite on_new_cluster_lookup.
    + by rewrite reset_lookup, decide_True.
    + intros ->. revert Hin. by apply (bool_decide_unpack _); vm_compute.
  - intros peaks Hpk Hne. rewrite Hp', <-Hp in Hpk. unfold self'.
    by rewrite (on_new_cluster_nonempty _ peaks Hpk Hne), clusters_add_array, Hc.
  - intros Hpk. rewrite Hp', <-Hp in Hpk. unfold self', on_new_cluster.
    rewrite Hpk. rewrite decide_False; [done|].
    destruct (clusters (_reset_waveform_and_features self1));
      vm_compute; lia.
Qed.
End Reset.

Lemma foldlM_total {A B} (P : B → Prop) (f : B → A → result B)
    (l : list A) (b : B) :
  P b → (∀ b x, P b → ∃ b', f b x = Ok b' ∧ P b') →
  ∃ b', foldlM f l b = Ok b' ∧ P b'.
Proof.
  intros Hb Hstep. revert b Hb.
  induction l as [|x l IH]; intros b Hb; simpl; [eauto|].
  destruct (Hstep b x Hb) as (b1 & -> & Hb1). simpl. by apply IH.
Qed.

Section PeakDetection.
Context {Projector : Type} `{!DataIO, !Engines, !LabelCodes, !EngineNames}.
Implicit Types self : CatalogueConstructor Projector.

(** C9 (as amended).  After [run_signalprocessor], and after
    [re_detect_peak], the eleven arrays downstream of peak detection are
    absent; when the peak table is not empty the cluster table has been
    rebuilt from it, and when no peak was detected the cluster table is the
    one from before the call. *)
Theorem reset_after_peak_detection (duration : Q) (detect_peak : bool)
    (peakdetector_engine : string) (params : PeakDetectorParams) self self' :
  run_signalprocessor duration detect_peak self = Ok self'
  ∨ re_detect_peak peakdetector_engine params self = Ok self' →
  (attrs self' !! "some_peaks_index" = None
   ∧ attrs self' !! "some_waveforms" = None
   ∧ attrs self' !! "some_features" = None
   ∧ attrs self' !! "channel_to_features" = None
   ∧ attrs self' !! "some_noise_index" = None
   ∧ attrs self' !! "some_noise_snippet" = None
   ∧ attrs self' !! "some_noise_features" = None
   ∧ attrs self' !! "spike_waveforms_similarity" = None
   ∧ attrs self' !! "cluster_similarity" = None
   ∧ attrs self' !! "cluster_ratio_similarity" = None
   ∧ attrs self' !! "spike_silhouette" = None)
  ∧ (∀ peaks, all_peaks self' = Some peaks → peaks ≠ [] →
       clusters self' = Some (new_clusters peaks (clusters self)))
  ∧ (all_peaks self' = Some [] → clusters self' = clusters self).
Proof.
  intros Hrun.
  assert (∃ self1, same_except_peaks self self1
            ∧ self' = on_new_cluster (_reset_waveform_and_features self1))
    as (self1 & Hsame & ->).
  { destruct Hrun as [Hrun|Hrun].
    - unfold run_signalprocessor in Hrun.
      match type of Hrun with
      | context [foldlM ?f ?l ?b] =>
          destruct (foldlM f l b) as [self1|] eqn:Hloop
      end; [simpl in Hrun|done].
      unfold finalize_signalprocessor_loop, finalize_array in Hrun.
      destruct (attrs self1 !! "all_peaks"); [simpl in Hrun|done].
      injection Hrun as <-. exists self1. split; [|done].
      apply (foldlM_inv same_except_peaks) in Hloop; [done|..].
      + apply same_except_peaks_refl.
      + apply same_except_peaks_trans.
      + intros ???. apply run_one_segment_same.
    - unfold re_detect_peak in Hrun.
      destruct (lookup_name _ _) as [[]|]; [simpl in Hrun|done].
      destruct (getitem "chunksize" _) as [cs|]; [simpl in Hrun|done].
      destruct (getitem "internal_dtype" _) as [dtype|]; [simpl in Hrun|done].
      match type of Hrun with
      | context [foldlM ?f ?l ?b] =>
          destruct (foldlM f l b) as [self1|] eqn:Hloop
      end; [simpl in Hrun|done].
      unfold finalize_array in Hrun.
      destruct (attrs self1 !! "all_peaks"); [simpl in Hrun|done].
      injection Hrun as <-. exists self1. split; [|done].
      apply (foldlM_inv same_except_peaks) in Hloop.
      + intros name Hne. rewrite (Hloop name Hne). simpl.
        by rewrite lookup_insert_ne.
      + apply same_except_peaks_refl.
      + apply same_except_peaks_trans.
      + intros ???. apply re_detect_one_segment_same. }
  destruct (reset_then_rebuild self self1 Hsame) as (Hnone & _ & Hne & Hnil).
  split_and!; try done;
    apply Hnone; by apply (bool_decide_unpack _); vm_compute.
Qed.

Lemma append_chunk_ready (peaks : list Peak) self :
  peaks_ready self →
  ∃ self', append_chunk "all_peaks" peaks self = Ok self' ∧ peaks_ready self'.
Proof.
  intros [a Ha]. unfold append_chunk. rewrite Ha. eexists. split; [done|].
  eexists. simpl. by rewrite lookup_insert_eq.
Qed.

(** [re_detect_peak] completes as soon as the engine is a registered one
    and the chunk size and the sample type were recorded. *)
Lemma re_detect_peak_completes (peakdetector_engine : string)
    (params : PeakDetectorParams) self (cs : Z) (dtype : string) :
  peakdetector_engine ∈ peakdetector_engines →
  info_chunksize (info self) = Some cs →
  internal_dtype (info self) = Some dtype →
  ∃ self', re_detect_peak peakdetector_engine params self = Ok self'.
Proof.
  intros Hengine Hcs Hdt. unfold re_detect_peak, lookup_name.
  rewrite decide_True by done. simpl. rewrite Hcs, Hdt. simpl.
  match goal with
  | |- context [foldlM ?f ?l ?b] =>
      destruct (foldlM_total peaks_ready f l b) as (self1 & -> & [a Ha])
  end.
  - eexists. unfold initialize_array. simpl. by rewrite lookup_insert_eq.
  - intros s seg_num Hs. unfold re_detect_one_segment.
    match goal with
    | |- context [foldlM ?f ?l ?b] =>
        destruct (foldlM_total (λ st, peaks_ready (fst st)) f l b)
          as (st1 & -> & Hst1)
    end; [done| |simpl; eauto].
    intros [s1 pd1] pc Hs1. unfold re_detect_one_chunk.
    destruct (pd_process_data pd1 _ _) as [pd' [n [chunk_peaks|]]];
      [|eauto].
    destruct (append_chunk_ready (new_peaks (Z.of_nat seg_num) chunk_peaks)
                s1 Hs1) as (s2 & -> & Hs2).
    simpl. eauto.
  - simpl. unfold finalize_array. rewrite Ha. simpl. eauto.
Qed.

(** [run_signalprocessor] completes on a non-zero chunk size once the peak
    table was initialised, when the number of samples asked for is finite. *)
Lemma run_signalprocessor_completes (duration : Q) (detect_peak : bool) self
    (requested : Z) :
  py_int (float_mul duration sample_rate) = Ok requested →
  chunksize self ≠ 0 → peaks_ready self →
  ∃ self', run_signalprocessor duration detect_peak self = Ok self'.
Proof.
  intros Hrequested Hcs Hready. unfold run_signalprocessor.
  match goal with
  | |- context [foldlM ?f ?l ?b] =>
      destruct (foldlM_total (λ s, chunksize s ≠ 0 ∧ peaks_ready s) f l b)
        as (self1 & -> & _ & [a Ha])
  end; [done| |].
  - intros s seg_num [Hs0 Hs]. unfold run_signalprocessor_loop_one_segment.
    rewrite Hrequested. simpl. rewrite decide_False by done.
    match goal with
    | |- context [foldlM ?f ?l ?b] =>
        destruct (foldlM_total
                    (λ st, chunksize (fst (fst st)) ≠ 0
                           ∧ peaks_ready (fst (fst st))) f l b)
          as (st1 & -> & Hst1)
    end; [done| |simpl; eauto].
    intros [[s1 sp1] pd1] pc [Hs10 Hs1]. unfold signalprocessor_one_chunk.
    destruct (sp_process_data sp1 _ _) as [sp' [pos2 [pre|]]]; [|eauto].
    destruct detect_peak; [|eauto].
    destruct (pd_process_data pd1 pos2 pre) as [pd' [n [chunk_peaks|]]];
      [|eauto].
    destruct (append_chunk_ready (new_peaks (Z.of_nat seg_num) chunk_peaks)
                s1 Hs1) as (s2 & Happ & Hs2).
    rewrite Happ. simpl. eexists. split; [done|]. simpl. split; [|done].
    unfold append_chunk in Happ.
    destruct (attrs s1 !! "all_peaks") as [[?| | | | |]|]; try done.
    by injection Happ as <-.
  - simpl. unfold finalize_signalprocessor_loop, finalize_array.
    rewrite Ha. simpl. eauto.
Qed.
End PeakDetection.

(** ** Feature projector adapter *)

Section ApplyProjection.
Context {Projector : Type} `{!ProjectorOps Projector}.
Implicit Types self : CatalogueConstructor Projector.

(** C3.  [apply_projection] never completes: without a fitted projector the
    assertion fails, and with one the transform is computed and then the
    unbound name [some_features] is read, a [NameError], before anything is
    persisted. *)
Theorem apply_projection_raises self :
  apply_projection self
  = match projector self with
    | None => Raise (AssertionError "")
    | Some p =>
        match transform p (some_waveforms self) with
        | Ok _ => Raise (NameError "some_features")
        | Raise e => Raise e
        end
    end.
Proof.
  unfold apply_projection. destruct (projector self) as [p|]; [|done].
  by destruct (transform p (some_waveforms self)).
Qed.

Lemma apply_projection_never_ok self self' : apply_projection self ≠ Ok self'.
Proof.
  unfold apply_projection. destruct (projector self) as [p|]; [|done].
  by destruct (transform p (some_waveforms self)).
Qed.
End ApplyProjection.

(** ** Noise sampler *)

(** The eligibility mask does not depend on the peaks of the segment. *)
Lemma possibles_mask_ignores_peaks (length peak_width n_left n_right : Z)
    (peaks : list Peak) :
  possibles_mask length peak_width n_left n_right peaks
  = possibles_mask length peak_width n_left n_right [].
Proof.
  unfold possibles_mask. simpl.
  generalize (slice_assign (slice_bound length (- peak_width)) length false
                (slice_assign 0 (slice_bound length peak_width) false
                   (replicate (Z.to_nat length) true))) as possibles.
  induction peaks as [|peak peaks IH]; intros possibles; [done|]. apply IH.
Qed.

(** C2.  With one segment of 100 samples, the window [n_left = -2],
    [n_right = 3] and one peak at sample 50, a draw that falls on position 45
    of the eligible samples makes [extract_some_noise] persist a noise record
    at sample 50: its window is the window of the peak. *)
Theorem extract_some_noise_overlaps_peak :
  let self := Examples.constructor [mkPeak 50 0 0] None
                (Examples.window_info (-2) 3 100) in
  ∃ self' noise peak,
    @extract_some_noise unit Examples.dataio Examples.labelcodes
      (Examples.pick 45) 1 self = Ok self'
    ∧ some_noise_index self' = Some [noise]
    ∧ all_peaks self' = Some [peak]
    ∧ segment noise = segment peak
    ∧ ¬ windows_disjoint (-2) 5 (index noise) (index peak).
Proof.
  eexists _, _, _. split_and!; [by vm_compute|by vm_compute..|].
  unfold windows_disjoint. simpl. lia.
Qed.

Lemma concat_blocks_lookup {A} (P : nat → A → Prop) (n : nat) (k s : nat)
    (blocks : list (list A)) :
  Forall2 (λ seg b, length b = n ∧ Forall (P seg) b) (seq s k) blocks →
  length (concat blocks) = (k * n)%nat
  ∧ ∀ (i : nat) (x : A), concat blocks !! i = Some x → P (s + i `div` n)%nat x.
Proof.
  revert s blocks. induction k as [|k IH]; intros s blocks Hall.
  - apply Forall2_nil_inv_l in Hall as ->. split; [done|]. by intros i x.
  - simpl in Hall. apply Forall2_cons_inv_l in Hall
      as (b & bs & [Hlen Hb] & Hbs & ->).
    destruct (IH (S s) bs Hbs) as [IHlen IHlook]. simpl. split.
    + rewrite length_app, IHlen, Hlen. lia.
    + intros i x Hi. destruct (decide (i < n)%nat) as [Hlt|Hge].
      * rewrite lookup_app_l in Hi by lia.
        rewrite Nat.div_small, Nat.add_0_r by done.
        rewrite Forall_forall in Hb. apply Hb. by eapply list_elem_of_lookup_2.
      * rewrite lookup_app_r in Hi by lia. rewrite Hlen in Hi.
        assert (0 < n)%nat as Hn.
        { destruct n; [|lia]. exfalso.
          apply lookup_lt_Some in Hi. rewrite IHlen in Hi. lia. }
        apply IHlook in Hi.
        replace (s + i `div` n)%nat with (S s + (i - n) `div` n)%nat; [done|].
        replace i with ((i - n) + 1 * n)%nat at 2 by lia.
        rewrite Nat.div_add by lia. lia.
Qed.

Section NoiseCount.
Context {Projector : Type} `{!DataIO, !LabelCodes, !RandomState}.
Implicit Types self : CatalogueConstructor Projector.

Lemma noise_index_one_segment_spec (n_left n_right n_by_seg : Z) self
    (seg_num : nat) (block : list Peak) :
  noise_index_one_segment n_left n_right n_by_seg self seg_num = Ok block →
  Z.of_nat (length block) = n_by_seg
  ∧ Forall (λ p, label p = LABEL_NOISE ∧ segment p = Z.of_nat seg_num) block.
Proof.
  unfold noise_index_one_segment.
  destruct (getitem _ _) as [len|]; [simpl|done].
  case_decide; [done|].
  destruct (subscriptable _) as [peaks|]; [simpl|done].
  case_decide; [done|].
  destruct (random_choice _ _ _) as [choice|]; [simpl|done].
  destruct (np_take _ _) as [idx|]; [simpl|done].
  case_decide as Hlen; [|done]. intros [= <-]. split.
  - by rewrite length_fmap.
  - apply Forall_fmap, Forall_forall. by intros i _.
Qed.

Lemma noise_index_loop_spec (n_left n_right n_by_seg : Z) self
    (segs : list nat) (acc out : list Peak) :
  foldlM (λ acc seg_num,
            noise_index ←
              noise_index_one_segment n_left n_right n_by_seg self seg_num;
            Ok (acc ++ noise_index)) segs acc = Ok out →
  ∃ blocks,
    out = acc ++ concat blocks
    ∧ Forall2 (λ seg b,
                 Z.of_nat (length b) = n_by_seg
                 ∧ Forall (λ p, label p = LABEL_NOISE
                                ∧ segment p = Z.of_nat seg) b) segs blocks.
Proof.
  revert acc. induction segs as [|seg segs IH]; intros acc; simpl.
  - intros [= <-]. exists []. split; [by rewrite app_nil_r|constructor].
  - destruct (noise_index_one_segment _ _ _ _ seg) as [block|] eqn:Hb;
      [simpl|done].
    intros (blocks & -> & Hall)%IH.
    apply noise_index_one_segment_spec in Hb as [Hlen Hb].
    exists (block :: blocks). split; [by rewrite <-app_assoc|].
    by constructor.
Qed.

Lemma noise_snippet_loop_length (n_left peak_width : Z) (idx : list Peak)
    (acc out : list (list (list Q))) :
  foldlM (noise_snippet_one n_left peak_width) idx acc = Ok out →
  length out = (length acc + length idx)%nat.
Proof.
  revert acc. induction idx as [|ind idx IH]; intros acc; simpl.
  - intros [= <-]. lia.
  - destruct (noise_snippet_one n_left peak_width acc ind) as [acc1|]
      eqn:Hone; [simpl|done].
    intros ->%IH. unfold noise_snippet_one in Hone.
    destruct (broadcast_rows _ _ _) as [snippet|]; [simpl in Hone|done].
    injection Hone as <-. rewrite length_app. simpl. lia.
Qed.

(** C10.  Whenever [extract_some_noise(nb_snippet)] completes (which needs
    at least one segment), it has persisted
    [(nb_snippet // nb_segment) * nb_segment] noise records and as many
    snippets, fewer than [nb_snippet] when the number of segments does not
    divide it; the [i]-th record carries the noise label and the segment
    number [i // (nb_snippet // nb_segment)]. *)
Theorem extract_some_noise_count (nb_snippet : Z) self self' :
  extract_some_noise nb_snippet self = Ok self' →
  let n_by_seg := nb_snippet `div` Z.of_nat nb_segment in
  (1 ≤ nb_segment)%nat ∧
  ∃ (idx : list Peak) (snippets : list (list (list Q))),
    some_noise_index self' = Some idx
    ∧ some_noise_snippet self' = Some snippets
    ∧ Z.of_nat (length idx) = n_by_seg * Z.of_nat nb_segment
    ∧ length snippets = length idx
    ∧ (nb_snippet `mod` Z.of_nat nb_segment ≠ 0 →
       Z.of_nat (length idx) < nb_snippet)
    ∧ ∀ (i : nat) (p : Peak),
        idx !! i = Some p →
        label p = LABEL_NOISE ∧ segment p = Z.of_nat i `div` n_by_seg.
Proof.
  intros Hrun n_by_seg. revert Hrun. unfold extract_some_noise.
  destruct (params_waveformextractor (info self)) as [wfp|]; [simpl|done].
  case_decide as Hseg; [done|].
  match goal with
  | |- context [foldlM ?f ?l ?b] =>
      destruct (foldlM f l b) as [idx|] eqn:Hidx
  end; [simpl|done].
  destruct (getitem _ _) as [dtype|]; [simpl|done].
  case_decide as Hw; [done|].
  match goal with
  | |- context [foldlM ?f ?l ?b] =>
      destruct (foldlM f l b) as [snippets|] eqn:Hsn
  end; [simpl|done].
  intros [= <-]. split; [lia|]. exists idx, snippets.
  apply noise_index_loop_spec in Hidx as (blocks & -> & Hall).
  apply noise_snippet_loop_length in Hsn. simpl in Hsn.
  fold n_by_seg in Hall.
  assert (0 ≤ n_by_seg) as Hn.
  { destruct nb_segment as [|k] eqn:Hk; [done|]. simpl in Hall.
    apply Forall2_cons_inv_l in Hall as (b & bs & [Hb _] & _ & _). lia. }
  assert (Forall2 (λ seg b,
                     length b = Z.to_nat n_by_seg
                     ∧ Forall (λ p, label p = LABEL_NOISE
                                    ∧ segment p = Z.of_nat seg) b)
            (seq 0 nb_segment) blocks) as Hall'.
  { eapply Forall2_impl; [done|]. intros seg b [Hb ?]. split; [lia|done]. }
  destruct (concat_blocks_lookup
              (λ seg p, label p = LABEL_NOISE ∧ segment p = Z.of_nat seg)
              (Z.to_nat n_by_seg) nb_segment 0 blocks Hall') as [Hlen Hlook].
  split_and!.
  - unfold some_noise_index, add_array; simpl.
    by rewrite lookup_insert_ne, lookup_insert_eq.
  - unfold some_noise_snippet, add_array; simpl.
    by rewrite lookup_insert_eq.
  - simpl. rewrite Hlen, Nat2Z.inj_mul. rewrite Z2Nat.id by done.
    apply Z.mul_comm.
  - done.
  - simpl. rewrite Hlen, Nat2Z.inj_mul. rewrite Z2Nat.id by done.
    intros Hmod.
    assert (0 < Z.of_nat nb_segment) as Hpos by (clear -Hseg; lia).
    pose proof (Z.div_mod nb_snippet (Z.of_nat nb_segment)) as Hdiv.
    pose proof (Z.mod_pos_bound nb_snippet (Z.of_nat nb_segment) Hpos)
      as Hrem.
    fold n_by_seg in Hdiv. clearbody n_by_seg.
    lia.
  - simpl. intros i p Hi. apply Hlook in Hi as [-> ->]. split; [done|].
    simpl. rewrite Nat2Z.inj_div. f_equal. lia.
Qed.
End NoiseCount.

Lemma np_getitem_in_range {A} (a : list A) (i : Z) :
  0 ≤ i < Z.of_nat (length a) → ∃ x, np_getitem a i = Ok x.
Proof.
  intros Hi. unfold np_getitem. cbv zeta.
  rewrite (decide_False (P := i < 0)) by lia. rewrite decide_True by lia.
  destruct (lookup_lt_is_Some_2 a (Z.to_nat i)) as [x ->]; [lia|eauto].
Qed.

(** A loop that appends one computed item per element completes when every
    item can be computed. *)
Lemma foldlM_snoc_total {A B} (f : A → result B) (ks : list A) (acc : list B) :
  Forall (λ k, ∃ t, f k = Ok t) ks →
  ∃ ts, foldlM (λ acc k, t ← f k; Ok (acc ++ [t])) ks acc = Ok (acc ++ ts)
        ∧ length ts = length ks.
Proof.
  intros Hall. revert acc. induction Hall as [|k ks [t Hk] _ IH]; intros acc.
  - exists []. by rewrite app_nil_r.
  - destruct (IH (acc ++ [t])) as (ts & Hts & Hlen). exists (t :: ts).
    simpl. rewrite Hk. simpl. rewrite Hts, <-app_assoc. split; [done|].
    by rewrite Hlen.
Qed.

Lemma np_take_in_range {A} (a : list A) (idx : list Z) :
  Forall (λ i, 0 ≤ i < Z.of_nat (length a)) idx →
  ∃ out, np_take a idx = Ok out ∧ length out = length idx.
Proof.
  intros Hidx. unfold np_take.
  destruct (foldlM_snoc_total (np_getitem a) idx []) as (ts & Hts & Hlen).
  - eapply Forall_impl; [done|]. intros i Hi. by apply np_getitem_in_range.
  - exists ts. by rewrite Hts.
Qed.

Lemma np_nonzero_elem (mask : list bool) (i : nat) :
  mask !! i = Some true → Z.of_nat i ∈ np_nonzero mask.
Proof.
  intros Hi. unfold np_nonzero. apply list_elem_of_omap.
  exists (Some (Z.of_nat i)). split; [|done].
  apply (list_elem_of_lookup_2 _ i). by rewrite list_lookup_imap, Hi.
Qed.

Lemma np_nonzero_range (mask : list bool) (x : Z) :
  x ∈ np_nonzero mask → 0 ≤ x < Z.of_nat (length mask).
Proof.
  unfold np_nonzero. intros (o & Ho & Hx)%list_elem_of_omap.
  apply list_elem_of_lookup_1 in Ho as [i Hi].
  rewrite list_lookup_imap in Hi.
  destruct (mask !! i) as [b|] eqn:Hb; [|done].
  apply lookup_lt_Some in Hb. destruct b; simpl in *; [|congruence].
  injection Hi as <-. simpl in Hx. injection Hx as <-. lia.
Qed.

(** With a window of positive width that fits more than twice in the
    processed length, sample [peak_width] is eligible. *)
Lemma possibles_mask_eligible (length peak_width n_left n_right : Z)
    (peaks : list Peak) :
  0 < peak_width → 2 * peak_width < length →
  possibles_mask length peak_width n_left n_right peaks
    !! Z.to_nat peak_width = Some true.
Proof.
  intros Hw Hlen. rewrite possibles_mask_ignores_peaks.
  unfold possibles_mask, slice_assign, slice_bound. cbn [foldl].
  rewrite !list_lookup_imap, lookup_replicate_2 by lia. simpl.
  rewrite (decide_False (P := peak_width < 0)) by lia.
  rewrite (decide_True (P := - peak_width < 0)) by lia.
  rewrite !decide_False by lia. done.
Qed.

(** A value of the shape of the slot is stored as it is. *)
Lemma broadcast_rows_exact (rows cols : nat) (wf : list (list Q)) :
  length wf = rows → Forall (λ row, length row = cols) wf →
  broadcast_rows rows cols wf = Ok wf.
Proof.
  intros Hrows Hcols. unfold broadcast_rows.
  assert (∀ acc,
            foldlM (λ acc row, row ← broadcast_row cols row; Ok (acc ++ [row]))
              wf acc = Ok (acc ++ wf)) as ->.
  { clear Hrows. induction Hcols as [|row wf Hrow _ IH]; intros acc; simpl.
    - by rewrite app_nil_r.
    - assert (broadcast_row cols row = Ok row) as ->.
      { unfold broadcast_row. by rewrite decide_True. }
      simpl. by rewrite IH, <-app_assoc. }
  simpl. by rewrite decide_True.
Qed.

Section NoiseCompletes.
Context {Projector : Type} `{!DataIO, !LabelCodes, !RandomState}.
Implicit Types self : CatalogueConstructor Projector.

(** [extract_some_noise] completes when the window has a positive width
    that fits more than twice in the processed length, the generator honours
    a request on a non-empty population, and the data layer returns windows of
    the requested length. *)
Lemma extract_some_noise_completes (nb_snippet : Z) self
    (wfp : WaveformExtractorParams) (len : Z) (dtype : string)
    (peaks : list Peak) :
  params_waveformextractor (info self) = Some wfp →
  processed_length (info self) = Some len →
  internal_dtype (info self) = Some dtype →
  all_peaks self = Some peaks →
  (1 ≤ nb_segment)%nat → 0 ≤ nb_snippet →
  0 < n_right wfp - n_left wfp → 2 * (n_right wfp - n_left wfp) < len →
  (∀ call a size, (0 < a)%nat →
     ∃ l, random_choice call a size = Ok l ∧ length l = size
          ∧ Forall (λ i, (i < a)%nat) l) →
  (∀ seg i_start i_stop, i_start ≤ i_stop →
     length (get_signals_chunk seg i_start i_stop) = Z.to_nat (i_stop - i_start)
     ∧ Forall (λ row, length row = nb_channel)
         (get_signals_chunk seg i_start i_stop)) →
  ∃ self', extract_some_noise nb_snippet self = Ok self'.
Proof.
  intros Hwfp Hlen Hdt Hp Hseg Hnb Hw Hfit Hrng Hio.
  unfold extract_some_noise. rewrite Hwfp. simpl.
  rewrite decide_False by lia.
  set (n_by_seg := nb_snippet `div` Z.of_nat nb_segment).
  assert (0 ≤ n_by_seg) as Hn by (apply Z.div_pos; lia).
  match goal with
  | |- context [foldlM ?f ?l ?b] =>
      destruct (foldlM_total (λ _, True) f l b) as (idx & -> & _)
  end; [done| |].
  - intros acc seg_num _. unfold noise_index_one_segment.
    rewrite Hlen, Hp. simpl. rewrite !decide_False by lia.
    set (possibles := possibles_mask len _ _ _ _).
    assert (Z.of_nat (Z.to_nat (n_right wfp - n_left wfp)) ∈ np_nonzero possibles)
      as Hin by by apply np_nonzero_elem, possibles_mask_eligible.
    destruct (Hrng seg_num (length (np_nonzero possibles)) (Z.to_nat n_by_seg))
      as (choice & -> & Hsize & Hrange).
    { destruct (np_nonzero possibles); [by apply elem_of_nil in Hin|simpl; lia]. }
    simpl.
    destruct (np_take_in_range (np_nonzero possibles)
                (Z.of_nat <$> merge_sort Nat.le choice))
      as (out & -> & Hout).
    { apply Forall_fmap. rewrite merge_sort_Permutation.
      eapply Forall_impl; [done|]. intros i Hi. unfold compose. cbv beta in Hi.
      lia. }
    simpl. rewrite decide_True; [eauto|].
    rewrite Hout, length_fmap, merge_sort_Permutation, Hsize. lia.
  - simpl. rewrite Hdt. simpl. rewrite decide_False by lia.
    match goal with
    | |- context [foldlM ?f ?l ?b] =>
        destruct (foldlM_total (λ _, True) f l b) as (snippets & -> & _)
    end; [done| |simpl; eauto].
    intros acc ind _. unfold noise_snippet_one.
    destruct (Hio (segment ind) (index ind + n_left wfp)
                (index ind + n_left wfp + (n_right wfp - n_left wfp)))
      as [Hl Hrows]; [lia|].
    rewrite broadcast_rows_exact; [simpl; eauto| |done]. rewrite Hl.
    f_equal. lia.
Qed.
End NoiseCompletes.

(** ** Noise estimation *)

Section NoiseEstimationCheck.
Context {Projector : Type} `{!DataIO, !Engines}.
Implicit Types self : CatalogueConstructor Projector.

(** C8 (as amended).  With a non-zero chunk size, [estimate_signals_noise]
    fails on its assertion when the requested number of samples
    [int(duration*sample_rate)], the truncation of the float product, rounded
    down to a whole number of chunks, exceeds the length of the segment; when
    it is below that length the call passes the check and goes on to the
    estimation proper on that prefix. *)
Theorem estimate_signals_noise_check (seg_num : Z) (duration : Q) self
    (requested : Z) :
  chunksize self ≠ 0 →
  py_int (float_mul duration sample_rate) = Ok requested →
  let length := requested - requested `mod` chunksize self in
  (get_segment_length seg_num < length →
   estimate_signals_noise seg_num duration self
   = Raise (AssertionError "duration exeed size"))
  ∧ (length < get_segment_length seg_num →
     estimate_signals_noise seg_num duration self
     = estimate_from_prefix seg_num length self).
Proof.
  intros Hcs Hrequested length. unfold estimate_signals_noise.
  rewrite Hrequested. simpl.
  rewrite decide_False by done. fold length. split.
  - intros Hle. by rewrite bool_decide_eq_false_2 by lia.
  - intros Hlt. by rewrite bool_decide_eq_true_2 by done.
Qed.

(** The check is strict: a rounded request of exactly the length of the
    segment fails too. *)
Lemma estimate_signals_noise_strict (seg_num : Z) (duration : Q) self
    (requested : Z) :
  chunksize self ≠ 0 →
  py_int (float_mul duration sample_rate) = Ok requested →
  requested - requested `mod` chunksize self = get_segment_length seg_num →
  estimate_signals_noise seg_num duration self
  = Raise (AssertionError "duration exeed size").
Proof.
  intros Hcs Hrequested Heq. unfold estimate_signals_noise.
  rewrite Hrequested. simpl. rewrite decide_False by done. rewrite Heq.
  by rewrite bool_decide_eq_false_2 by lia.
Qed.

(** When the data layer yields no chunk (as for a prefix of zero samples),
    the estimation proper fails on the unbound [pos2]. *)
Lemma estimate_from_prefix_no_chunk (seg_num length : Z) self
    (spp : SignalPreprocessorParams) (dtype : string) :
  params_signalpreprocessor (info self) = Some spp →
  internal_dtype (info self) = Some dtype →
  lostfront_chunksize spp ≤ length →
  iter_over_chunk seg_num (chunksize self) (Some length) "initial" = [] →
  estimate_from_prefix seg_num length self = Raise (UnboundLocalError "pos2").
Proof.
  intros Hspp Hdt Hrows Hnone. unfold estimate_from_prefix.
  rewrite Hspp, Hdt. simpl. rewrite decide_False by lia. by rewrite Hnone.
Qed.
End NoiseEstimationCheck.

(** A requested duration beyond the segment (the float 0.015 at 1 kHz is 15
    samples, the segment has 13) is rounded down to one chunk of 10 samples
    and the call completes. *)
Lemma estimate_signals_noise_beyond_segment_completes :
  ¬ (∀ (D : DataIO) (E : Engines) (self : CatalogueConstructor unit)
       (seg_num : Z) (duration : Q),
       (inject_Z (get_segment_length seg_num) < duration * sample_rate)%Q →
       ∃ e, estimate_signals_noise seg_num duration self = Raise e).
Proof.
  intros Hclaim.
  destruct (Hclaim Examples.short_dataio Examples.trim_engines
              (Examples.chunked_constructor 10 Examples.trim_info)
              0 (Examples.double (15 # 1000))) as [e Hrun]; [by vm_compute|].
  vm_compute in Hrun. discriminate.
Qed.

(** A requested duration equal to the length of the segment (0.1 s at 1 kHz
    on 100 samples, in chunks of 10) fails on the assertion. *)
Lemma estimate_signals_noise_full_segment_fails :
  @estimate_signals_noise unit Examples.dataio Examples.trim_engines
    0 (Examples.double (1 # 10))
    (Examples.chunked_constructor 10 Examples.trim_info)
  = Raise (AssertionError "duration exeed size").
Proof. by vm_compute. Qed.

(** The float products at work: [0.57*10000.] is below [5700] and
    [0.7*10000.] is [7000.0]; [100*0.07] is above [7] and [10*0.1] is [1.0];
    [1.1] as a [np.float32] is above [1.1]. *)
Lemma float_mul_rounds :
  py_int (float_mul (Examples.double (57 # 100)) 10000) = Ok 5699
  ∧ py_int (float_mul (Examples.double (7 # 10)) 10000) = Ok 7000
  ∧ float_le (float_mul 100 (Examples.double (7 # 100))) (float_of 7) = false
  ∧ float_le (float_mul 10 (Examples.double (1 # 10))) (float_of 1) = true
  ∧ float_le (round_to binary32 (Examples.double (11 # 10)))
      (float_of (11 # 10)) = false.
Proof. by vm_compute. Qed.

(** ** Catalogue builder *)

Lemma subsample_size (W : nat) :
  (4 ≤ W)%nat →
  Qceiling ((inject_Z (Z.of_nat W) - (25 # 10) - (15 # 10)) / (1 # 20))
  = 20 * (Z.of_nat W - 4).
Proof.
  intros HW.
  assert ((inject_Z (Z.of_nat W) - (25 # 10) - (15 # 10)) / (1 # 20)
          == inject_Z (20 * (Z.of_nat W - 4)))%Q as ->.
  { unfold Qeq, Qdiv, Qminus, Qplus, Qopp, Qmult, Qinv, inject_Z. simpl. lia. }
  apply Qceiling_Z.
Qed.

Lemma length_subsample (W : nat) :
  (4 ≤ W)%nat →
  length (np_arange (15 # 10) (inject_Z (Z.of_nat W) - (25 # 10))%Q (1 # 20))
  = (20 * (W - 4))%nat.
Proof.
  intros HW. unfold np_arange.
  rewrite length_fmap, length_seqZ, subsample_size by done. lia.
Qed.

Lemma np_median_waveforms_shape (W nchan : nat) (wfs : list (list (list Q))) :
  length (np_median_waveforms W nchan wfs) = W
  ∧ Forall (λ row, length row = nchan) (np_median_waveforms W nchan wfs).
Proof.
  unfold np_median_waveforms. split.
  - by rewrite length_fmap, length_seq.
  - apply Forall_fmap, Forall_forall. intros t _. simpl.
    by rewrite length_fmap, length_seq.
Qed.

(** [a[2:-2]] of an array of at least 4 rows drops 2 rows at each end. *)
Lemma trim_shape {A} (W nchan : nat) (a : list (list A)) :
  (4 ≤ W)%nat → length a = W → Forall (λ row, length row = nchan) a →
  length (np_slice 2 (-2) a) = (W - 4)%nat
  ∧ Forall (λ row, length row = nchan) (np_slice 2 (-2) a).
Proof.
  intros HW Hlen Hrows. unfold np_slice, slice_bound. rewrite Hlen.
  rewrite (decide_False (P := 2 < 0)), (decide_True (P := -2 < 0)) by lia.
  split.
  - rewrite length_take, length_drop. lia.
  - by apply Forall_take, Forall_drop.
Qed.

Lemma trim_lookup {A} (a : list A) (t : nat) :
  (4 ≤ length a)%nat → (t < length a - 4)%nat →
  np_slice 2 (-2) a !! t = a !! (t + 2)%nat.
Proof.
  intros HW Ht. unfold np_slice, slice_bound.
  rewrite (decide_False (P := 2 < 0)), (decide_True (P := -2 < 0)) by lia.
  rewrite lookup_take_lt by lia. rewrite lookup_drop. f_equal. lia.
Qed.

(** A loop that appends one computed item per element. *)
Lemma foldlM_snoc_spec {A B} (f : A → result B) (ks : list A) (acc out : list B) :
  foldlM (λ acc k, t ← f k; Ok (acc ++ [t])) ks acc = Ok out →
  ∃ ts, out = acc ++ ts ∧ Forall2 (λ k t, f k = Ok t) ks ts.
Proof.
  revert acc. induction ks as [|k ks IH]; intros acc; simpl.
  - intros [= <-]. exists []. split; [by rewrite app_nil_r|constructor].
  - destruct (f k) as [t|] eqn:Hk; [simpl|done].
    intros (ts & -> & Hall)%IH. exists (t :: ts).
    split; [by rewrite <-app_assoc|by constructor].
Qed.

Section CatalogueTemplates.
Context {Projector : Type} `{!Interpolation, !LabelCodes, !Palette}.
Implicit Types self : CatalogueConstructor Projector.

Lemma cluster_templates_spec (W nchan : nat) (wfs : list (list (list Q)))
    (subsample : list Q) self (k : Z)
    (t : list (list float64) * list (list float64)
         * list (list float64) * list (list float64)) :
  cluster_templates W nchan wfs subsample self k = Ok t →
  templates_of W nchan wfs self k t
  ∧ length (snd t) = length subsample
  ∧ Forall (λ row, length row = nchan) (snd t).
Proof.
  unfold cluster_templates.
  destruct (sample_labels self) as [labels|] eqn:Hl; [simpl|done].
  destruct (np_mask_select _ wfs) as [wf0|] eqn:Hm; [simpl|done].
  case_decide as Hempty; [done|]. cbv zeta.
  destruct (interp1d_cubic _ _) as [ov|]; simpl; [|done].
  case_decide as Hshape; [|done]. intros [= <-]. simpl.
  destruct Hshape as [Hlen Hrows]. split_and!; try done.
  exists labels, wf0. split_and!; try done.
  intros ->. apply Hempty. by left.
Qed.

(** C7 (as amended).  Whenever [make_catalogue] completes on a waveform
    tensor of shape [(n, W, nchan)], with [C] non-negative clusters: the
    three template tensors have shape [(C, W - 4, nchan)] and the
    interpolant has shape [(C, 20 * (W - 4), nchan)]; for each cluster the
    order-0 template is the median of the waveforms of its members without
    the first and last 2 samples, and the order-1 and order-2 templates are
    the medians, over the members, of the first and of the second central
    difference of each waveform, trimmed alike. *)
Theorem make_catalogue_templates (colors : option (gmap Z color)) self
    (cat : Catalogue) (W nchan : nat) (wfs : list (list (list Q))) :
  attrs self !! "some_waveforms" = Some (FloatArray3 W nchan wfs) →
  make_catalogue colors self = Ok cat →
  let C := length (positive_cluster_labels self) in
  catalogue_cluster_labels cat = positive_cluster_labels self
  ∧ has_shape3 C (W - 4) nchan (centers0 cat)
  ∧ has_shape3 C (W - 4) nchan (centers1 cat)
  ∧ has_shape3 C (W - 4) nchan (centers2 cat)
  ∧ has_shape3 C (20 * (W - 4)) nchan (interp_centers0 cat)
  ∧ ∀ (i : nat) (k : Z),
      positive_cluster_labels self !! i = Some k →
      ∃ t, templates_of W nchan wfs self k t
           ∧ centers0 cat !! i = Some (fst (fst (fst t)))
           ∧ centers1 cat !! i = Some (snd (fst (fst t)))
           ∧ centers2 cat !! i = Some (snd (fst t)).
Proof.
  intros Hwf Hrun C. revert Hrun. unfold make_catalogue.
  destruct (getitem "params_waveformextractor" _) as [wfp|]; simpl; [|done].
  rewrite Hwf.
  destruct (getitem "internal_dtype" _) as [dtype|]; simpl; [|done].
  case_decide as HW; [done|].
  fold (positive_cluster_labels self).
  match goal with
  | |- context [foldlM ?f ?l ?b] =>
      destruct (foldlM f l b) as [templates|] eqn:Htpl
  end; [simpl|done].
  match goal with
  | |- context [foldlM ?f ?l ?b] => destruct (foldlM f l b) as [chans|]
  end; [simpl|done].
  destruct (match colors with Some _ => _ | None => _ end) as [colors'|];
    [simpl|done].
  destruct (getitem "params_signalpreprocessor" _) as [spp|]; [simpl|done].
  destruct (getitem "params_peakdetector" _) as [pdp|]; [simpl|done].
  intros [= <-]. simpl.
  apply foldlM_snoc_spec in Htpl as (ts & -> & Hall). simpl in *.
  pose proof (Forall2_length _ _ _ Hall) as Hlen.
  assert (∀ t, t ∈ ts →
            ∃ k, templates_of W nchan wfs self k t
                 ∧ length (snd t) = (20 * (W - 4))%nat
                 ∧ Forall (λ row, length row = nchan) (snd t)) as Hts.
  { intros t [i Hi]%list_elem_of_lookup_1.
    destruct (Forall2_lookup_r _ _ _ _ _ Hall Hi) as (k & _ & Hk).
    apply cluster_templates_spec in Hk as (Hk & Hov & Hrows).
    rewrite length_subsample in Hov by lia. eauto. }
  assert (∀ (g : _ → list (list float64)),
            (∀ k t, templates_of W nchan wfs self k t →
                    ∃ wf, g t = np_slice 2 (-2)
                                  (np_median_waveforms W nchan wf)) →
            has_shape3 C (W - 4) nchan (g <$> ts)) as Hshape.
  { intros g Hg. split; [by rewrite length_fmap|].
    apply Forall_fmap, Forall_forall. intros t Ht. simpl.
    destruct (Hts t Ht) as (k & Hk & _). destruct (Hg k t Hk) as [wf ->].
    destruct (np_median_waveforms_shape W nchan wf) as [Hl Hr].
    apply (trim_shape W nchan); [lia|done..]. }
  split_and!.
  - done.
  - apply Hshape. intros k t (l & wf0 & _ & _ & _ & -> & _). eauto.
  - apply Hshape.
    intros k t (l & wf0 & _ & _ & _ & _ & -> & _). eauto.
  - apply Hshape.
    intros k t (l & wf0 & _ & _ & _ & _ & _ & ->). eauto.
  - split; [by rewrite length_fmap|].
    apply Forall_fmap, Forall_forall. intros t Ht. simpl.
    by destruct (Hts t Ht) as (k & _ & ? & ?).
  - intros i k Hi.
    destruct (Forall2_lookup_l _ _ _ _ _ Hall Hi) as (t & Ht & Hk).
    apply cluster_templates_spec in Hk as (Hk & _).
    exists t. rewrite !list_lookup_fmap, Ht. done.
Qed.
End CatalogueTemplates.

Lemma foldlM_total_elem {A B} (f : B → A → result B) (l : list A) (b : B) :
  (∀ b x, x ∈ l → ∃ b', f b x = Ok b') → ∃ b', foldlM f l b = Ok b'.
Proof.
  revert b. induction l as [|x l IH]; intros b Hstep; simpl; [eauto|].
  destruct (Hstep b x) as [b1 ->]; [left|]. simpl.
  apply IH. intros b' y Hy. apply Hstep. by right.
Qed.

Lemma np_getitem_wrapping {A} (a : list A) (i : Z) :
  - Z.of_nat (length a) ≤ i < Z.of_nat (length a) →
  ∃ x, np_getitem a i = Ok x ∧ x ∈ a.
Proof.
  intros Hi. unfold np_getitem. cbv zeta.
  destruct (decide (i < 0)).
  - rewrite decide_True by lia.
    destruct (lookup_lt_is_Some_2 a (Z.to_nat (i + Z.of_nat (length a))))
      as [x Hx]; [lia|].
    rewrite Hx. eauto using list_elem_of_lookup_2.
  - rewrite decide_True by lia.
    destruct (lookup_lt_is_Some_2 a (Z.to_nat i)) as [x Hx]; [lia|].
    rewrite Hx. eauto using list_elem_of_lookup_2.
Qed.

Lemma np_mask_select_member {A} (labels : list Z) (k : Z) (a : list A) :
  length labels = length a → k ∈ labels →
  ∃ out, np_mask_select ((λ l, bool_decide (l = k)) <$> labels) a = Ok out
         ∧ out ≠ [].
Proof.
  intros Hlen Hk. unfold np_mask_select.
  rewrite decide_True by by rewrite length_fmap.
  eexists. split; [done|].
  apply list_elem_of_lookup_1 in Hk as [i Hi].
  destruct (lookup_lt_is_Some_2 a i) as [x Hx].
  { rewrite <-Hlen. by eapply lookup_lt_Some. }
  assert ((x, true) ∈ filter (λ xb : A * bool, snd xb = true)
                        (zip a ((λ l, bool_decide (l = k)) <$> labels)))
    as Hin.
  { apply list_elem_of_filter. split; [done|].
    apply (list_elem_of_lookup_2 _ i). apply lookup_zip_with_Some.
    exists x, true. split_and!; [done..|].
    rewrite list_lookup_fmap, Hi. simpl. by rewrite bool_decide_eq_true_2. }
  intros Hnil%fmap_nil_inv. rewrite Hnil in Hin. by apply elem_of_nil in Hin.
Qed.

Section CatalogueCompletes.
Context {Projector : Type} `{!Interpolation, !LabelCodes, !Palette}.
Implicit Types self : CatalogueConstructor Projector.

(** [refresh_colors] with [reset] completes when the palette returns as
    many colours as it is asked for. *)
Lemma refresh_colors_completes (palette : string)
    (colors : option (gmap Z color)) self (color_table : list color) :
  color_palette palette (length (positive_cluster_labels self))
  = Ok color_table →
  length color_table = length (positive_cluster_labels self) →
  ∃ colors', refresh_colors true palette colors self = Ok colors'.
Proof.
  intros Htable Hlen. unfold refresh_colors. cbv zeta.
  fold (positive_cluster_labels self). rewrite Htable. simpl.
  match goal with
  | |- context [foldlM ?f ?l ?b] =>
      destruct (foldlM_total_elem f l b) as [colors1 ->]
  end; [|simpl; eauto].
  intros c [i k] (i' & k' & [= -> ->] & Hk)%elem_of_lookup_imap. simpl.
  destruct (c !! k'); [eauto|].
  destruct (np_getitem_in_range color_table (Z.of_nat i')) as [x ->];
    [|simpl; eauto].
  apply lookup_lt_Some in Hk. lia.
Qed.

(** [make_catalogue] completes when the working sample is consistent (one
    label per sampled waveform), every non-negative cluster has a member in
    it, the window has at least 4 samples and one channel, the peak sample
    lies inside the trimmed window, the interpolation returns one row of
    [nchan] values per point of the grid, the colours exist or can be made,
    and the parameters of the conditioning and of the detection are on
    record. *)
Lemma make_catalogue_completes (colors : option (gmap Z color)) self
    (wfp : WaveformExtractorParams)
    (dtype : string) (W nchan : nat) (wfs : list (list (list Q)))
    (labels : list Z) (spp : SignalPreprocessorParams)
    (pdp : PeakDetectorParams) :
  params_waveformextractor (info self) = Some wfp →
  internal_dtype (info self) = Some dtype →
  params_signalpreprocessor (info self) = Some spp →
  info_params_peakdetector (info self) = Some pdp →
  (colors = None →
   ∃ colors', refresh_colors true "husl" None self = Ok colors') →
  attrs self !! "some_waveforms" = Some (FloatArray3 W nchan wfs) →
  (4 ≤ W)%nat → (1 ≤ nchan)%nat →
  sample_labels self = Ok labels → length labels = length wfs →
  (∀ k, k ∈ positive_cluster_labels self → k ∈ labels) →
  - (Z.of_nat W - 4) ≤ - (n_left wfp + 2) < Z.of_nat W - 4 →
  (∀ center xs, ∃ ov, interp1d_cubic center xs = Ok ov
                      ∧ length ov = length xs
                      ∧ Forall (λ row, length row = nchan) ov) →
  ∃ cat, make_catalogue colors self = Ok cat.
Proof.
  intros Hwfp Hdt Hspp Hpdp Hcolors Hwf HW Hchan Hlab Hlen Hmem Hpeak Hinterp.
  unfold make_catalogue. rewrite Hwfp. simpl. rewrite Hwf, Hdt. simpl.
  rewrite decide_False by lia. fold (positive_cluster_labels self).
  set (subsample := np_arange _ _ _).
  destruct (foldlM_snoc_total
              (cluster_templates W nchan wfs subsample self)
              (positive_cluster_labels self) []) as (ts & Hts & _).
  { apply Forall_forall. intros k Hk. unfold cluster_templates.
    rewrite Hlab. simpl.
    destruct (np_mask_select_member labels k wfs Hlen (Hmem k Hk))
      as (wf0 & -> & Hne).
    simpl. rewrite decide_False.
    2:{ intros [Hz|[?|?]]; [|lia..]. by apply nil_length_inv in Hz. }
    cbv zeta.
    destruct (Hinterp (np_median_waveforms W nchan wf0) subsample)
      as (ov & -> & Hov & Hrows).
    simpl. rewrite decide_True by done. eauto. }
  rewrite Hts. simpl.
  apply foldlM_snoc_spec in Hts as (ts' & Heq & Hall). simpl in Heq. subst ts'.
  match goal with
  | |- context [foldlM ?f ?l ?b] =>
      destruct (foldlM_total_elem f l b) as [chans ->]
  end.
  2:{ simpl. rewrite Hspp, Hpdp. destruct colors as [c|]; [simpl; eauto|].
      destruct (Hcolors eq_refl) as [c' ->]. simpl. eauto. }
  intros acc center (t & -> & Ht)%list_elem_of_fmap.
  apply list_elem_of_lookup_1 in Ht as [i Hi].
  destruct (Forall2_lookup_r _ _ _ _ _ Hall Hi) as (k & _ & Hk).
  apply cluster_templates_spec in Hk
    as ((l & wf0 & _ & _ & _ & Hc0 & _) & _).
  destruct (np_median_waveforms_shape W nchan wf0) as [Hl Hr].
  destruct (trim_shape W nchan _ HW Hl Hr) as [Htl Htr].
  rewrite <-Hc0 in Htl, Htr.
  destruct (np_getitem_wrapping (fst (fst (fst t))) (- (n_left wfp + 2)))
    as (row & -> & Hrow); [lia|].
  simpl. rewrite Forall_forall in Htr. specialize (Htr row Hrow).
  destruct row as [|x row]; [simpl in Htr; lia|]. simpl. eauto.
Qed.
End CatalogueCompletes.

(** ** The properties at work on the examples *)

Ltac by_eval :=
  first [ solve [apply (bool_decide_unpack _); vm_compute; exact I]
        | solve [vm_compute; reflexivity]
        | by vm_compute ].

Lemma argsort_stable_Permutation (l : list float64) :
  Examples.argsort_stable l ≡ₚ seq 0 (length l).
Proof.
  unfold Examples.argsort_stable. rewrite merge_sort_Permutation.
  rewrite snd_zip; [done|]. by rewrite length_seq.
Qed.

Lemma on_new_cluster_counts_witness :
  let self := Examples.constructor Examples.four_peaks None Examples.empty_info in
  let peaks := Examples.four_peaks in
  ∃ tbl, clusters (on_new_cluster self) = Some tbl
    ∧ cluster_label <$> tbl = np_unique (label <$> peaks)
    ∧ sum_list_Z (nb_peak <$> tbl) = Z.of_nat (length peaks)
    ∧ sum_list_Z (nb_peak <$> filter (λ c, 0 ≤ cluster_label c) tbl)
      = Z.of_nat (length (filter (λ p, 0 ≤ label p) peaks))
    ∧ ∀ k, k ∈ cluster_label <$> filter (λ c, 0 ≤ cluster_label c) tbl
           ↔ 0 ≤ k ∧ k ∈ label <$> peaks.
Proof.
  apply (on_new_cluster_counts
           (Examples.constructor Examples.four_peaks None Examples.empty_info)
           Examples.four_peaks); by_eval.
Defined.

(** One peak with the reserved label [-1]: the rebuilt table has one row
    that counts it, while no peak has a non-negative label. *)
Lemma on_new_cluster_counts_reserved_labels :
  ¬ (∀ (self : CatalogueConstructor unit) (peaks : list Peak),
       all_peaks self = Some peaks → peaks ≠ [] →
       ∃ tbl, clusters (on_new_cluster self) = Some tbl
         ∧ sum_list_Z (nb_peak <$> tbl)
           = Z.of_nat (length (filter (λ p, 0 ≤ label p) peaks))
         ∧ ∀ k, k ∈ cluster_label <$> tbl ↔ 0 ≤ k ∧ k ∈ label <$> peaks).
Proof.
  intros Hclaim.
  destruct (Hclaim (Examples.constructor [mkPeak 20 (-1) 0] None
                      Examples.empty_info) [mkPeak 20 (-1) 0])
    as (tbl & Htbl & Hsum & _); [by_eval..|].
  vm_compute in Htbl. injection Htbl as <-. vm_compute in Hsum. discriminate.
Qed.

Lemma on_new_cluster_cell_label_witness :
  let self := Examples.constructor Examples.four_peaks
                (Some Examples.tagged_table) Examples.empty_info in
  let prev := Examples.tagged_table in
  ∃ tbl, clusters (on_new_cluster self) = Some tbl
    ∧ cluster_label <$> tbl = np_unique (label <$> Examples.four_peaks)
    ∧ ∀ c, c ∈ tbl →
        (∀ (j : nat) (r : Cluster),
            prev !! j = Some r → cluster_label r = cluster_label c →
            (∀ (i : nat) (r' : Cluster), prev !! i = Some r' → (i < j)%nat →
               cluster_label r' ≠ cluster_label c) →
            cell_label c = cell_label r)
        ∧ (cluster_label c ∉ cluster_label <$> prev →
           cell_label c = cluster_label c).
Proof.
  apply (on_new_cluster_cell_label
           (Examples.constructor Examples.four_peaks
              (Some Examples.tagged_table) Examples.empty_info)
           Examples.four_peaks Examples.tagged_table); by_eval.
Defined.

Lemma trash_small_cluster_spec_witness :
  let self := Examples.measured in
  let peaks := Examples.four_peaks in
  let tbl := Examples.measured_table in
  ∃ self' peaks',
    trash_small_cluster 1 self = Ok self'
    ∧ all_peaks self' = Some peaks'
    ∧ clusters self' = Some (new_clusters peaks' (Some tbl))
    ∧ (∀ c, c ∈ tbl → cluster_label c ≠ -1 →
           nb_peak c = count_label (cluster_label c) peaks → nb_peak c ≤ 1 →
           (∀ p', p' ∈ peaks' → label p' ≠ cluster_label c)
           ∧ (∀ (i : nat) (p : Peak),
                peaks !! i = Some p → label p = cluster_label c →
                peaks' !! i = Some (set_label (-1) p))
           ∧ cluster_label c ∉ cluster_labels self')
    ∧ (∀ (i : nat) (p : Peak),
         peaks !! i = Some p → label p = -1 → peaks' !! i = Some p)
    ∧ Forall2 trashed peaks peaks'.
Proof.
  apply (trash_small_cluster_spec 1 Examples.measured Examples.four_peaks
           Examples.measured_table); by_eval.
Defined.

(** A cluster of one peak labelled [-1]: its peak still bears the label
    after [trash_small_cluster(10)]. *)
Lemma trash_small_cluster_keeps_trash :
  ¬ (∀ (n : Z) (self self' : CatalogueConstructor unit)
       (peaks peaks' : list Peak) (tbl : list Cluster),
       all_peaks self = Some peaks → clusters self = Some tbl →
       trash_small_cluster n self = Ok self' →
       all_peaks self' = Some peaks' →
       ∀ c, c ∈ tbl → nb_peak c = count_label (cluster_label c) peaks →
            nb_peak c ≤ n →
            ∀ p', p' ∈ peaks' → label p' ≠ cluster_label c).
Proof.
  intros Hclaim.
  set (self := Examples.constructor [mkPeak 20 (-1) 0]
                 (Some [mkCluster (-1) (-1) (-1) nan nan 1])
                 Examples.empty_info).
  apply (Hclaim 10 self (Examples.ok_or self (trash_small_cluster 10 self))
           [mkPeak 20 (-1) 0] [mkPeak 20 (-1) 0]
           [mkCluster (-1) (-1) (-1) nan nan 1]
           ltac:(by_eval) ltac:(by_eval) ltac:(by_eval) ltac:(by_eval)
           (mkCluster (-1) (-1) (-1) nan nan 1)
           ltac:(left) ltac:(by_eval) ltac:(by_eval)
           (mkPeak 20 (-1) 0) ltac:(left)).
  done.
Qed.

Lemma order_clusters_invariants_witness :
  let peaks := Examples.four_peaks in
  let cl := Examples.measured_table in
  let self' := Examples.ordered in
  ∃ (f : Z → Z) (peaks' : list Peak) (cl' : list Cluster),
    all_peaks self' = Some peaks' ∧ clusters self' = Some cl'
    ∧ peaks' = (λ p, set_label (f (label p)) p) <$> peaks
    ∧ (∀ l, l < 0 → f l = l)
    ∧ nb_peak <$> cl' ≡ₚ nb_peak <$> cl
    ∧ (∀ a, a ∈ cl → 0 ≤ cluster_label a →
         0 ≤ f (cluster_label a)
         ∧ (∀ p, p ∈ peaks → f (label p) = f (cluster_label a) →
                 label p = cluster_label a)
         ∧ count_label (f (cluster_label a)) peaks'
           = count_label (cluster_label a) peaks
         ∧ ∃ a', a' ∈ cl' ∧ cluster_label a' = f (cluster_label a)
                 ∧ nb_peak a' = nb_peak a)
    ∧ (∀ a b a' b',
         a ∈ cl → b ∈ cl → 0 ≤ cluster_label a → 0 ≤ cluster_label b →
         a' ∈ cl' → b' ∈ cl' →
         cluster_label a' = f (cluster_label a) →
         cluster_label b' = f (cluster_label b) →
         cell_label a = cell_label b → cell_label a' = cell_label b').
Proof.
  apply (@order_clusters_invariants unit Examples.numerics "waveforms_rms"
           Examples.measured Examples.ordered Examples.four_peaks
           Examples.measured_table);
    [apply argsort_stable_Permutation|by_eval..].
Defined.

Lemma reset_after_peak_detection_witness :
  (let self := Examples.processed_fresh in
   let self' := Examples.processed_then_detected in
   Forall (λ name, is_Some (attrs self !! name)) _reset_after_peak_arrays
   ∧ length <$> all_peaks self' = Some 8%nat
   ∧ (attrs self' !! "some_peaks_index" = None
      ∧ attrs self' !! "some_waveforms" = None
      ∧ attrs self' !! "some_features" = None
      ∧ attrs self' !! "channel_to_features" = None
      ∧ attrs self' !! "some_noise_index" = None
      ∧ attrs self' !! "some_noise_snippet" = None
      ∧ attrs self' !! "some_noise_features" = None
      ∧ attrs self' !! "spike_waveforms_similarity" = None
      ∧ attrs self' !! "cluster_similarity" = None
      ∧ attrs self' !! "cluster_ratio_similarity" = None
      ∧ attrs self' !! "spike_silhouette" = None)
   ∧ (∀ peaks, all_peaks self' = Some peaks → peaks ≠ [] →
        clusters self' = Some (new_clusters peaks (clusters self)))
   ∧ (all_peaks self' = Some [] → clusters self' = clusters self))
  ∧ (let self := Examples.processed in
     let self' := Examples.processed_then_redetected in
     Forall (λ name, is_Some (attrs self !! name)) _reset_after_peak_arrays
     ∧ length <$> all_peaks self' = Some 8%nat
     ∧ (attrs self' !! "some_peaks_index" = None
        ∧ attrs self' !! "some_waveforms" = None
        ∧ attrs self' !! "some_features" = None
        ∧ attrs self' !! "channel_to_features" = None
        ∧ attrs self' !! "some_noise_index" = None
        ∧ attrs self' !! "some_noise_snippet" = None
        ∧ attrs self' !! "some_noise_features" = None
        ∧ attrs self' !! "spike_waveforms_similarity" = None
        ∧ attrs self' !! "cluster_similarity" = None
        ∧ attrs self' !! "cluster_ratio_similarity" = None
        ∧ attrs self' !! "spike_silhouette" = None)
     ∧ (∀ peaks, all_peaks self' = Some peaks → peaks ≠ [] →
          clusters self' = Some (new_clusters peaks (clusters self)))
     ∧ (all_peaks self' = Some [] → clusters self' = clusters self)).
Proof.
  split; (split; [by_eval|split; [by_eval|]]).
  - apply (@reset_after_peak_detection unit Examples.two_segments
             Examples.spiky_engines Examples.labelcodes Examples.engine_names
             1 true "numpy" Examples.detector_params
             Examples.processed_fresh Examples.processed_then_detected).
    left. by_eval.
  - apply (@reset_after_peak_detection unit Examples.two_segments
             Examples.spiky_engines Examples.labelcodes Examples.engine_names
             1 true "numpy" Examples.detector_params
             Examples.processed Examples.processed_then_redetected).
    right. by_eval.
Defined.

(** A detection that finds no peak leaves the previous cluster table in
    place: its labels are not the (absent) labels of the empty peak table. *)
Lemma re_detect_peak_keeps_stale_table :
  ¬ (∀ (D : DataIO) (E : Engines) (L : LabelCodes) (N : EngineNames)
       (peakdetector_engine : string) (params : PeakDetectorParams)
       (self self' : CatalogueConstructor unit),
       re_detect_peak peakdetector_engine params self = Ok self' →
       ∃ peaks tbl,
         all_peaks self' = Some peaks ∧ clusters self' = Some tbl
         ∧ cluster_label <$> tbl = np_unique (label <$> peaks)).
Proof.
  intros Hclaim.
  destruct (Hclaim Examples.dataio Examples.quiet_engines Examples.labelcodes
              Examples.engine_names "numpy" Examples.detector_params
              (Examples.constructor Examples.four_peaks
                 (Some Examples.measured_table)
                 (Examples.window_info (-2) 3 100))
              Examples.redetected ltac:(by_eval))
    as (peaks & tbl & Hp & Htbl & Hlab).
  vm_compute in Hp. injection Hp as <-.
  vm_compute in Htbl. injection Htbl as <-.
  vm_compute in Hlab. discriminate.
Qed.

Lemma extract_some_noise_count_witness :
  let self' := Examples.noisy_two in
  let n_by_seg := 3 `div` Z.of_nat (@nb_segment Examples.two_segments) in
  3 `mod` Z.of_nat (@nb_segment Examples.two_segments) ≠ 0 ∧
  (1 ≤ @nb_segment Examples.two_segments)%nat ∧
  ∃ (idx : list Peak) (snippets : list (list (list Q))),
    some_noise_index self' = Some idx
    ∧ some_noise_snippet self' = Some snippets
    ∧ Z.of_nat (length idx)
      = n_by_seg * Z.of_nat (@nb_segment Examples.two_segments)
    ∧ length snippets = length idx
    ∧ (3 `mod` Z.of_nat (@nb_segment Examples.two_segments) ≠ 0 →
       Z.of_nat (length idx) < 3)
    ∧ ∀ (i : nat) (p : Peak),
        idx !! i = Some p →
        label p = @LABEL_NOISE Examples.labelcodes
        ∧ segment p = Z.of_nat i `div` n_by_seg.
Proof.
  split; [by_eval|].
  apply (@extract_some_noise_count unit Examples.two_segments
           Examples.labelcodes (Examples.pick 45) 3
           (Examples.constructor Examples.six_peaks None
              (Examples.window_info (-2) 3 100))
           Examples.noisy_two).
  by_eval.
Defined.

Lemma estimate_signals_noise_check_witness :
  (let self := Examples.chunked_constructor 10 Examples.trim_info in
   @estimate_signals_noise unit Examples.short_dataio Examples.trim_engines
     0 (Examples.double (25 # 1000)) self
   = Raise (AssertionError "duration exeed size"))
  ∧ (let self := Examples.chunked_constructor 1 Examples.trim_info in
     @estimate_signals_noise unit Examples.long_dataio Examples.trim_engines
       0 (Examples.double (57 # 100)) self
     = @estimate_from_prefix unit Examples.long_dataio Examples.trim_engines
         0 5699 self).
Proof.
  split.
  - apply (proj1 (@estimate_signals_noise_check unit Examples.short_dataio
                    Examples.trim_engines 0 (Examples.double (25 # 1000))
                    (Examples.chunked_constructor 10 Examples.trim_info) 25
                    ltac:(by_eval) ltac:(by_eval))).
    by_eval.
  - apply (proj2 (@estimate_signals_noise_check unit Examples.long_dataio
                    Examples.trim_engines 0 (Examples.double (57 # 100))
                    (Examples.chunked_constructor 1 Examples.trim_info) 5699
                    ltac:(by_eval) ltac:(by_eval))).
    by_eval.
Defined.

Lemma make_catalogue_templates_witness :
  let self := Examples.sampled_constructor in
  let cat := Examples.ok_or
               Examples.empty_catalogue
               Examples.sampled_catalogue in
  let C := length (positive_cluster_labels self) in
  catalogue_cluster_labels cat = positive_cluster_labels self
  ∧ has_shape3 C (5 - 4) 1 (centers0 cat)
  ∧ has_shape3 C (5 - 4) 1 (centers1 cat)
  ∧ has_shape3 C (5 - 4) 1 (centers2 cat)
  ∧ has_shape3 C (20 * (5 - 4)) 1 (interp_centers0 cat)
  ∧ ∀ (i : nat) (k : Z),
      positive_cluster_labels self !! i = Some k →
      ∃ t, templates_of 5 1 Examples.three_waveforms self k t
           ∧ centers0 cat !! i = Some (fst (fst (fst t)))
           ∧ centers1 cat !! i = Some (snd (fst (fst t)))
           ∧ centers2 cat !! i = Some (snd (fst t)).
Proof.
  apply (@make_catalogue_templates unit Examples.flat_interpolation
           Examples.labelcodes Examples.plain_palette None
           Examples.sampled_constructor
           (Examples.ok_or Examples.empty_catalogue
              Examples.sampled_catalogue)
           5 1 Examples.three_waveforms); by_eval.
Defined.

(** Three member waveforms whose samples around the trimmed one are
    [(0, 10)], [(5, 6)] and [(9, 9)]: the order-1 template, the median of
    their differences [5], [1/2] and [0], is [1/2], while the difference of
    the median waveform is [(9 - 5) / 2 = 2]. *)
Lemma make_catalogue_median_of_differences :
  ∃ cat,
    Examples.sampled_catalogue = Ok cat
    ∧ centers1 cat = [[[fin (1 # 2)]]]
    ∧ difference_of_median 5 1 Examples.three_waveforms = [[fin (4 # 2)]]
    ∧ centers1 cat ≠ [difference_of_median 5 1 Examples.three_waveforms].
Proof.
  eexists. split_and!; [by vm_compute..|]. vm_compute. discriminate.
Qed.

(* ================================================================== *)
(** * Further properties of the constructor *)

(** ** Rebuild of the cluster table: order, fixed point *)

Lemma StronglySorted_lookup_lt {A} (R : relation A) (l : list A)
    (i j : nat) (a b : A) :
  StronglySorted R l → l !! i = Some a → l !! j = Some b → (i < j)%nat →
  R a b.
Proof.
  intros Hs. revert i j.
  induction Hs as [|x l Hs IH Hall]; intros i j Hi Hj Hlt; [done|].
  destruct i as [|i], j as [|j]; try lia; simpl in *.
  - injection Hi as ->. rewrite Forall_forall in Hall. apply Hall.
    by eapply list_elem_of_lookup_2.
  - apply (IH i j); [done..|lia].
Qed.

Lemma np_unique_increasing (l : list Z) (i j : nat) (a b : Z) :
  np_unique l !! i = Some a → np_unique l !! j = Some b → (i < j)%nat →
  a < b.
Proof.
  intros Hi Hj Hlt.
  assert (a ≤ b) as Hle.
  { eapply (StronglySorted_lookup_lt Z.le); [|done..].
    apply StronglySorted_merge_sort; apply _. }
  assert (a ≠ b) as Hne.
  { intros ->. pose proof (NoDup_lookup _ _ _ _ (NoDup_np_unique l) Hi Hj).
    lia. }
  lia.
Qed.

(** The rows of a rebuilt table come in strictly increasing order of
    [cluster_label] (the order of [np.unique]): the reserved, negative
    labels first, and no label twice. *)
Theorem on_new_cluster_increasing_labels {Projector}
    (self : CatalogueConstructor Projector) (peaks : list Peak) :
  all_peaks self = Some peaks → peaks ≠ [] →
  ∃ tbl, clusters (on_new_cluster self) = Some tbl
    ∧ ∀ (i j : nat) (a b : Cluster),
        tbl !! i = Some a → tbl !! j = Some b → (i < j)%nat →
        cluster_label a < cluster_label b.
Proof.
  intros Hp Hne. exists (new_clusters peaks (clusters self)).
  rewrite (on_new_cluster_nonempty self peaks Hp Hne), clusters_add_array.
  split; [done|]. intros i j a b Hi Hj Hlt.
  apply (np_unique_increasing (label <$> peaks) i j); [| |done];
    rewrite <-(new_clusters_cluster_label peaks (clusters self)),
      list_lookup_fmap; [by rewrite Hi|by rewrite Hj].
Qed.

Lemma set_cell_label_previous (prev : list Cluster) (c : Cluster) :
  set_cell_label (cell_label (previous_cell_label prev c)) c
  = previous_cell_label prev c.
Proof.
  unfold previous_cell_label.
  destruct (list_find _ prev) as [[j r]|]; [done|]. by destruct c.
Qed.

(** Rebuilding from the table that a rebuild has just produced changes
    nothing. *)
Lemma new_clusters_fixpoint (peaks : list Peak) (prev : option (list Cluster)) :
  new_clusters peaks (Some (new_clusters peaks prev)) = new_clusters peaks prev.
Proof.
  set (tbl := new_clusters peaks prev).
  pose proof (new_clusters_cluster_label peaks prev) as Hlab. fold tbl in Hlab.
  set (base := (λ k, mkCluster k k (-1) nan nan (count_label k peaks))
                 <$> np_unique (label <$> peaks)).
  assert (∃ g, tbl = g <$> base
               ∧ ∀ c, cluster_label (g c) = cluster_label c
                      ∧ set_cell_label (cell_label (g c)) c = g c)
    as (g & Htbl & Hg).
  { unfold tbl, new_clusters. fold base. destruct prev as [prev|].
    - exists (previous_cell_label prev). split; [done|]. intros c. split.
      + apply previous_cell_label_fields.
      + apply set_cell_label_previous.
    - exists id. split; [by rewrite list_fmap_id|]. intros c.
      split; [done|]. by destruct c. }
  change (new_clusters peaks (Some tbl)) with (previous_cell_label tbl <$> base).
  rewrite Htbl at 2. apply list_fmap_ext. intros i c Hi.
  assert (tbl !! i = Some (g c)) as Hrow.
  { by rewrite Htbl, list_lookup_fmap, Hi. }
  unfold previous_cell_label.
  destruct (list_find _ tbl) as [[j r]|] eqn:Hfind.
  - apply list_find_Some in Hfind as (Hj & Heq & _).
    assert (j = i) as ->.
    { apply (NoDup_lookup (cluster_label <$> tbl) j i (cluster_label c)).
      - rewrite Hlab. apply NoDup_np_unique.
      - rewrite list_lookup_fmap, Hj. simpl. by rewrite Heq.
      - rewrite list_lookup_fmap, Hrow. simpl. f_equal. apply Hg. }
    rewrite Hrow in Hj. injection Hj as <-. apply Hg.
  - apply list_find_None in Hfind. rewrite Forall_forall in Hfind.
    exfalso. apply (Hfind (g c)).
    + by eapply list_elem_of_lookup_2.
    + symmetry. apply Hg.
Qed.

(** [on_new_cluster] is idempotent: a second rebuild without a change of
    the peak labels leaves the constructor as the first one left it, the
    [cell_label]s included. *)
Theorem on_new_cluster_idempotent {Projector}
    (self : CatalogueConstructor Projector) :
  on_new_cluster (on_new_cluster self) = on_new_cluster self.
Proof.
  unfold on_new_cluster at 2 3.
  destruct (all_peaks self) as [peaks|] eqn:Hp.
  - case_decide as Hlen.
    + unfold on_new_cluster.
      rewrite all_peaks_add_array_clusters, Hp, clusters_add_array.
      rewrite new_clusters_fixpoint, decide_True by done.
      unfold add_array, set_attrs. simpl. by rewrite insert_insert_eq.
    + unfold on_new_cluster. rewrite Hp. by rewrite decide_False.
  - unfold on_new_cluster. by rewrite Hp.
Qed.

(** ** Reordering: the table without a cluster, the new labels, the order *)

Lemma np_reorder_nil {A} (order : list nat) : np_reorder (@nil A) order = [].
Proof.
  unfold np_reorder. induction order as [|i order IH]; [done|].
  by csimpl.
Qed.


Lemma cell_step_columns (rows : list Cluster) (i : nat) :
  cluster_label <$> cell_step rows i = cluster_label <$> rows
  ∧ waveform_rms <$> cell_step rows i = waveform_rms <$> rows.
Proof.
  unfold cell_step. destruct (rows !! i) as [ci|]; [|done].
  destruct (list_find _ rows) as [[first c0]|]; [|done].
  case_decide; [|done]. rewrite <-!list_fmap_compose.
  split; apply list_fmap_ext; intros _ c _; simpl; by case_decide.
Qed.

Lemma cell_loop_columns (steps : list nat) (rows : list Cluster) :
  cluster_label <$> foldl cell_step rows steps = cluster_label <$> rows
  ∧ waveform_rms <$> foldl cell_step rows steps = waveform_rms <$> rows.
Proof.
  revert rows. induction steps as [|i steps IH]; intros rows; [done|].
  cbn [foldl]. destruct (IH (cell_step rows i)) as [-> ->].
  apply cell_step_columns.
Qed.

(** The reordered rows are labelled by their position and keep their rms. *)
Lemma reorder_rows_columns (N : Z) (pos_clusters : list Cluster)
    (order : list nat) :
  cluster_label <$> reorder_rows N pos_clusters order
  = Z.of_nat <$> seq 0 (length (np_reorder pos_clusters order))
  ∧ waveform_rms <$> reorder_rows N pos_clusters order
    = waveform_rms <$> np_reorder pos_clusters order.
Proof.
  unfold reorder_rows. set (rows := np_reorder pos_clusters order).
  match goal with
  | |- context [foldl cell_step ?r ?s] =>
      destruct (cell_loop_columns s r) as [-> ->]
  end.
  split; apply list_eq; intros p;
    rewrite !list_lookup_fmap, list_lookup_imap.
  - destruct (rows !! p) as [a|] eqn:Ha; simpl.
    + apply lookup_lt_Some in Ha. by rewrite lookup_seq_lt.
    + apply lookup_ge_None in Ha. by rewrite lookup_seq_ge.
  - by destruct (rows !! p).
Qed.

Section OrderClustersTable.
Context {Projector : Type} `{!Numerics}.
Implicit Types self : CatalogueConstructor Projector.

(** On a table without any non-negative cluster (as right after peak
    detection, when every peak is unclassified) [order_clusters] fails:
    [max(sorted_labels)] is the maximum of an empty sequence. *)
Theorem order_clusters_without_cluster (by_ : string) self
    (cl : list Cluster) :
  has_centroids self = true ∨ (∃ self0, compute_centroid self = Ok self0) →
  clusters self = Some cl →
  Forall (λ c, cluster_label c < 0) cl →
  by_ = "waveforms_rms" ∨ by_ = "max_peak_amplitude" →
  order_clusters by_ self = Raise ValueError.
Proof.
  intros Hcen Hcl Hneg Hby. unfold order_clusters.
  assert (∃ self0 cl0,
    (if has_centroids self then Ok self else compute_centroid self) = Ok self0
    ∧ clusters self0 = Some cl0
    ∧ Forall (λ c, cluster_label c < 0) cl0)
    as (self0 & cl0 & -> & Hcl0 & Hneg0).
  { destruct (has_centroids self) eqn:Hh; [by exists self, cl|].
    destruct Hcen as [?|[self0 H0]]; [done|].
    destruct (compute_centroid_inv self self0 H0) as [_ Hc].
    destruct (Hc cl Hcl) as (cl0 & Hcl0 & Hkeys).
    exists self0, cl0. split_and!; [done..|].
    apply same_keys_fmap in Hkeys as [Hlab _].
    rewrite Forall_forall. intros c Hc0.
    assert (cluster_label c ∈ cluster_label <$> cl) as Hin.
    { rewrite <-Hlab. apply list_elem_of_fmap. eauto. }
    apply list_elem_of_fmap in Hin as (c' & -> & Hc').
    rewrite Forall_forall in Hneg. by apply Hneg. }
  simpl. rewrite Hcl0. simpl.
  assert (filter (λ c, 0 ≤ cluster_label c) cl0 = []) as ->.
  { clear Hcl0. induction Hneg0 as [|c cl1 Hc _ IH]; [done|].
    by rewrite filter_cons_False by lia. }
  destruct Hby as [-> | ->]; repeat case_decide; try done; simpl;
    by rewrite np_reorder_nil.
Qed.

(** The table that a completed [order_clusters] leaves: the rows of the
    reserved labels, then the reordered rows of the clusters. *)
Lemma order_clusters_rows (by_ : string) self self' (cl : list Cluster) :
  has_centroids self = true → clusters self = Some cl →
  order_clusters by_ self = Ok self' →
  let pos := filter (λ c, 0 ≤ cluster_label c) cl in
  ∃ (order : list nat) (N : Z),
    (by_ = "waveforms_rms"
     → order = reverse (argsort (waveform_rms <$> pos)))
    ∧ (order = reverse (argsort (waveform_rms <$> pos))
       ∨ order = reverse (argsort
                   ((λ c, fabs (max_peak_amplitude c)) <$> pos)))
    ∧ clusters self'
      = Some (filter (λ c, cluster_label c < 0) cl
              ++ reorder_rows N pos order).
Proof.
  intros Hcen Hcl Hrun pos. unfold order_clusters in Hrun.
  rewrite Hcen in Hrun. simpl in Hrun. rewrite Hcl in Hrun. simpl in Hrun.
  fold pos in Hrun.
  match type of Hrun with
  | context [mbind _ ?o] => destruct o as [order|] eqn:Hord
  end; [simpl in Hrun|done].
  destruct (py_max _) as [m|]; [simpl in Hrun|done].
  destruct (subscriptable _) as [peaks|]; [simpl in Hrun|done].
  injection Hrun as <-. exists order, (wrap64 (m * 10)). split_and!.
  - intros ->. rewrite decide_True in Hord by done. by injection Hord as <-.
  - repeat case_decide; try done; injection Hord as <-; eauto.
  - unfold clusters, write_array; simpl. by rewrite lookup_insert_eq.
Qed.

(** After [order_clusters] the table lists the rows of the reserved
    (negative) labels first, as they were, and then the clusters with the
    labels [0, 1, ..., n-1] in this order. *)
Theorem order_clusters_labels_from_zero (by_ : string) self self'
    (cl : list Cluster) :
  (∀ l, argsort l ≡ₚ seq 0 (length l)) →
  has_centroids self = true → clusters self = Some cl →
  order_clusters by_ self = Ok self' →
  ∃ pos',
    clusters self' = Some (filter (λ c, cluster_label c < 0) cl ++ pos')
    ∧ cluster_label <$> pos'
      = Z.of_nat
          <$> seq 0 (length (filter (λ c, 0 ≤ cluster_label c) cl)).
Proof.
  intros Hsort Hcen Hcl Hrun.
  destruct (order_clusters_rows by_ self self' cl Hcen Hcl Hrun)
    as (order & N & _ & Hord & Htbl).
  eexists. split; [exact Htbl|].
  destruct (reorder_rows_columns N
              (filter (λ c, 0 ≤ cluster_label c) cl) order) as [-> _].
  do 2 f_equal. apply Permutation_length, np_reorder_Permutation.
  destruct Hord as [-> | ->];
    by rewrite reverse_Permutation, Hsort, length_fmap.
Qed.

End OrderClustersTable.

(** ** Centroids: what the measure leaves alone *)

Lemma remeasured_refl (cl : list Cluster) : Forall2 remeasured cl cl.
Proof. induction cl; constructor; [by unfold remeasured, same_keys|done]. Qed.

Lemma remeasured_trans (l1 l2 l3 : list Cluster) :
  Forall2 remeasured l1 l2 → Forall2 remeasured l2 l3 →
  Forall2 remeasured l1 l3.
Proof.
  intros H12. revert l3. induction H12 as [|c1 c2 l1 l2 Hc H12 IH];
    intros l3 H23; inversion H23 as [|? c3 ? l3' Hc' H23']; subst;
    constructor; [|by apply IH].
  destruct Hc as [(H1 & H2 & H3) Hn], Hc' as [(H1' & H2' & H3') Hn'].
  split; [unfold same_keys; split_and!; congruence|].
  intros Hneg. rewrite Hn' by lia. by apply Hn.
Qed.

Lemma remeasured_insert (cl : list Cluster) (ind : nat) (c : Cluster)
    (chan : Z) (amp rms : float64) :
  cl !! ind = Some c → 0 ≤ cluster_label c →
  Forall2 remeasured cl (<[ind := set_centroid_fields chan amp rms c]> cl).
Proof.
  revert ind. induction cl as [|c0 cl IH]; intros [|ind] Hc Hnon; try done.
  - simpl in Hc. injection Hc as ->. constructor; [|apply remeasured_refl].
    split; [done|]. lia.
  - simpl. constructor; [by split|by apply IH].
Qed.

Section ComputeCentroidFrame.
Context {Projector : Type} `{!Numerics}.
Implicit Types self : CatalogueConstructor Projector.

Lemma centroid_frame_refl self : centroid_frame self self.
Proof. split_and!; try done. intros cl Hcl. eauto using remeasured_refl. Qed.

Lemma centroid_frame_trans self1 self2 self3 :
  centroid_frame self1 self2 → centroid_frame self2 self3 →
  centroid_frame self1 self3.
Proof.
  intros (Ha12 & Hi12 & Hc12) (Ha23 & Hi23 & Hc23). split_and!.
  - intros name Hne. by rewrite Ha23, Ha12.
  - congruence.
  - intros cl Hcl. destruct (Hc12 cl Hcl) as (cl2 & Hcl2 & H12).
    destruct (Hc23 cl2 Hcl2) as (cl3 & Hcl3 & H23).
    eauto using remeasured_trans.
Qed.

Lemma centroid_one_frame (wfs : list (list (list Q))) (n_left : Z)
    self (k : Z) self' :
  centroid_one wfs n_left self k = Ok self' →
  has_centroids self' = has_centroids self ∧ centroid_frame self self'.
Proof.
  unfold centroid_one. case_decide as Hk.
  { intros [= <-]. split; [done|apply centroid_frame_refl]. }
  destruct (sample_labels self) as [labels|]; [simpl|done].
  destruct (np_mask_select _ wfs) as [wf|]; [simpl|done].
  destruct (centroid_stats wf n_left) as [[[chan amp] rms]|]; [simpl|done].
  destruct (clusters self) as [cl|] eqn:Hcl; [simpl|done].
  destruct (list_find _ cl) as [[ind c]|] eqn:Hfind; [|done].
  intros [= <-]. apply list_find_Some in Hfind as (Hind & Hlab & _).
  split; [done|]. split_and!.
  - intros name Hne. unfold write_array; simpl. by rewrite lookup_insert_ne.
  - done.
  - intros cl0 Hcl0. rewrite Hcl in Hcl0. injection Hcl0 as <-.
    eexists. split.
    + unfold clusters, write_array; simpl. by rewrite lookup_insert_eq.
    + apply remeasured_insert; [done|lia].
Qed.

(** [compute_centroid] only fills in the measured columns of the clusters:
    afterwards the centroids count as computed, every attribute but the
    cluster table and the recorded parameters are as before, every row of
    the table keeps its [cluster_label], [cell_label] and [nb_peak], and the
    rows of the reserved (negative) labels are untouched. *)
Theorem compute_centroid_frame self self' :
  compute_centroid self = Ok self' →
  has_centroids self' = true ∧ centroid_frame self self'.
Proof.
  unfold compute_centroid.
  assert (centroid_frame self (set_has_centroids true self)) as H0.
  { split_and!; try done. intros cl Hcl. eauto using remeasured_refl. }
  destruct (attrs (set_has_centroids true self) !! "some_waveforms")
    as [[| | | | |w c wfs]|]; try (intros [= <-]; done).
  destruct (getitem _ _) as [wfp|]; [simpl|done].
  intros Hloop.
  apply (foldlM_inv (λ s s', has_centroids s' = has_centroids s
                             ∧ centroid_frame s s')) in Hloop.
  - destruct Hloop as [-> Hframe]. split; [done|].
    exact (centroid_frame_trans _ _ _ H0 Hframe).
  - intros s. split; [done|apply centroid_frame_refl].
  - intros s1 s2 s3 [H12 F12] [H23 F23]. split; [congruence|].
    by eapply centroid_frame_trans.
  - intros s k s'. apply centroid_one_frame.
Qed.
End ComputeCentroidFrame.

(** ** Peak detection: the table that the loops build *)

Lemma foldlM_seq_inv {B} (P : nat → B → Prop) (f : B → nat → result B)
    (s n : nat) (b b' : B) :
  P s b →
  (∀ i x x', (s ≤ i < s + n)%nat → P i x → f x i = Ok x' → P (S i) x') →
  foldlM f (seq s n) b = Ok b' → P (s + n)%nat b'.
Proof.
  revert s b. induction n as [|n IH]; intros s b Hb Hstep; simpl.
  - intros [= <-]. by rewrite Nat.add_0_r.
  - destruct (f b s) as [b1|] eqn:H1; [simpl|done]. intros Hrest.
    replace (s + S n)%nat with (S s + n)%nat by lia.
    apply (IH (S s) b1); [|intros i x x' Hi; apply Hstep; lia|done].
    apply (Hstep s b b1); [lia|done..].
Qed.

Section DetectedPeaks.
Context {Projector : Type} `{!DataIO, !Engines, !LabelCodes, !EngineNames}.
Implicit Types self : CatalogueConstructor Projector.

Lemma detected_upto_nil (k : Z) : detected_upto k [].
Proof. split; constructor. Qed.

Lemma detected_upto_mono (k k' : Z) (a : list Peak) :
  k ≤ k' → detected_upto k a → detected_upto k' a.
Proof.
  intros Hk [Hall Hs]. split; [|done].
  eapply Forall_impl; [done|]. intros p [? ?]. split; [done|lia].
Qed.

Lemma detected_upto_chunk (k : Z) (a : list Peak) (chunk_peaks : list Z) :
  0 ≤ k → detected_upto (k + 1) a →
  detected_upto (k + 1) (a ++ new_peaks k chunk_peaks).
Proof.
  intros Hk [Hall Hs].
  assert (Forall (λ p, label p = LABEL_UNCLASSIFIED ∧ segment p = k)
            (new_peaks k chunk_peaks)) as Hnew.
  { unfold new_peaks. apply Forall_fmap, Forall_forall. by intros i _. }
  split.
  - apply Forall_app. split; [done|].
    eapply Forall_impl; [done|]. intros p [? ->]. split; [done|lia].
  - apply StronglySorted_app_2; [|done|].
    + intros p q Hp Hq. rewrite Forall_forall in Hall, Hnew.
      destruct (Hall p Hp) as [_ ?], (Hnew q Hq) as [_ ->]. lia.
    + clear Hall Hs. induction Hnew as [|p l [_ Hp] Hl IH]; constructor;
        [done|].
      eapply Forall_impl; [done|]. intros q [_ ->]. lia.
Qed.

Lemma append_chunk_extends (a0 : list Peak) (k : Z) (chunk_peaks : list Z)
    self self' :
  0 ≤ k → extends_table a0 (k + 1) self →
  append_chunk "all_peaks" (new_peaks k chunk_peaks) self = Ok self' →
  extends_table a0 (k + 1) self'.
Proof.
  intros Hk (new & Ha & Hnew). unfold append_chunk. rewrite Ha.
  intros [= <-]. exists (new ++ new_peaks k chunk_peaks). split.
  - simpl. by rewrite lookup_insert_eq, app_assoc.
  - by apply detected_upto_chunk.
Qed.

Lemma re_detect_one_segment_extends (a0 : list Peak) (cs : Z) self
    (seg_num : nat) self' :
  extends_table a0 (Z.of_nat seg_num) self →
  re_detect_one_segment cs self seg_num = Ok self' →
  extends_table a0 (Z.of_nat (S seg_num)) self'.
Proof.
  intros (new & Ha & Hnew). unfold re_detect_one_segment.
  match goal with
  | |- context [foldlM ?f ?l ?b] => destruct (foldlM f l b) as [st|] eqn:Hloop
  end; [simpl|done].
  intros [= <-]. replace (Z.of_nat (S seg_num)) with (Z.of_nat seg_num + 1) by lia.
  revert Hloop. generalize (pd_change_params (params_peakdetector self)).
  assert (extends_table a0 (Z.of_nat seg_num + 1) self) as Hext.
  { exists new. split; [done|]. eapply detected_upto_mono; [|done]. lia. }
  clear Ha Hnew. revert self Hext.
  induction (iter_over_chunk _ _ _ _) as [|pc chunks IH];
    intros self Hext pd; simpl.
  - by intros [= <-].
  - unfold re_detect_one_chunk at 1.
    destruct (pd_process_data pd _ _) as [pd' [n [chunk_peaks|]]];
      [|simpl; by apply IH].
    destruct (append_chunk _ _ self) as [self1|] eqn:Happ; [simpl|done].
    apply IH. eapply append_chunk_extends; [|done..]. lia.
Qed.

Lemma run_one_segment_extends (a0 : list Peak) (duration : Q)
    (detect_peak : bool) self (seg_num : nat) self' :
  extends_table a0 (Z.of_nat seg_num) self →
  run_signalprocessor_loop_one_segment duration detect_peak self seg_num
  = Ok self' →
  extends_table a0 (Z.of_nat (S seg_num)) self'.
Proof.
  intros (new & Ha & Hnew). unfold run_signalprocessor_loop_one_segment.
  destruct (py_int _) as [requested|] eqn:Hrequested; [simpl|done].
  case_decide; [done|].
  match goal with
  | |- context [foldlM ?f ?l ?b] => destruct (foldlM f l b) as [st|] eqn:Hloop
  end; [simpl|done].
  intros [= <-]. replace (Z.of_nat (S seg_num)) with (Z.of_nat seg_num + 1) by lia.
  revert Hloop.
  match goal with
  | |- context [foldlM _ ?l (?s0, ?sp0, ?pd0)] =>
      assert (extends_table a0 (Z.of_nat seg_num + 1) s0) as Hext;
      [|revert Hext; generalize s0 sp0 pd0 l]
  end.
  { exists new. split; [done|]. eapply detected_upto_mono; [|done]. lia. }
  clear Ha Hnew. intros s0 sp pd chunks. revert s0 sp pd.
  induction chunks as [|pc chunks IH]; intros s0 sp pd Hext; simpl.
  - by intros [= <-].
  - unfold signalprocessor_one_chunk at 1.
    destruct (sp_process_data sp _ _) as [sp' [pos2 [pre|]]];
      [|simpl; by apply IH].
    destruct detect_peak; [|simpl; by apply IH].
    destruct (pd_process_data pd pos2 pre) as [pd' [n [chunk_peaks|]]];
      [|simpl; by apply IH].
    destruct (append_chunk _ _ s0) as [s1|] eqn:Happ; [simpl|done].
    apply IH. eapply append_chunk_extends; [|done..]. lia.
Qed.

Lemma re_detect_peak_inv (peakdetector_engine : string)
    (params : PeakDetectorParams) self self' :
  re_detect_peak peakdetector_engine params self = Ok self' →
  ∃ self1,
    same_except_peaks self self1
    ∧ extends_table [] (Z.of_nat nb_segment) self1
    ∧ self' = on_new_cluster (_reset_waveform_and_features self1).
Proof.
  unfold re_detect_peak. intros Hrun.
  destruct (lookup_name _ _) as [[]|]; [simpl in Hrun|done].
  destruct (getitem "chunksize" _) as [cs|]; [simpl in Hrun|done].
  destruct (getitem "internal_dtype" _) as [dtype|]; [simpl in Hrun|done].
  match type of Hrun with
  | context [foldlM ?f ?l ?b] =>
      destruct (foldlM f l b) as [self1|] eqn:Hloop
  end; [simpl in Hrun|done].
  unfold finalize_array in Hrun.
  destruct (attrs self1 !! "all_peaks"); [simpl in Hrun|done].
  injection Hrun as <-. exists self1. split_and!; [| |done].
  - apply (foldlM_inv same_except_peaks) in Hloop.
    + intros name Hne. rewrite (Hloop name Hne). simpl.
      by rewrite lookup_insert_ne.
    + apply same_except_peaks_refl.
    + apply same_except_peaks_trans.
    + intros ???. apply re_detect_one_segment_same.
  - apply (foldlM_seq_inv (λ k s, extends_table [] (Z.of_nat k) s)) in Hloop;
      [done| |].
    + exists []. split; [|apply detected_upto_nil].
      unfold initialize_array. simpl. by rewrite lookup_insert_eq.
    + intros i s s' _. apply re_detect_one_segment_extends.
Qed.

Lemma detection_tail_all_peaks self1 :
  all_peaks (on_new_cluster (_reset_waveform_and_features self1))
  = all_peaks self1.
Proof.
  rewrite all_peaks_on_new_cluster. unfold all_peaks.
  by rewrite reset_lookup.
Qed.

(** The peak table that [re_detect_peak] leaves holds freshly detected peaks
    only: every record is unclassified, belongs to one of the segments of
    the dataset, and the records come segment after segment. *)
Theorem re_detect_peak_table (peakdetector_engine : string)
    (params : PeakDetectorParams) self self' :
  re_detect_peak peakdetector_engine params self = Ok self' →
  ∃ peaks, all_peaks self' = Some peaks
    ∧ Forall (λ p, label p = LABEL_UNCLASSIFIED
                   ∧ 0 ≤ segment p < Z.of_nat nb_segment) peaks
    ∧ ∀ (i j : nat) (a b : Peak),
        peaks !! i = Some a → peaks !! j = Some b → (i < j)%nat →
        segment a ≤ segment b.
Proof.
  intros (self1 & _ & (new & Ha & Hall & Hs) & ->)%re_detect_peak_inv.
  exists new. rewrite detection_tail_all_peaks. unfold all_peaks.
  rewrite Ha. split_and!; [done..|].
  intros i j a b Hi Hj Hlt.
  by apply (StronglySorted_lookup_lt _ new i j a b Hs).
Qed.

Lemma np_unique_constant (l : list Z) (u : Z) :
  Forall (λ x, x = u) l → l ≠ [] → np_unique l = [u].
Proof.
  intros Hall Hne. rewrite Forall_forall in Hall.
  pose proof (NoDup_np_unique l) as Hnd.
  assert (∀ x, x ∈ np_unique l → x = u) as Hu.
  { intros x Hx. by apply Hall, elem_of_np_unique. }
  destruct (np_unique l) as [|x [|y r]] eqn:Hl.
  - by apply np_unique_nil_inv in Hl.
  - f_equal. apply Hu. left.
  - exfalso. apply NoDup_cons in Hnd as [Hnin _]. apply Hnin.
    rewrite (Hu x), (Hu y); [left|right; left|left].
Qed.

(** After [re_detect_peak] has found at least one peak, the cluster table
    has a single row: the one of the unclassified label, which counts all
    the peaks. *)
Theorem re_detect_peak_one_cluster (peakdetector_engine : string)
    (params : PeakDetectorParams) self self'
    (peaks : list Peak) :
  re_detect_peak peakdetector_engine params self = Ok self' →
  all_peaks self' = Some peaks → peaks ≠ [] →
  ∃ c, clusters self' = Some [c]
       ∧ cluster_label c = LABEL_UNCLASSIFIED
       ∧ nb_peak c = Z.of_nat (length peaks).
Proof.
  intros (self1 & Hsame & (new & Ha & Hall & _) & ->)%re_detect_peak_inv Hp Hne.
  destruct (reset_then_rebuild self self1 Hsame) as (_ & _ & Htbl & _).
  rewrite (Htbl peaks Hp Hne).
  rewrite detection_tail_all_peaks in Hp. unfold all_peaks in Hp.
  rewrite Ha in Hp. injection Hp as ->.
  set (tbl := new_clusters peaks (clusters self)).
  assert (cluster_label <$> tbl = [LABEL_UNCLASSIFIED]) as Hlab.
  { unfold tbl. rewrite new_clusters_cluster_label.
    apply np_unique_constant; [|by destruct peaks].
    apply Forall_fmap. eapply Forall_impl; [done|]. by intros p [? _]. }
  destruct tbl as [|c [|c' tbl']] eqn:Htbl'; try done.
  injection Hlab as Hlab. exists c. split_and!; [done..|].
  rewrite (new_clusters_row peaks (clusters self) c)
    by (fold tbl; rewrite Htbl'; left).
  rewrite Hlab. unfold count_label. do 2 f_equal.
  clear -Hall. induction Hall as [|p l [Hp _] _ IH]; [done|].
  by rewrite filter_cons_True, IH.
Qed.

Lemma truncation_multiple (a c : Z) : (a - a `mod` c) `mod` c = 0.
Proof.
  destruct (decide (c = 0)) as [->|Hc].
  - rewrite !Z.mod_0_r. lia.
  - rewrite (Z.div_mod a c) at 1 by done.
    replace (c * (a `div` c) + a `mod` c - a `mod` c) with (a `div` c * c)
      by lia.
    by apply Z.mod_mul.
Qed.

Lemma info_detection_tail self1 :
  info (on_new_cluster (_reset_waveform_and_features self1)) = info self1.
Proof.
  unfold on_new_cluster. destruct (all_peaks _); [|done].
  by case_decide.
Qed.

Lemma append_chunk_settings (peaks : list Peak) self self' :
  append_chunk "all_peaks" peaks self = Ok self' →
  info self' = info self ∧ chunksize self' = chunksize self.
Proof.
  unfold append_chunk.
  destruct (attrs self !! "all_peaks") as [[a| | | | |]|]; try done.
  by intros [= <-].
Qed.

Lemma signalprocessor_loop_settings (seg_num : Z) (detect_peak : bool)
    (chunks : list (Z * list (list Q)))
    (st st' : CatalogueConstructor Projector * signalpreprocessor * peakdetector) :
  foldlM (signalprocessor_one_chunk seg_num detect_peak) chunks st = Ok st' →
  info (fst (fst st')) = info (fst (fst st))
  ∧ chunksize (fst (fst st')) = chunksize (fst (fst st))
  ∧ (detect_peak = false →
     attrs (fst (fst st')) = attrs (fst (fst st))).
Proof.
  apply (foldlM_inv (λ st st',
    info (fst (fst st')) = info (fst (fst st))
    ∧ chunksize (fst (fst st')) = chunksize (fst (fst st))
    ∧ (detect_peak = false → attrs (fst (fst st')) = attrs (fst (fst st))))).
  - done.
  - intros s1 s2 s3 (? & ? & H12) (? & ? & H23). split_and!; try congruence.
    intros Hd. by rewrite H23, H12.
  - intros [[s sp] pd] pc [[s' sp'] pd']. unfold signalprocessor_one_chunk.
    destruct (sp_process_data sp _ _) as [sp1 [pos2 [pre|]]];
      [|by intros [= <- _ _]].
    destruct detect_peak; [|by intros [= <- _ _]].
    destruct (pd_process_data pd pos2 pre) as [pd1 [n [chunk_peaks|]]];
      [|by intros [= <- _ _]].
    destruct (append_chunk _ _ s) as [s1|] eqn:Happ; [simpl|done].
    intros [= <- _ _]. simpl.
    by destruct (append_chunk_settings _ _ _ Happ) as [-> ->].
Qed.

(** The length recorded by [run_signalprocessor] is the one of the last
    segment (each segment overwrites the entry): the requested number of
    samples [int(duration*sample_rate)], the truncation of the float
    product, capped by the length of that segment and rounded down to a
    whole number of chunks. *)
Theorem run_signalprocessor_processed_length (duration : Q)
    (detect_peak : bool) self self' (last : nat) :
  nb_segment = S last →
  run_signalprocessor duration detect_peak self = Ok self' →
  ∃ requested length : Z,
    py_int (float_mul duration sample_rate) = Ok requested
    ∧ processed_length (info self') = Some length
    ∧ let available :=
        Z.min requested (get_segment_length (Z.of_nat last)) in
      length = available - available `mod` chunksize self
      ∧ length `mod` chunksize self = 0
      ∧ (0 < chunksize self →
         length ≤ available < length + chunksize self).
Proof.
  intros Hseg Hrun. unfold run_signalprocessor in Hrun.
  match type of Hrun with
  | context [foldlM ?f ?l ?b] =>
      destruct (foldlM f l b) as [self1|] eqn:Hloop
  end; [simpl in Hrun|done].
  unfold finalize_signalprocessor_loop, finalize_array in Hrun.
  destruct (attrs self1 !! "all_peaks"); [simpl in Hrun|done].
  injection Hrun as <-. rewrite info_detection_tail.
  assert (∃ requested, py_int (float_mul duration sample_rate) = Ok requested)
    as [requested Hrequested].
  { destruct (py_int (float_mul duration sample_rate)) as [requested|e]
      eqn:Hrequested; [eauto|]. exfalso.
    rewrite Hseg in Hloop. simpl in Hloop.
    destruct (run_signalprocessor_loop_one_segment duration detect_peak self 0)
      as [s|] eqn:Hone; [|done].
    unfold run_signalprocessor_loop_one_segment in Hone.
    by rewrite Hrequested in Hone. }
  exists requested.
  set (len := λ k : nat,
    let a := Z.min requested (get_segment_length (Z.of_nat k)) in
    a - a `mod` chunksize self).
  apply (foldlM_seq_inv (λ k s,
           chunksize s = chunksize self
           ∧ ∀ k', k = S k' → processed_length (info s) = Some (len k')))
    in Hloop.
  - destruct Hloop as [Hcs Hlen]. rewrite Hseg in Hlen.
    specialize (Hlen last eq_refl). exists (len last).
    split; [done|]. split; [done|]. cbv zeta. split_and!; [done| |].
    + unfold len. cbv zeta. apply truncation_multiple.
    + intros Hpos. unfold len. cbv zeta.
      pose proof (Z.mod_pos_bound
                    (Z.min requested (get_segment_length (Z.of_nat last)))
                    (chunksize self) Hpos). lia.
  - split; [done|]. intros k' Hk'. lia.
  - intros i s s' _ [Hcs _]. unfold run_signalprocessor_loop_one_segment.
    rewrite Hrequested. simpl.
    case_decide; [done|].
    match goal with
    | |- context [foldlM ?f ?l ?b] => destruct (foldlM f l b) as [st|] eqn:Hin
    end; [simpl|done].
    intros [= <-].
    apply signalprocessor_loop_settings in Hin as (-> & -> & _). simpl.
    split; [done|]. intros k' [= <-]. unfold len. cbv zeta.
    by rewrite Hcs.
Qed.

Lemma run_signalprocessor_fresh_table (duration : Q) (detect_peak : bool)
    self self' :
  attrs self !! "all_peaks" = Some (PeakArray []) →
  run_signalprocessor duration detect_peak self = Ok self' →
  ∃ peaks, all_peaks self' = Some peaks
    ∧ Forall (λ p, label p = LABEL_UNCLASSIFIED
                   ∧ 0 ≤ segment p < Z.of_nat nb_segment) peaks
    ∧ ∀ (i j : nat) (a b : Peak),
        peaks !! i = Some a → peaks !! j = Some b → (i < j)%nat →
        segment a ≤ segment b.
Proof.
  intros Hfresh Hrun. unfold run_signalprocessor in Hrun.
  match type of Hrun with
  | context [foldlM ?f ?l ?b] =>
      destruct (foldlM f l b) as [self1|] eqn:Hloop
  end; [simpl in Hrun|done].
  unfold finalize_signalprocessor_loop, finalize_array in Hrun.
  destruct (attrs self1 !! "all_peaks"); [simpl in Hrun|done].
  injection Hrun as <-.
  apply (foldlM_seq_inv (λ k s, extends_table [] (Z.of_nat k) s)) in Hloop.
  - destruct Hloop as (new & Ha & Hall & Hs). exists new.
    rewrite detection_tail_all_peaks. unfold all_peaks. rewrite Ha.
    split_and!; [done..|]. intros i j a b Hi Hj Hlt.
    by apply (StronglySorted_lookup_lt _ new i j a b Hs).
  - exists []. split; [done|apply detected_upto_nil].
  - intros i s s' _. apply run_one_segment_extends.
Qed.

(** On a freshly initialised peak table, [run_signalprocessor] leaves a
    table of unclassified records, each of one of the segments of the
    dataset, that come segment after segment. *)
Theorem run_signalprocessor_table (duration : Q) (detect_peak : bool)
    self self' :
  attrs self !! "all_peaks" = Some (PeakArray []) →
  run_signalprocessor duration detect_peak self = Ok self' →
  ∃ peaks, all_peaks self' = Some peaks
    ∧ Forall (λ p, label p = LABEL_UNCLASSIFIED
                   ∧ 0 ≤ segment p < Z.of_nat nb_segment) peaks
    ∧ ∀ (i j : nat) (a b : Peak),
        peaks !! i = Some a → peaks !! j = Some b → (i < j)%nat →
        segment a ≤ segment b.
Proof. apply run_signalprocessor_fresh_table. Qed.

(** Without peak detection ([detect_peak=False]) [run_signalprocessor]
    leaves the peak table as it was. *)
Theorem run_signalprocessor_without_detection (duration : Q) self self' :
  run_signalprocessor duration false self = Ok self' →
  all_peaks self' = all_peaks self.
Proof.
  intros Hrun. unfold run_signalprocessor in Hrun.
  match type of Hrun with
  | context [foldlM ?f ?l ?b] =>
      destruct (foldlM f l b) as [self1|] eqn:Hloop
  end; [simpl in Hrun|done].
  unfold finalize_signalprocessor_loop, finalize_array in Hrun.
  destruct (attrs self1 !! "all_peaks"); [simpl in Hrun|done].
  injection Hrun as <-. rewrite detection_tail_all_peaks.
  apply (foldlM_inv (λ s s', all_peaks s' = all_peaks s)) in Hloop;
    [done|done|congruence|].
  intros s seg_num s'. unfold run_signalprocessor_loop_one_segment.
  destruct (py_int _) as [requested|] eqn:Hrequested; [simpl|done].
  case_decide; [done|].
  match goal with
  | |- context [foldlM ?f ?l ?b] => destruct (foldlM f l b) as [st|] eqn:Hin
  end; [simpl|done].
  intros [= <-].
  apply signalprocessor_loop_settings in Hin as (_ & _ & Hattrs).
  unfold all_peaks. by rewrite (Hattrs eq_refl).
Qed.
End DetectedPeaks.

(** ** Noise sampler: where the snippets are read *)

Lemma np_getitem_elem {A} (a : list A) (i : Z) (x : A) :
  np_getitem a i = Ok x → x ∈ a.
Proof.
  unfold np_getitem. cbv zeta. case_decide; [|done].
  destruct (a !! _) as [y|] eqn:Hy; [|done].
  intros [= <-]. by eapply list_elem_of_lookup_2.
Qed.

Lemma np_take_elem {A} (a : list A) (idx : list Z) (out : list A) :
  np_take a idx = Ok out → Forall (λ x, x ∈ a) out.
Proof.
  unfold np_take. intros (ts & -> & Hall)%foldlM_snoc_spec. simpl.
  induction Hall as [|i x idx ts Hx _ IH]; constructor; [|done].
  by eapply np_getitem_elem.
Qed.

Lemma np_nonzero_true (mask : list bool) (x : Z) :
  x ∈ np_nonzero mask → 0 ≤ x ∧ mask !! Z.to_nat x = Some true.
Proof.
  unfold np_nonzero. intros (o & Ho & Hx)%list_elem_of_omap.
  apply list_elem_of_lookup_1 in Ho as [i Hi].
  rewrite list_lookup_imap in Hi.
  destruct (mask !! i) as [b|] eqn:Hb; [|done].
  destruct b; simpl in *; [|congruence].
  injection Hi as <-. simpl in Hx. injection Hx as <-.
  split; [lia|]. by rewrite Nat2Z.id.
Qed.

(** The samples that the mask leaves eligible keep a margin of one window
    width from both ends. *)
Lemma possibles_mask_margin (length peak_width n_left n_right : Z)
    (peaks : list Peak) (i : nat) :
  0 < peak_width →
  possibles_mask length peak_width n_left n_right peaks !! i = Some true →
  peak_width ≤ Z.of_nat i < length - peak_width.
Proof.
  intros Hw. rewrite possibles_mask_ignores_peaks.
  unfold possibles_mask, slice_assign, slice_bound. cbn [foldl].
  rewrite !list_lookup_imap.
  destruct (replicate (Z.to_nat length) true !! i) as [b|] eqn:Hb;
    [|done].
  apply lookup_replicate in Hb as [-> Hi]. simpl.
  rewrite (decide_False (P := peak_width < 0)) by lia.
  rewrite (decide_True (P := - peak_width < 0)) by lia.
  repeat case_decide; try done; intros _; lia.
Qed.

Section NoiseMargin.
Context {Projector : Type} `{!DataIO, !LabelCodes, !RandomState}.
Implicit Types self : CatalogueConstructor Projector.

Lemma noise_index_one_segment_margin (n_left n_right n_by_seg : Z) self
    (seg_num : nat) (block : list Peak) (length : Z) :
  processed_length (info self) = Some length → n_left < n_right →
  noise_index_one_segment n_left n_right n_by_seg self seg_num = Ok block →
  Forall (λ p, n_right - n_left ≤ index p < length - (n_right - n_left))
    block.
Proof.
  intros Hlen Hw. unfold noise_index_one_segment. rewrite Hlen. simpl.
  case_decide; [done|].
  destruct (subscriptable _) as [peaks|]; [simpl|done].
  case_decide; [done|].
  destruct (random_choice _ _ _) as [choice|]; [simpl|done].
  destruct (np_take _ _) as [idx|] eqn:Htake; [simpl|done].
  case_decide; [|done]. intros [= <-].
  apply np_take_elem in Htake. apply Forall_fmap.
  eapply Forall_impl; [done|]. intros x [Hx Hmask]%np_nonzero_true. simpl.
  apply possibles_mask_margin in Hmask; lia.
Qed.

(** Every noise record that [extract_some_noise] persists keeps a margin of
    one window width from both ends of the processed prefix of the signal:
    with [n_left <= 0 <= n_right] its window lies within the prefix. *)
Theorem extract_some_noise_margin (nb_snippet : Z) self self'
    (wfp : WaveformExtractorParams) (length : Z) :
  params_waveformextractor (info self) = Some wfp →
  processed_length (info self) = Some length →
  n_left wfp < n_right wfp →
  extract_some_noise nb_snippet self = Ok self' →
  ∃ idx, some_noise_index self' = Some idx
    ∧ Forall (λ p,
        n_right wfp - n_left wfp ≤ index p
        ∧ index p < length - (n_right wfp - n_left wfp)
        ∧ (n_left wfp ≤ 0 ≤ n_right wfp →
           0 ≤ index p + n_left wfp ∧ index p + n_right wfp ≤ length)) idx.
Proof.
  intros Hwfp Hlen Hw. unfold extract_some_noise. rewrite Hwfp. simpl.
  case_decide as Hseg; [done|].
  match goal with
  | |- context [foldlM ?f ?l ?b] =>
      destruct (foldlM f l b) as [idx|] eqn:Hidx
  end; [simpl|done].
  destruct (getitem _ _) as [dtype|]; [simpl|done].
  case_decide; [done|].
  match goal with
  | |- context [foldlM ?f ?l ?b] =>
      destruct (foldlM f l b) as [snippets|] eqn:Hsn
  end; [simpl|done].
  intros [= <-]. exists idx. split.
  { unfold some_noise_index, add_array; simpl.
    by rewrite lookup_insert_ne, lookup_insert_eq. }
  assert (Forall (λ p, n_right wfp - n_left wfp ≤ index p
                       < length - (n_right wfp - n_left wfp)) idx) as Hall.
  { revert Hidx. generalize (seq 0 nb_segment) as segs.
    assert (Forall (λ p, n_right wfp - n_left wfp ≤ index p
                         < length - (n_right wfp - n_left wfp))
              (@nil Peak)) as Hacc by constructor.
    revert Hacc. generalize (@nil Peak) as acc. intros acc Hacc segs.
    revert acc Hacc. induction segs as [|seg segs IH]; intros acc Hacc; simpl.
    - by intros [= <-].
    - destruct (noise_index_one_segment _ _ _ _ seg) as [block|] eqn:Hb;
        [simpl|done].
      apply IH. apply Forall_app. split; [done|].
      by eapply noise_index_one_segment_margin. }
  eapply Forall_impl; [done|]. intros p Hp. simpl in Hp. lia.
Qed.
End NoiseMargin.

(** ** Noise estimation: what a completed call persists *)

Lemma np_median_nonneg (l : list Q) :
  Forall (λ q, (0 <= q)%Q) l →
  match np_median l with nan => True | fin q => (0 <= q)%Q end.
Proof.
  intros Hall. unfold np_median. cbv zeta.
  set (s := merge_sort Qle l).
  assert (Forall (λ q, (0 <= q)%Q) s) as Hs.
  { unfold s. by rewrite merge_sort_Permutation. }
  rewrite Forall_forall in Hs.
  destruct (s !! (length s / 2)%nat) as [hi|] eqn:Hhi; [|done].
  assert (0 <= hi)%Q as H1 by (eapply Hs, list_elem_of_lookup_2; done).
  destruct (Nat.even (length s)); [|done].
  destruct (s !! (length s / 2 - 1)%nat) as [lo|] eqn:Hlo; [|done].
  assert (0 <= lo)%Q as H2 by (eapply Hs, list_elem_of_lookup_2; done).
  unfold Qdiv. apply Qmult_le_0_compat; [|done].
  replace 0%Q with (0 + 0)%Q by done. by apply Qplus_le_compat.
Qed.

Lemma np_mad_axis0_spec (nchan : nat) (a : list (list Q)) :
  length (np_mad_axis0 nchan a) = nchan
  ∧ Forall (λ x, match x with nan => True | fin q => (0 <= q)%Q end)
      (np_mad_axis0 nchan a).
Proof.
  unfold np_mad_axis0. split; [by rewrite length_fmap, length_seq|].
  apply Forall_fmap, Forall_forall. intros c _. simpl.
  destruct (np_median (column c a)) as [|m]; [done|].
  pose proof (np_median_nonneg ((λ x, Qabs (x - m)) <$> column c a)) as Hd.
  destruct (np_median _) as [|d]; [done|].
  apply Qmult_le_0_compat; [|done].
  apply Hd, Forall_fmap, Forall_forall. intros x _. apply Qabs_nonneg.
Qed.

Section NoiseStatistics.
Context {Projector : Type} `{!DataIO, !Engines}.
Implicit Types self : CatalogueConstructor Projector.

(** A completed [estimate_signals_noise] persists one median and one spread
    per channel, no spread being negative, and changes nothing else: the
    other arrays and the recorded parameters are as before. *)
Theorem estimate_signals_noise_statistics (seg_num : Z) (duration : Q)
    self self' :
  estimate_signals_noise seg_num duration self = Ok self' →
  ∃ medians mads,
    attrs self' !! "signals_medians" = Some (FloatArray1 medians)
    ∧ attrs self' !! "signals_mads" = Some (FloatArray1 mads)
    ∧ length medians = nb_channel ∧ length mads = nb_channel
    ∧ Forall (λ x, match x with nan => True | fin q => (0 <= q)%Q end) mads
    ∧ (∀ name, name ≠ "signals_medians" → name ≠ "signals_mads" →
         attrs self' !! name = attrs self !! name)
    ∧ info self' = info self.
Proof.
  unfold estimate_signals_noise.
  destruct (py_int _) as [requested|]; [simpl|done]. case_decide; [done|].
  destruct (assert _ _) as [[]|]; [simpl|done].
  unfold estimate_from_prefix.
  destruct (params_signalpreprocessor (info self)) as [spp|]; [simpl|done].
  destruct (getitem _ _) as [dtype|]; [simpl|done].
  case_decide; [done|].
  match goal with
  | |- context [foldlM ?f ?l ?b] =>
      destruct (foldlM f l b) as [[[sp sigs] [pos2|]]|]
  end; try done. simpl. intros [= <-].
  destruct (np_mad_axis0_spec nb_channel (np_slice 0 pos2 sigs))
    as [Hlen Hnon].
  eexists _, _. split_and!.
  - unfold add_array; simpl. by rewrite lookup_insert_ne, lookup_insert_eq.
  - unfold add_array; simpl. by rewrite lookup_insert_eq.
  - unfold np_median_axis0. by rewrite length_fmap, length_seq.
  - done.
  - done.
  - intros name Hn1 Hn2. unfold add_array; simpl.
    by rewrite !lookup_insert_ne.
  - done.
Qed.
End NoiseStatistics.

(** ** Catalogue builder: index, peak channel, clusters without a sample *)

Lemma float64_le_refl (x : float64) : float64_le x x.
Proof. destruct x; [done|]. apply Qle_refl. Qed.

Lemma float64_le_trans (x y z : float64) :
  float64_le x y → float64_le y z → float64_le x z.
Proof.
  destruct x, y, z; simpl; try done. apply Qle_trans.
Qed.

Lemma argmax_step_spec (best : nat * float64) (i : nat) (x : float64) :
  let best' := argmax_step best i x in
  (best' = best ∨ best' = (i, x))
  ∧ float64_le (snd best) (snd best') ∧ float64_le x (snd best').
Proof.
  destruct best as [j [|b]], x as [|q]; simpl; try by eauto.
  unfold argmax_step. simpl. case_decide as Hlt; simpl.
  - split_and!; [by right|by apply Qlt_le_weak|apply Qle_refl].
  - split_and!; [by left|apply Qle_refl|by apply Qnot_lt_le].
Qed.

Lemma argmax_loop_spec (ixs : list (nat * float64)) (best : nat * float64) :
  let best' := foldl (λ best ix, argmax_step best (fst ix) (snd ix))
                 best ixs in
  (best' = best ∨ best' ∈ ixs)
  ∧ float64_le (snd best) (snd best')
  ∧ ∀ ix, ix ∈ ixs → float64_le (snd ix) (snd best').
Proof.
  revert best. induction ixs as [|[i x] ixs IH]; intros best; cbn [foldl].
  - split_and!; [by left|apply float64_le_refl|].
    intros ix Hix. by apply elem_of_nil in Hix.
  - destruct (argmax_step_spec best i x) as (Hsel & Hle & Hx).
    destruct (IH (argmax_step best i x)) as (Hsel' & Hle' & Hall').
    simpl in *. split_and!.
    + destruct Hsel' as [->|Hin]; [|right; by right].
      destruct Hsel as [-> | ->]; [by left|right; left].
    + by eapply float64_le_trans.
    + intros ix [->|Hix]%elem_of_cons; [|by apply Hall'].
      by eapply float64_le_trans.
Qed.

(** [np.argmax] returns the position of a largest value. *)
Lemma np_argmax_spec (l : list float64) (i : Z) :
  np_argmax l = Ok i →
  ∃ x, 0 ≤ i ∧ l !! Z.to_nat i = Some x ∧ ∀ y, y ∈ l → float64_le y x.
Proof.
  destruct l as [|x0 l]; [done|]. unfold np_argmax. intros [= <-].
  destruct (argmax_loop_spec (imap (λ i y, (S i, y)) l) (0%nat, x0))
    as (Hsel & Hle & Hall).
  set (best := foldl _ _ _) in *. exists (snd best).
  rewrite Nat2Z.id. split_and!; [lia| |].
  - destruct Hsel as [->|Hin]; [done|].
    apply elem_of_lookup_imap in Hin as (i & y & -> & Hi). done.
  - intros y [->|Hy]%elem_of_cons; [done|].
    apply list_elem_of_lookup_1 in Hy as [i Hi].
    apply (Hall (S i, y)).
    by apply (elem_of_lookup_imap_2 (λ i y, (S i, y))).
Qed.

Lemma max_channel_loop (n_left : Z) (centers : list (list (list float64)))
    (acc out : list Z) :
  foldlM (λ acc center,
            row ← np_getitem center (- n_left);
            chan ← np_argmax (fabs <$> row);
            Ok (acc ++ [chan])) centers acc = Ok out →
  ∃ chans, out = acc ++ chans
    ∧ Forall2 (λ center chan,
                 ∃ row, np_getitem center (- n_left) = Ok row
                        ∧ np_argmax (fabs <$> row) = Ok chan) centers chans.
Proof.
  revert acc. induction centers as [|center centers IH]; intros acc; simpl.
  - intros [= <-]. exists []. split; [by rewrite app_nil_r|constructor].
  - destruct (np_getitem center _) as [row|] eqn:Hrow; [simpl|done].
    destruct (np_argmax _) as [chan|] eqn:Hchan; [simpl|done].
    intros (chans & -> & Hall)%IH. exists (chan :: chans).
    split; [by rewrite <-app_assoc|]. constructor; eauto.
Qed.

Lemma np_mask_select_absent {A} (labels : list Z) (k : Z) (a out : list A) :
  k ∉ labels →
  np_mask_select ((λ l, bool_decide (l = k)) <$> labels) a = Ok out →
  out = [].
Proof.
  intros Hk. unfold np_mask_select. case_decide; [|done]. intros [= <-].
  destruct (filter _ _) as [|[x b] r] eqn:Hf; [done|]. exfalso.
  assert ((x, b) ∈ filter (λ xb : A * bool, snd xb = true)
                     (zip a ((λ l, bool_decide (l = k)) <$> labels)))
    as Hin by (rewrite Hf; left).
  apply list_elem_of_filter in Hin as [Hb Hin]. simpl in Hb. subst b.
  apply elem_of_zip_r, list_elem_of_fmap in Hin as (l & Hl & Hin).
  symmetry in Hl. apply bool_decide_eq_true_1 in Hl. by subst l.
Qed.

Section CatalogueIndex.
Context {Projector : Type} `{!Interpolation, !LabelCodes, !Palette}.
Implicit Types self : CatalogueConstructor Projector.

(** The catalogue that a completed [make_catalogue] returns, as the code
    assembles it. *)
Lemma make_catalogue_inv (colors : option (gmap Z color)) self
    (cat : Catalogue) :
  make_catalogue colors self = Ok cat →
  ∃ (wfp : WaveformExtractorParams) (W nchan : nat)
    (wfs : list (list (list Q))) (subsample : list Q)
    (templates : list (list (list float64) * list (list float64)
                       * list (list float64) * list (list float64))),
    params_waveformextractor (info self) = Some wfp
    ∧ attrs self !! "some_waveforms" = Some (FloatArray3 W nchan wfs)
    ∧ Forall2 (λ k t, cluster_templates W nchan wfs subsample self k = Ok t)
        (positive_cluster_labels self) templates
    ∧ catalogue_n_left cat = n_left wfp + 2
    ∧ catalogue_n_right cat = n_right wfp - 2
    ∧ catalogue_peak_width cat = n_right wfp - n_left wfp - 4
    ∧ catalogue_cluster_labels cat = positive_cluster_labels self
    ∧ centers0 cat = (λ t, fst (fst (fst t))) <$> templates
    ∧ label_to_index cat
      = list_to_map (imap (λ i k, (k, i)) (positive_cluster_labels self))
    ∧ Forall2 (λ center chan,
                 ∃ row, np_getitem center (- (n_left wfp + 2)) = Ok row
                        ∧ np_argmax (fabs <$> row) = Ok chan)
        (centers0 cat) (catalogue_max_on_channel cat).
Proof.
  unfold make_catalogue.
  destruct (params_waveformextractor (info self)) as [wfp|]; simpl; [|done].
  destruct (attrs self !! "some_waveforms") as [[| | | | |W nchan wfs]|];
    try done.
  destruct (getitem "internal_dtype" _) as [dtype|]; simpl; [|done].
  case_decide as HW; [done|].
  fold (positive_cluster_labels self).
  match goal with
  | |- context [foldlM ?f ?l ?b] =>
      destruct (foldlM f l b) as [templates|] eqn:Htpl
  end; [simpl|done].
  match goal with
  | |- context [foldlM ?f ?l ?b] =>
      destruct (foldlM f l b) as [chans|] eqn:Hch
  end; [simpl|done].
  destruct (match colors with Some _ => _ | None => _ end) as [colors'|];
    [simpl|done].
  destruct (getitem "params_signalpreprocessor" _) as [spp|]; [simpl|done].
  destruct (getitem "params_peakdetector" _) as [pdp|]; [simpl|done].
  intros [= <-]. simpl.
  apply foldlM_snoc_spec in Htpl as (ts & -> & Hall). simpl in *.
  apply max_channel_loop in Hch as (chans' & -> & Hchans). simpl.
  eexists wfp, W, nchan, wfs, _, ts. split_and!; try done. lia.
Qed.

(** The [label_to_index] map of the catalogue sends every cluster label to
    the position of its templates, and has no other entry (on a table
    without a repeated label, as a rebuild leaves it). *)
Theorem make_catalogue_label_to_index (colors : option (gmap Z color)) self
    (cat : Catalogue) :
  NoDup (cluster_labels self) →
  make_catalogue colors self = Ok cat →
  ∀ (i : nat) (k : Z),
    label_to_index cat !! k = Some i
    ↔ catalogue_cluster_labels cat !! i = Some k.
Proof.
  intros Hnd (wfp & W & nchan & wfs & sub & ts & _ & _ & _ & _ & _ & _
              & -> & _ & -> & _)%make_catalogue_inv i k.
  set (ks := positive_cluster_labels self).
  assert (NoDup ks) as Hks by by apply NoDup_filter.
  rewrite <-elem_of_list_to_map.
  - rewrite elem_of_lookup_imap. split.
    + by intros (i' & k' & [= -> ->] & Hi).
    + intros Hi. by exists i, k.
  - rewrite fmap_imap.
    assert (imap (λ n, fst ∘ (λ k0 : Z, (k0, n))) ks = ks) as ->; [|done].
    clear. generalize 0%nat as s. intros s.
    apply list_eq. intros i. rewrite list_lookup_imap.
    by destruct (ks !! i).
Qed.

(** The peak channel recorded for a cluster is a channel on which the
    order-0 template is largest in absolute value at the peak sample (the
    sample [-n_left] of the trimmed template). *)
Theorem make_catalogue_max_on_channel (colors : option (gmap Z color)) self
    (cat : Catalogue) :
  make_catalogue colors self = Ok cat →
  length (catalogue_max_on_channel cat) = length (catalogue_cluster_labels cat)
  ∧ ∀ (i : nat) (chan : Z),
      catalogue_max_on_channel cat !! i = Some chan →
      ∃ center row x,
        centers0 cat !! i = Some center
        ∧ np_getitem center (- catalogue_n_left cat) = Ok row
        ∧ 0 ≤ chan
        ∧ row !! Z.to_nat chan = Some x
        ∧ ∀ y, y ∈ row → float64_le (fabs y) (fabs x).
Proof.
  intros (wfp & W & nchan & wfs & sub & ts & _ & _ & Hts & -> & _ & _
          & -> & Hc0 & _ & Hchans)%make_catalogue_inv.
  split.
  - rewrite <-(Forall2_length _ _ _ Hchans), Hc0, length_fmap.
    symmetry. by eapply Forall2_length.
  - intros i chan Hi.
    destruct (Forall2_lookup_r _ _ _ _ _ Hchans Hi)
      as (center & Hcenter & row & Hrow & Hmax).
    apply np_argmax_spec in Hmax as (x & Hnon & Hx & Hall).
    rewrite list_lookup_fmap in Hx.
    destruct (row !! Z.to_nat chan) as [x0|] eqn:Hx0; [|done].
    injection Hx as <-. exists center, row, x0. split_and!; try done.
    intros y Hy. apply Hall. by apply list_elem_of_fmap_2.
Qed.

(** [make_catalogue] does not complete when the table has a non-negative
    cluster that has no member in the waveform sample (as may happen when
    the sample is a random subset of the peaks). *)
Theorem make_catalogue_cluster_without_sample
    (colors : option (gmap Z color)) self (labels : list Z) (k : Z)
    (cat : Catalogue) :
  sample_labels self = Ok labels →
  k ∈ positive_cluster_labels self → k ∉ labels →
  make_catalogue colors self ≠ Ok cat.
Proof.
  intros Hlab Hk Hnin
    (wfp & W & nchan & wfs & sub & ts & _ & _ & Hts & _)%make_catalogue_inv.
  apply list_elem_of_lookup_1 in Hk as [i Hi].
  destruct (Forall2_lookup_l _ _ _ _ _ Hts Hi) as (t & _ & Ht).
  apply cluster_templates_spec in Ht
    as ((labels' & wf0 & Hlab' & Hsel & Hne & _) & _).
  rewrite Hlab in Hlab'. injection Hlab' as <-.
  by apply np_mask_select_absent in Hsel.
Qed.
End CatalogueIndex.

(** ** Tagging clusters as one cell *)

Lemma py_min_spec (l : list Z) (m : Z) :
  py_min l = Ok m → m ∈ l ∧ ∀ y, y ∈ l → m ≤ y.
Proof.
  destruct l as [|x l]; [done|]. simpl. intros [= <-].
  assert (∀ l x, (foldl Z.min x l = x ∨ foldl Z.min x l ∈ l)
                 ∧ foldl Z.min x l ≤ x
                 ∧ ∀ y, y ∈ l → foldl Z.min x l ≤ y) as Hgen.
  { clear. induction l as [|y l IH]; intros x; simpl.
    - split_and!; [by left|lia|]. intros y Hy. by apply elem_of_nil in Hy.
    - destruct (IH (x `min` y)) as (Hin & Hle & Hall). split_and!.
      + destruct Hin as [Heq|Hin]; [|right; by right].
        rewrite Heq. destruct (Z.min_spec x y) as [[_ ->]|[_ ->]];
          [by left|right; left].
      + lia.
      + intros z [->|Hz]%elem_of_cons; [lia|by apply Hall]. }
  destruct (Hgen l x) as (Hin & Hle & Hall). split.
  - destruct Hin as [->|Hin]; [left|by right].
  - intros y [->|Hy]%elem_of_cons; [done|by apply Hall].
Qed.

(** Altering the rows at the given positions by an idempotent function. *)
Lemma alter_loop_lookup {A} (f : A → A) (inds : list Z) (l : list A)
    (j : nat) :
  (∀ x, f (f x) = f x) → Forall (λ i, 0 ≤ i) inds →
  foldl (λ l i, alter f (Z.to_nat i) l) l inds !! j
  = (if decide (Z.of_nat j ∈ inds) then f else id) <$> l !! j.
Proof.
  intros Hf Hall. revert l.
  induction Hall as [|i inds Hi _ IH]; intros l; cbn [foldl].
  - rewrite decide_False by apply not_elem_of_nil. by destruct (l !! j).
  - rewrite IH. destruct (decide (Z.to_nat i = j)) as [<-|Hne].
    + rewrite list_lookup_alter_eq, (decide_True (P := _ ∈ i :: inds)).
      2:{ rewrite Z2Nat.id by done. left. }
      destruct (l !! Z.to_nat i) as [x|]; [simpl|done].
      by case_decide; simpl; rewrite ?Hf.
    + rewrite list_lookup_alter_ne by done.
      destruct (decide (Z.of_nat j ∈ inds)) as [Hin|Hnin].
      * by rewrite decide_True by by right.
      * rewrite decide_False; [done|].
        intros [Heq|?]%elem_of_cons; [|done]. apply Hne. lia.
Qed.

Section TagSameCell.
Context {Projector : Type}.
Implicit Types self : CatalogueConstructor Projector.

(** The table that [tag_same_cell] writes. *)
Lemma tag_same_cell_table (labels_to_group : list Z) (cl : list Cluster)
    (v : Z) :
  foldl (λ cl i, alter (set_cell_label v) (Z.to_nat i) cl) cl
    (np_nonzero (np_in1d (cluster_label <$> cl) labels_to_group))
  = (λ c, if decide (cluster_label c ∈ labels_to_group)
          then set_cell_label v c else c) <$> cl.
Proof.
  apply list_eq. intros j. rewrite alter_loop_lookup, list_lookup_fmap.
  - destruct (cl !! j) as [c|] eqn:Hc; [simpl|done]. f_equal.
    destruct (decide (cluster_label c ∈ labels_to_group)) as [Hin|Hnin].
    + rewrite decide_True; [done|]. apply np_nonzero_elem.
      unfold np_in1d. rewrite !list_lookup_fmap, Hc. simpl.
      by rewrite bool_decide_eq_true_2.
    + rewrite decide_False; [done|].
      intros [_ Hj]%np_nonzero_true. rewrite Nat2Z.id in Hj.
      unfold np_in1d in Hj. rewrite !list_lookup_fmap, Hc in Hj.
      simpl in Hj. injection Hj as Hj. by apply bool_decide_eq_true_1 in Hj.
  - by intros [].
  - apply Forall_forall. intros i Hi. apply np_nonzero_range in Hi. lia.
Qed.

Lemma tag_same_cell_inv (labels_to_group : list Z) self self' :
  tag_same_cell labels_to_group self = Ok self' →
  ∃ cl m,
    clusters self = Some cl ∧ py_min labels_to_group = Ok m
    ∧ self' = write_array "clusters"
                (ClusterArray
                   ((λ c, if decide (cluster_label c ∈ labels_to_group)
                          then set_cell_label m c else c) <$> cl)) self.
Proof.
  unfold tag_same_cell.
  destruct (clusters self) as [cl|]; [simpl|done].
  destruct (py_min labels_to_group) as [m|]; [simpl|done].
  intros [= <-]. exists cl, m. by rewrite tag_same_cell_table.
Qed.

(** [tag_same_cell] gives the smallest of the listed labels as [cell_label]
    to every row whose [cluster_label] is listed, and changes nothing else:
    not the other rows, not the other columns, not the other arrays. *)
Theorem tag_same_cell_spec (labels_to_group : list Z) self self'
    (cl : list Cluster) :
  clusters self = Some cl →
  tag_same_cell labels_to_group self = Ok self' →
  ∃ m, m ∈ labels_to_group ∧ (∀ k, k ∈ labels_to_group → m ≤ k)
    ∧ clusters self'
      = Some ((λ c, if decide (cluster_label c ∈ labels_to_group)
                    then set_cell_label m c else c) <$> cl)
    ∧ ∀ name, name ≠ "clusters" → attrs self' !! name = attrs self !! name.
Proof.
  intros Hcl (cl' & m & Hcl' & Hmin & ->)%tag_same_cell_inv.
  rewrite Hcl in Hcl'. injection Hcl' as <-.
  apply py_min_spec in Hmin as [Hin Hle]. exists m. split_and!; [done..| |].
  - unfold clusters, write_array; simpl. by rewrite lookup_insert_eq.
  - intros name Hne. unfold write_array; simpl. by rewrite lookup_insert_ne.
Qed.

(** [tag_same_cell] needs a cluster table and at least one label: without
    a table it fails with [TypeError], on an empty list of labels with
    [ValueError] ([min] of an empty sequence); otherwise it completes. *)
Theorem tag_same_cell_completes (labels_to_group : list Z) self :
  (clusters self = None →
   tag_same_cell labels_to_group self = Raise TypeError)
  ∧ (clusters self ≠ None → labels_to_group = [] →
     tag_same_cell labels_to_group self = Raise ValueError)
  ∧ (clusters self ≠ None → labels_to_group ≠ [] →
     ∃ self', tag_same_cell labels_to_group self = Ok self').
Proof.
  unfold tag_same_cell. split_and!.
  - by intros ->.
  - intros Hcl ->. by destruct (clusters self).
  - intros Hcl Hne. destruct (clusters self); [simpl|done].
    destruct labels_to_group; [done|]. simpl. eauto.
Qed.

(** The tag survives a rebuild: after [tag_same_cell] and then
    [on_new_cluster], every row whose label is listed and was in the table
    when the tag was set has the smallest of the listed labels as
    [cell_label]. *)
Theorem tag_same_cell_then_rebuild (labels_to_group : list Z) self self'
    (peaks : list Peak) :
  all_peaks self = Some peaks → peaks ≠ [] →
  tag_same_cell labels_to_group self = Ok self' →
  ∃ m tbl,
    py_min labels_to_group = Ok m
    ∧ clusters (on_new_cluster self') = Some tbl
    ∧ ∀ c, c ∈ tbl → cluster_label c ∈ labels_to_group →
           cluster_label c ∈ cluster_labels self → cell_label c = m.
Proof.
  intros Hp Hne (cl & m & Hcl & Hmin & ->)%tag_same_cell_inv.
  set (tagged := (λ c, if decide (cluster_label c ∈ labels_to_group)
                       then set_cell_label m c else c) <$> cl).
  set (self' := write_array "clusters" (ClusterArray tagged) self).
  assert (all_peaks self' = Some peaks) as Hp'.
  { unfold self'. rewrite <-Hp. unfold all_peaks, write_array; simpl.
    by rewrite lookup_insert_ne. }
  assert (clusters self' = Some tagged) as Hcl'.
  { unfold clusters, self', write_array; simpl. by rewrite lookup_insert_eq. }
  exists m, (new_clusters peaks (Some tagged)). split_and!; [done| |].
  { by rewrite (on_new_cluster_nonempty self' peaks Hp' Hne),
      clusters_add_array, Hcl'. }
  intros c Hc Hin Hold. unfold new_clusters in Hc.
  apply list_elem_of_fmap in Hc as (c0 & -> & Hc0).
  destruct (previous_cell_label_fields tagged c0) as [Hl _].
  rewrite Hl in Hin, Hold. unfold previous_cell_label.
  destruct (list_find _ tagged) as [[j r]|] eqn:Hfind.
  - apply list_find_Some in Hfind as (Hj & Heq & _). simpl.
    unfold tagged in Hj. rewrite list_lookup_fmap in Hj.
    destruct (cl !! j) as [r0|]; [simpl in Hj|done]. injection Hj as <-.
    case_decide as Hr0; [done|]. exfalso. by rewrite Heq in Hin.
  - exfalso. apply list_find_None in Hfind. rewrite Forall_forall in Hfind.
    unfold cluster_labels in Hold. rewrite Hcl in Hold.
    apply list_elem_of_fmap in Hold as (r0 & Heq & Hr0).
    apply (Hfind (if decide (cluster_label r0 ∈ labels_to_group)
                  then set_cell_label m r0 else r0)).
    + unfold tagged. apply list_elem_of_fmap. eauto.
    + rewrite Heq. by case_decide.
Qed.
End TagSameCell.

(** ** The parameters, then the detection *)

Section ParametersThenDetection.
Context {Projector : Type} `{!DataIO, !Engines, !LabelCodes, !EngineNames}.
Implicit Types self : CatalogueConstructor Projector.

Lemma set_preprocessor_params_inv (cs : Z) (dtype : string)
    (signalpreprocessor_engine : string) (lostfront : Z)
    (peakdetector_engine : string) (sign : string) (threshold span : Q)
    self self' :
  set_preprocessor_params cs dtype signalpreprocessor_engine lostfront
    peakdetector_engine sign threshold span self = Ok self' →
  chunksize self' = cs
  ∧ attrs self' = <["all_peaks" := PeakArray []]> (attrs self)
  ∧ info_chunksize (info self') = Some cs
  ∧ internal_dtype (info self') = Some dtype
  ∧ signalpreprocessor_engine ∈ signalpreprocessor_engines
  ∧ peakdetector_engine ∈ peakdetector_engines.
Proof.
  unfold set_preprocessor_params.
  destruct (lookup_name signalpreprocessor_engines _) eqn:Hsp; [simpl|done].
  destruct (lookup_name peakdetector_engines _) eqn:Hpd; [simpl|done].
  intros [= <-]. unfold lookup_name in Hsp, Hpd.
  repeat case_decide; done.
Qed.

Lemma run_signalprocessor_recorded (duration : Q) (detect_peak : bool)
    self self' :
  run_signalprocessor duration detect_peak self = Ok self' →
  info_chunksize (info self') = info_chunksize (info self)
  ∧ internal_dtype (info self') = internal_dtype (info self).
Proof.
  intros Hrun. unfold run_signalprocessor in Hrun.
  match type of Hrun with
  | context [foldlM ?f ?l ?b] =>
      destruct (foldlM f l b) as [self1|] eqn:Hloop
  end; [simpl in Hrun|done].
  unfold finalize_signalprocessor_loop, finalize_array in Hrun.
  destruct (attrs self1 !! "all_peaks"); [simpl in Hrun|done].
  injection Hrun as <-. rewrite info_detection_tail.
  apply (foldlM_inv (λ s s',
           info_chunksize (info s') = info_chunksize (info s)
           ∧ internal_dtype (info s') = internal_dtype (info s))) in Hloop;
    [done|done| |].
  - intros s1 s2 s3 [? ?] [? ?]. split; congruence.
  - intros s seg_num s'. unfold run_signalprocessor_loop_one_segment.
    destruct (py_int _) as [requested|] eqn:Hrequested; [simpl|done].
    case_decide; [done|].
    match goal with
    | |- context [foldlM ?f ?l ?b] => destruct (foldlM f l b) as [st|] eqn:Hin
    end; [simpl|done].
    intros [= <-].
    by apply signalprocessor_loop_settings in Hin as (-> & _ & _).
Qed.

(** The first stages compose: after [set_preprocessor_params] with a
    non-zero chunk size, [run_signalprocessor] completes, for a duration
    that gives a finite number of samples, and leaves a peak table of
    unclassified records that come segment after segment, and
    [re_detect_peak] with the same or another registered engine can then be
    run (it finds the chunk size and the sample type that it reads back);
    with an engine that is not registered it fails with [KeyError]. *)
Theorem set_preprocessor_params_then_detect (cs : Z) (dtype : string)
    (signalpreprocessor_engine : string) (lostfront : Z)
    (peakdetector_engine : string) (sign : string) (threshold span : Q)
    (duration : Q) (detect_peak : bool) (params : PeakDetectorParams)
    self self1 (requested : Z) :
  cs ≠ 0 →
  py_int (float_mul duration sample_rate) = Ok requested →
  set_preprocessor_params cs dtype signalpreprocessor_engine lostfront
    peakdetector_engine sign threshold span self = Ok self1 →
  ∃ self2 peaks,
    run_signalprocessor duration detect_peak self1 = Ok self2
    ∧ all_peaks self2 = Some peaks
    ∧ Forall (λ p, label p = LABEL_UNCLASSIFIED
                   ∧ 0 ≤ segment p < Z.of_nat nb_segment) peaks
    ∧ (∀ (i j : nat) (a b : Peak),
         peaks !! i = Some a → peaks !! j = Some b → (i < j)%nat →
         segment a ≤ segment b)
    ∧ (∃ self3, re_detect_peak peakdetector_engine params self2 = Ok self3)
    ∧ ∀ engine,
        (engine ∈ peakdetector_engines →
         ∃ self3, re_detect_peak engine params self2 = Ok self3)
        ∧ (engine ∉ peakdetector_engines →
           re_detect_peak engine params self2 = Raise (KeyError engine)).
Proof.
  intros Hcs Hrequested
    (Hchunk & Hattrs & Hics & Hdt & _ & Hengine)%set_preprocessor_params_inv.
  assert (attrs self1 !! "all_peaks" = Some (PeakArray [])) as Hfresh
    by (by rewrite Hattrs, lookup_insert_eq).
  destruct (run_signalprocessor_completes duration detect_peak self1
              requested Hrequested)
    as [self2 Hrun]; [congruence|by eexists|].
  destruct (run_signalprocessor_fresh_table _ _ _ _ Hfresh Hrun)
    as (peaks & Hp & Hall & Hsorted).
  destruct (run_signalprocessor_recorded _ _ _ _ Hrun) as [Hics2 Hdt2].
  exists self2, peaks. split_and!; [done..| |].
  - apply (re_detect_peak_completes _ params self2 cs dtype); congruence.
  - intros engine. split.
    + intros Hin.
      apply (re_detect_peak_completes _ params self2 cs dtype); congruence.
    + intros Hnin. unfold re_detect_peak, lookup_name.
      by rewrite decide_False.
Qed.
End ParametersThenDetection.

(** ** Waveform extractor: selections, loops *)

Lemma StronglySorted_of_lookup {A} (R : relation A) (l : list A) :
  (∀ (i j : nat) (a b : A),
     l !! i = Some a → l !! j = Some b → (i < j)%nat → R a b) →
  StronglySorted R l.
Proof.
  induction l as [|x l IH]; intros H; constructor.
  - apply IH. intros i j a b Hi Hj Hlt. apply (H (S i) (S j)); [done..|lia].
  - apply Forall_forall. intros y [j Hj]%list_elem_of_lookup_1.
    apply (H 0%nat (S j)); [done..|lia].
Qed.

Lemma StronglySorted_filter_keep {A} (R : relation A) (P : A → Prop)
    `{!∀ x, Decision (P x)} (l : list A) :
  StronglySorted R l → StronglySorted R (filter P l).
Proof.
  induction 1 as [|x l Hs IH Hall]; [constructor|].
  rewrite filter_cons. case_decide; [|done]. constructor; [done|].
  apply Forall_forall. intros y [_ Hy]%list_elem_of_filter.
  rewrite Forall_forall in Hall. auto.
Qed.

Lemma omap_ext_elem {A B} (f g : A → option B) (l : list A) :
  (∀ x, x ∈ l → f x = g x) → omap f l = omap g l.
Proof.
  intros H. apply list_omap_ext, Forall_Forall2_diag, Forall_forall.
  exact H.
Qed.

Lemma np_nonzero_snoc (mask : list bool) (b : bool) :
  np_nonzero (mask ++ [b])
  = np_nonzero mask ++ (if b then [Z.of_nat (length mask)] else []).
Proof.
  unfold np_nonzero. rewrite imap_app, omap_app. simpl.
  rewrite Nat.add_0_r. by destruct b.
Qed.

Lemma np_nonzero_sorted (mask : list bool) :
  StronglySorted Z.lt (np_nonzero mask).
Proof.
  induction mask as [|b mask IH] using rev_ind; [constructor|].
  rewrite np_nonzero_snoc. apply StronglySorted_app_2; [|done|].
  - intros x y Hx Hy. apply np_nonzero_range in Hx.
    destruct b; [|by apply elem_of_nil in Hy].
    apply list_elem_of_singleton in Hy as ->. lia.
  - destruct b; repeat constructor.
Qed.

(** The rows that a boolean mask selects are the rows at the positions of
    [np.nonzero(mask)]. *)
Lemma np_mask_select_nonzero {A} (mask : list bool) (a : list A) :
  length mask = length a →
  np_mask_select mask a
  = Ok (omap (λ i, a !! Z.to_nat i) (np_nonzero mask)).
Proof.
  intros Hlen. unfold np_mask_select. rewrite decide_True by done. f_equal.
  revert a Hlen. induction mask as [|b mask IH] using rev_ind; intros a Hlen.
  - by destruct a.
  - destruct a as [|x a _] using rev_ind.
    { rewrite length_app in Hlen. simpl in Hlen. lia. }
    rewrite !length_app in Hlen. simpl in Hlen.
    rewrite zip_with_app by lia.
    rewrite filter_app, fmap_app, np_nonzero_snoc, omap_app.
    rewrite (IH a) by lia. f_equal.
    + apply omap_ext_elem. intros i Hi. apply np_nonzero_range in Hi.
      rewrite lookup_app_l; [done|lia].
    + destruct b; [|done]. simpl. rewrite Nat2Z.id.
      replace (length mask) with (length a) by lia.
      by rewrite list_lookup_middle.
Qed.

(** A mask restricted to one segment selects, of the rows that the mask
    selects, those of the segment. *)
Lemma np_mask_select_and {A} (g : A → bool) (mask : list bool) (a : list A) :
  length mask = length a →
  fst <$> filter (λ xb : A * bool, snd xb = true)
            (zip a (zip_with andb mask (g <$> a)))
  = filter (λ x, g x = true)
      (fst <$> filter (λ xb : A * bool, snd xb = true) (zip a mask)).
Proof.
  revert mask. induction a as [|x a IH]; intros [|b mask] Hlen; try done.
  simpl in Hlen. csimpl. rewrite !filter_cons. simpl.
  destruct b; simpl.
  - destruct (g x) eqn:Hg; simpl.
    + rewrite filter_cons_True by done. f_equal. apply IH. lia.
    + rewrite filter_cons_False by (by rewrite Hg). apply IH. lia.
  - apply IH. lia.
Qed.

Lemma count_true_insert (mask : list bool) (k : nat) :
  (length (filter (λ b, b = true) (<[k := true]> mask))
   ≤ S (length (filter (λ b, b = true) mask)))%nat.
Proof.
  revert k. induction mask as [|b mask IH]; intros [|k]; simpl; try lia.
  - rewrite filter_cons. case_decide; simpl; lia.
  - rewrite !filter_cons. specialize (IH k). case_decide; simpl; lia.
Qed.

Lemma length_mask_selection {A} (mask : list bool) (a : list A) :
  length mask = length a →
  length (filter (λ xb : A * bool, snd xb = true) (zip a mask))
  = length (filter (λ b, b = true) mask).
Proof.
  revert mask. induction a as [|x a IH]; intros [|b mask] Hlen; try done.
  simpl in Hlen. simpl. rewrite !filter_cons. simpl.
  case_decide; simpl; rewrite IH; lia.
Qed.

Lemma np_put_true_spec (idx : list Z) (mask0 mask : list bool) :
  np_put_true mask0 idx = Ok mask →
  length mask = length mask0
  ∧ (length (filter (λ b, b = true) mask)
     ≤ length (filter (λ b, b = true) mask0) + length idx)%nat
  ∧ (Forall (λ i, 0 ≤ i) idx →
     Forall (λ i, i < Z.of_nat (length mask0)) idx
     ∧ ∀ j : nat,
         mask !! j = Some true
         ↔ mask0 !! j = Some true
           ∨ ((j < length mask0)%nat ∧ Z.of_nat j ∈ idx)).
Proof.
  unfold np_put_true. revert mask0.
  induction idx as [|i idx IH]; intros mask0; simpl.
  - intros [= <-]. split_and!; [done|lia|]. intros _. split; [done|].
    intros j. split; [by left|]. intros [?|[_ Hj]]; [done|].
    by apply elem_of_nil in Hj.
  - case_decide as Hi; [simpl|done]. intros Hrest.
    apply IH in Hrest as (Hlen & Hcount & Hchar).
    rewrite length_insert in Hlen, Hchar. split_and!; [done| |].
    + pose proof (count_true_insert mask0
                    (Z.to_nat (if decide (i < 0)
                               then i + Z.of_nat (length mask0) else i))).
      lia.
    + intros Hall. apply Forall_cons in Hall as [Hi0 Hall].
      destruct (Hchar Hall) as [Hlt Hiff].
      rewrite decide_False in Hi, Hiff by lia. split.
      { constructor; [lia|done]. }
      intros j. rewrite Hiff. rewrite list_lookup_insert_Some.
      split.
      * intros [[(<- & _ & _)|[_ ?]]|[? ?]];
          [right; split; [lia|]; rewrite Z2Nat.id by lia; left
          |by left|right; split; [done|by right]].
      * intros [Hj|[Hj [Heq|Hin]%elem_of_cons]].
        -- destruct (decide (Z.to_nat i = j)) as [<-|Hne].
           ++ left. left. split_and!; [done|done|lia].
           ++ left. right. done.
        -- left. left. split_and!; [lia|done|lia].
        -- right. done.
Qed.

Lemma filter_none {A} (P : A → Prop) `{!∀ x, Decision (P x)} (l : list A) :
  Forall (λ x, ¬ P x) l → filter P l = [].
Proof.
  induction 1 as [|x l Hx _ IH]; [done|]. by rewrite filter_cons_False.
Qed.

Lemma filter_all {A} (P : A → Prop) `{!∀ x, Decision (P x)} (l : list A) :
  Forall P l → filter P l = l.
Proof.
  induction 1 as [|x l Hx _ IH]; [done|].
  by rewrite filter_cons_True, IH.
Qed.

Lemma by_segment_ext (s : Z) (ss : list Z) (M : list Peak) :
  s ∉ ss →
  (λ s', filter (λ p, segment p = s') M) <$> ss
  = (λ s', filter (λ p, segment p = s')
             (filter (λ p, ¬ segment p = s) M)) <$> ss.
Proof.
  intros Hs. apply list_fmap_ext. intros i s' Hs'.
  rewrite list_filter_filter. apply list_filter_iff. intros p. split.
  - intros ->. split; [done|]. intros Heq. apply Hs. rewrite <-Heq.
    by eapply list_elem_of_lookup_2.
  - by intros [? _].
Qed.

(** Going through the segments one after the other reaches every selected
    peak once. *)
Lemma concat_by_segment_Permutation (ss : list Z) (M : list Peak) :
  NoDup ss → (∀ p, p ∈ M → segment p ∈ ss) →
  concat ((λ s, filter (λ p, segment p = s) M) <$> ss) ≡ₚ M.
Proof.
  intros Hnd. revert M. induction Hnd as [|s ss Hs Hnd IH]; intros M Hin.
  - destruct M as [|p M]; [done|]. exfalso.
    specialize (Hin p ltac:(left)). by apply elem_of_nil in Hin.
  - rewrite fmap_cons. simpl.
    etrans; [|apply (filter_app_complement (λ p, segment p = s) M)].
    apply Permutation_app; [done|]. rewrite (by_segment_ext s) by done.
    apply IH. intros p [Hne Hp]%list_elem_of_filter.
    specialize (Hin p Hp). by apply elem_of_cons in Hin as [?|?].
Qed.

Lemma sorted_segment_prefix (s : Z) (M : list Peak) :
  StronglySorted (λ p q, segment p ≤ segment q) M →
  Forall (λ p, s ≤ segment p) M →
  filter (λ p, segment p = s) M ++ filter (λ p, ¬ segment p = s) M = M.
Proof.
  induction 1 as [|p M HM IH Hall]; intros Hge; [done|].
  apply Forall_cons in Hge as [Hp Hge].
  destruct (decide (segment p = s)) as [Heq|Hne].
  - rewrite filter_cons_True by done.
    rewrite (filter_cons_False (λ p, ¬ segment p = s)) by (by intros H).
    simpl. f_equal. by apply IH.
  - rewrite filter_cons_False by done.
    rewrite (filter_cons_True (λ p, ¬ segment p = s)) by done.
    rewrite filter_none, filter_all; [done| |].
    + eapply Forall_impl; [exact Hall|]. simpl. intros q Hq. lia.
    + eapply Forall_impl; [exact Hall|]. simpl. intros q Hq. lia.
Qed.

(** On a table sorted by segment, going through the segments in increasing
    order reaches the selected peaks in the order of the table. *)
Lemma concat_by_segment_sorted (ss : list Z) (M : list Peak) :
  StronglySorted Z.lt ss →
  StronglySorted (λ p q, segment p ≤ segment q) M →
  (∀ p, p ∈ M → segment p ∈ ss) →
  concat ((λ s, filter (λ p, segment p = s) M) <$> ss) = M.
Proof.
  intros Hss. revert M.
  induction Hss as [|s ss Hss IH Hlt]; intros M HM Hin.
  - destruct M as [|p M]; [done|]. exfalso.
    specialize (Hin p ltac:(left)). by apply elem_of_nil in Hin.
  - rewrite fmap_cons. simpl. rewrite Forall_forall in Hlt.
    assert (s ∉ ss) as Hs by (intros Hs%Hlt; lia).
    rewrite (by_segment_ext s) by done. rewrite IH.
    + apply sorted_segment_prefix; [done|]. apply Forall_forall.
      intros p Hp. specialize (Hin p Hp).
      apply elem_of_cons in Hin as [->|Hin%Hlt]; lia.
    + by apply StronglySorted_filter_keep.
    + intros p [Hne Hp]%list_elem_of_filter.
      specialize (Hin p Hp). by apply elem_of_cons in Hin as [?|?].
Qed.

Lemma Forall2_concat_blocks {A B} (R : A → B → Prop)
    (xss : list (list A)) (yss : list (list B)) :
  Forall2 (Forall2 R) xss yss → Forall2 R (concat xss) (concat yss).
Proof.
  induction 1 as [|xs ys xss yss H _ IH]; [constructor|].
  simpl. by apply Forall2_app.
Qed.

Lemma broadcast_row_shape (cols : nat) (row out : list Q) :
  broadcast_row cols row = Ok out → length out = cols.
Proof.
  unfold broadcast_row. case_decide; [by intros [= <-]|].
  destruct row as [|x [|y row]]; try done. intros [= <-].
  by rewrite length_replicate.
Qed.

Lemma broadcast_rows_shape (rows cols : nat) (wf out : list (list Q)) :
  broadcast_rows rows cols wf = Ok out →
  length out = rows ∧ Forall (λ row, length row = cols) out.
Proof.
  unfold broadcast_rows.
  destruct (foldlM _ wf []) as [wf'|] eqn:Hloop; [simpl|done].
  apply foldlM_snoc_spec in Hloop as (ts & -> & Hall). simpl.
  assert (Forall (λ row, length row = cols) ts) as Hts.
  { clear -Hall. induction Hall as [|row t wf ts Ht _ IH]; constructor;
      [by eapply broadcast_row_shape|done]. }
  case_decide; [by intros [= <-]|].
  destruct ts as [|row [|row' ts]]; try done. intros [= <-].
  rewrite length_replicate. split; [done|].
  apply Forall_replicate. by apply Forall_cons in Hts as [? _].
Qed.

Section WaveformExtractorFacts.
Context {Projector : Type}
  `{!DataIO, !RandomState, !ProjectorOps Projector, !Resampler}.
Implicit Types self : CatalogueConstructor Projector.

(** The window that one turn of the loop over the peaks stores. *)
Lemma waveform_loop_spec (sign : string) (nl pw : Z) (al : bool) (ratio : Z)
    (seg : Z) (ps : list Peak) (acc out : list (list (list Q))) :
  foldlM (extract_one_waveform sign nl pw al ratio seg) ps acc = Ok out →
  ∃ wfs, out = acc ++ wfs
    ∧ Forall2 (λ p wf,
                 extract_one_waveform sign nl pw al ratio seg [] p = Ok [wf])
        ps wfs.
Proof.
  revert acc. induction ps as [|p ps IH]; intros acc; simpl.
  - intros [= <-]. exists []. split; [by rewrite app_nil_r|constructor].
  - destruct (extract_one_waveform sign nl pw al ratio seg acc p)
      as [acc1|] eqn:Hone; [simpl|done].
    assert (∃ wf, acc1 = acc ++ [wf]
                  ∧ extract_one_waveform sign nl pw al ratio seg [] p
                    = Ok [wf]) as (wf & -> & Hwf).
    { revert Hone. unfold extract_one_waveform.
      destruct (if al
                then aligned_waveform sign nl pw ratio seg (index p + nl)
                       (index p + nl + pw)
                else Ok (get_signals_chunk seg (index p + nl)
                           (index p + nl + pw)))
        as [wf|]; simpl; [|done].
      destruct (broadcast_rows _ _ wf) as [wf'|]; simpl; [|done].
      intros [= <-]. eauto. }
    intros (wfs & -> & Hall)%IH. exists (wf :: wfs).
    split; [by rewrite <-app_assoc|]. by constructor.
Qed.

Lemma segment_loop_spec (sign : string) (nl pw : Z) (al : bool) (ratio : Z)
    (peaks : list Peak) (mask : list bool) (ss : list Z)
    (acc out : list (list (list Q))) :
  length mask = length peaks →
  foldlM (extract_one_segment sign nl pw al ratio peaks mask) ss acc
  = Ok out →
  ∃ wfs, out = acc ++ wfs
    ∧ Forall2 (λ p wf,
                 extract_one_waveform sign nl pw al ratio (segment p) [] p
                 = Ok [wf])
        (concat ((λ s, filter (λ p, segment p = s)
                         (fst <$> filter (λ xb : Peak * bool, snd xb = true)
                                    (zip peaks mask))) <$> ss))
        wfs.
Proof.
  intros Hlen. revert acc. induction ss as [|s ss IH]; intros acc; simpl.
  - intros [= <-]. exists []. split; [by rewrite app_nil_r|constructor].
  - destruct (extract_one_segment sign nl pw al ratio peaks mask acc s)
      as [acc1|] eqn:Hone; [simpl|done].
    assert (∃ wfs1, acc1 = acc ++ wfs1
              ∧ Forall2 (λ p wf,
                           extract_one_waveform sign nl pw al ratio
                             (segment p) [] p = Ok [wf])
                  (filter (λ p, segment p = s)
                     (fst <$> filter (λ xb : Peak * bool, snd xb = true)
                                (zip peaks mask)))
                  wfs1) as (wfs1 & -> & Hall1).
    { revert Hone. unfold extract_one_segment, np_mask_select.
      rewrite decide_True
        by (by rewrite length_zip_with, length_fmap, Hlen, Nat.min_id).
      cbn [mbind result_bind].
      rewrite (np_mask_select_and (λ p, bool_decide (segment p = s)))
        by done.
      intros (wfs1 & -> & Hall1)%waveform_loop_spec. exists wfs1.
      split; [done|].
      assert (∀ M : list Peak,
                filter (λ p, bool_decide (segment p = s) = true) M
                = filter (λ p, segment p = s) M) as Hfilter.
      { intros M. apply list_filter_iff. intros p.
        by rewrite bool_decide_eq_true. }
      rewrite Hfilter in Hall1. clear Hfilter.
      set (M := filter _ (fst <$> _)) in *.
      assert (Forall (λ p, segment p = s) M) as Hseg.
      { apply Forall_forall. by intros p [? _]%list_elem_of_filter. }
      clearbody M. induction Hall1 as [|p wf ps wfs Hp _ IH1];
        constructor.
      - apply Forall_cons in Hseg as [-> _]. done.
      - apply IH1. by apply Forall_cons in Hseg as [_ ?]. }
    intros (wfs & -> & Hall)%IH. exists (wfs1 ++ wfs).
    split; [by rewrite <-app_assoc|]. by apply Forall2_app.
Qed.

Lemma extract_some_waveforms_inv (nla nra : option Z)
    (index : option (list Z)) (mode : string) (nb_max : Z) (al : bool)
    (ratio : Z) self self' :
  extract_some_waveforms nla nra index mode nb_max al ratio self = Ok self' →
  ∃ (nl nr : Z) (pdp : PeakDetectorParams) (raw : list Z)
    (mask : list bool) (peaks : list Peak)
    (waveforms : list (list (list Q))),
    (∀ a b, nla = Some a → nra = Some b → nl = a ∧ nr = b)
    ∧ match index with
      | Some l => raw = l
      | None => choose_peaks_index mode nb_max self = Ok raw
      end
    ∧ np_put_true (replicate (Z.to_nat (nb_peak_of self)) false)
        (np_unique raw) = Ok mask
    ∧ 0 ≤ nr - nl
    ∧ all_peaks self = Some peaks
    ∧ foldlM (extract_one_segment (peak_sign pdp) nl (nr - nl) al ratio
                peaks mask)
        (np_unique (segment <$> peaks)) [] = Ok waveforms
    ∧ some_peaks_index self' = Some (np_unique raw)
    ∧ attrs self' !! "some_waveforms"
      = Some (FloatArray3 (Z.to_nat (nr - nl)) nb_channel
                (waveforms
                 ++ replicate (length (np_unique raw) - length waveforms)
                      (replicate (Z.to_nat (nr - nl))
                         (replicate nb_channel 0%Q))))
    ∧ params_waveformextractor (info self')
      = Some (mkWaveformExtractorParams nl nr nb_max al ratio)
    ∧ attrs self' !! "some_features" = None.
Proof.
  unfold extract_some_waveforms. intros Hrun.
  match type of Hrun with
  | context [mbind _ ?o] => destruct o as [[nl nr]|] eqn:Hwin
  end; [simpl in Hrun|done].
  destruct (getitem "params_peakdetector" _) as [pdp|];
    [simpl in Hrun|done].
  match type of Hrun with
  | context [mbind _ ?o] => destruct o as [raw|] eqn:Hraw
  end; [simpl in Hrun|done].
  destruct (np_put_true _ _) as [mask|] eqn:Hmask; [simpl in Hrun|done].
  destruct (getitem "internal_dtype" _) as [dtype|]; [simpl in Hrun|done].
  case_decide as Hpw; [done|].
  match type of Hrun with
  | context [subscriptable ?o] => destruct o as [peaks|] eqn:Hpeaks
  end; [simpl in Hrun|done].
  destruct (foldlM _ _ []) as [waveforms|] eqn:Hloop; [simpl in Hrun|done].
  exists nl, nr, pdp, raw, mask, peaks, waveforms.
  assert (all_peaks self = Some peaks) as Hp.
  { rewrite <-Hpeaks. unfold all_peaks, add_array; simpl.
    by rewrite lookup_insert_ne. }
  split_and!; [| |done|lia|done|done|..].
  - intros a b -> ->. by injection Hwin as <- <-.
  - destruct index as [l|]; [by injection Hraw as <-|done].
  - destruct (projector _) as [pj|];
      [destruct (apply_projection _) as [s|] eqn:Happ;
         [by apply apply_projection_never_ok in Happ|]|];
      injection Hrun as <-;
      unfold some_peaks_index, set_attribute_None, add_array; simpl;
      by rewrite lookup_delete_ne, lookup_insert_ne, lookup_insert_eq.
  - destruct (projector _) as [pj|];
      [destruct (apply_projection _) as [s|] eqn:Happ;
         [by apply apply_projection_never_ok in Happ|]|];
      injection Hrun as <-;
      unfold set_attribute_None, add_array; simpl;
      by rewrite lookup_delete_ne, lookup_insert_eq.
  - destruct (projector _) as [pj|];
      [destruct (apply_projection _) as [s|] eqn:Happ;
         [by apply apply_projection_never_ok in Happ|]|];
      by injection Hrun as <-.
  - destruct (projector _) as [pj|];
      [destruct (apply_projection _) as [s|] eqn:Happ;
         [by apply apply_projection_never_ok in Happ|]|];
      injection Hrun as <-;
      unfold set_attribute_None; simpl; by rewrite lookup_delete_eq.
Qed.

Lemma extract_one_waveform_shape (sign : string) (nl pw : Z) (al : bool)
    (ratio seg : Z) (p : Peak) (wf : list (list Q)) :
  extract_one_waveform sign nl pw al ratio seg [] p = Ok [wf] →
  length wf = Z.to_nat pw ∧ Forall (λ row, length row = nb_channel) wf.
Proof.
  unfold extract_one_waveform.
  destruct (if al
            then aligned_waveform sign nl pw ratio seg (index p + nl)
                   (index p + nl + pw)
            else Ok (get_signals_chunk seg (index p + nl)
                       (index p + nl + pw)))
    as [wf0|]; simpl; [|done].
  destruct (broadcast_rows _ _ wf0) as [wf'|] eqn:Hb; simpl; [|done].
  intros [= <-]. by apply broadcast_rows_shape in Hb.
Qed.

Lemma nb_peak_of_length self (peaks : list Peak) :
  all_peaks self = Some peaks → nb_peak_of self = Z.of_nat (length peaks).
Proof. unfold nb_peak_of. by intros ->. Qed.

Lemma selection_in_table (peaks : list Peak) (mask : list bool) (p : Peak) :
  p ∈ fst <$> filter (λ xb : Peak * bool, snd xb = true) (zip peaks mask) →
  p ∈ peaks.
Proof.
  intros ([p' b] & -> & [_ Hin]%list_elem_of_filter)%list_elem_of_fmap.
  by apply elem_of_zip_l in Hin.
Qed.

(** What a completed [extract_some_waveforms] leaves: the sorted distinct
    positions of the sampled peaks, one window of [n_right - n_left]
    samples on every channel per position, the parameters of the call on
    record (the window being the one asked for), and no features: the
    projection of the new waveforms is never kept. *)
Theorem extract_some_waveforms_result (nla nra : option Z)
    (index : option (list Z)) (mode : string) (nb : Z) (al : bool)
    (ratio : Z) self self' :
  extract_some_waveforms nla nra index mode nb al ratio self = Ok self' →
  ∃ (idx : list Z) (wfs : list (list (list Q))) (nl nr : Z),
    some_peaks_index self' = Some idx
    ∧ (∀ (i j : nat) (a b : Z),
         idx !! i = Some a → idx !! j = Some b → (i < j)%nat → a < b)
    ∧ attrs self' !! "some_waveforms"
      = Some (FloatArray3 (Z.to_nat (nr - nl)) nb_channel wfs)
    ∧ has_shape3 (length idx) (Z.to_nat (nr - nl)) nb_channel wfs
    ∧ params_waveformextractor (info self')
      = Some (mkWaveformExtractorParams nl nr nb al ratio)
    ∧ (∀ a b, nla = Some a → nra = Some b → nl = a ∧ nr = b)
    ∧ attrs self' !! "some_features" = None.
Proof.
  intros (nl & nr & pdp & raw & mask & peaks & waveforms & Hwin & _ & Hmask
          & Hpw & Hp & Hloop & Hidx & Hwfs & Hinfo & Hfeat)
           %extract_some_waveforms_inv.
  eexists _, _, nl, nr. split_and!; [exact Hidx| |exact Hwfs| |done..].
  { intros i j a b. apply np_unique_increasing. }
  apply np_put_true_spec in Hmask as (Hlen & Hcount & _).
  rewrite length_replicate, (nb_peak_of_length self peaks Hp), Nat2Z.id
    in Hlen.
  assert (filter (λ b : bool, b = true)
            (replicate (Z.to_nat (nb_peak_of self)) false) = []) as Hnone
    by (by apply filter_none, Forall_replicate).
  rewrite Hnone in Hcount. simpl in Hcount.
  apply segment_loop_spec in Hloop as (wfs & -> & Hall); [|done]. simpl.
  assert (length wfs ≤ length (np_unique raw))%nat as Hle.
  { rewrite <-(Forall2_length _ _ _ Hall).
    rewrite concat_by_segment_Permutation.
    - by rewrite length_fmap, length_mask_selection.
    - apply NoDup_np_unique.
    - intros p Hin%selection_in_table. apply elem_of_np_unique.
      by apply list_elem_of_fmap_2. }
  split.
  - rewrite length_app, length_replicate. lia.
  - apply Forall_app. split.
    + apply Forall_forall. intros wf [k Hk]%list_elem_of_lookup_1.
      destruct (Forall2_lookup_r _ _ _ _ _ Hall Hk) as (p & _ & Hone).
      by apply extract_one_waveform_shape in Hone.
    + apply Forall_replicate. rewrite length_replicate. split; [done|].
      apply Forall_replicate. by rewrite length_replicate.
Qed.

Lemma omap_lookup_total {A B} (f : A → option B) (l : list A) (k : nat) :
  Forall (λ x, is_Some (f x)) l → omap f l !! k = l !! k ≫= f.
Proof.
  intros Hall. revert k.
  induction Hall as [|x l [y Hy] _ IH]; intros k; [done|].
  csimpl. rewrite Hy. destruct k; simpl; [by rewrite Hy|apply IH].
Qed.

Lemma omap_length_total {A B} (f : A → option B) (l : list A) :
  Forall (λ x, is_Some (f x)) l → length (omap f l) = length l.
Proof.
  induction 1 as [|x l [y Hy] _ IH]; [done|]. csimpl. rewrite Hy. simpl.
  by rewrite IH.
Qed.

Lemma NoDup_strictly_sorted (l : list Z) : StronglySorted Z.lt l → NoDup l.
Proof.
  induction 1 as [|x l _ IH Hall]; constructor; [|done].
  intros Hx. rewrite Forall_forall in Hall. specialize (Hall x Hx). lia.
Qed.

Lemma choose_peaks_index_nonneg (mode : string) (nb : Z) self
    (raw : list Z) :
  choose_peaks_index mode nb self = Ok raw → Forall (λ i, 0 ≤ i) raw.
Proof.
  unfold choose_peaks_index. repeat case_decide; try done.
  - destruct (random_choice _ _ _) as [choice|]; [simpl|done].
    intros [= <-]. apply Forall_fmap, Forall_forall. intros i _. simpl. lia.
  - intros [= <-]. apply Forall_forall. intros i Hi%elem_of_seqZ. lia.
  - intros [= <-]. apply Forall_forall. intros i Hi%elem_of_seqZ. lia.
Qed.

(** The mask built from sorted distinct positions marks exactly these
    positions. *)
Lemma np_nonzero_put_true (n : nat) (idx : list Z) (mask : list bool) :
  np_put_true (replicate n false) idx = Ok mask →
  StronglySorted Z.le idx → NoDup idx → Forall (λ i, 0 ≤ i) idx →
  np_nonzero mask = idx.
Proof.
  intros (Hlen & _ & Hchar)%np_put_true_spec Hs Hnd Hnon.
  destruct (Hchar Hnon) as [Hlt Hiff]. rewrite length_replicate in *.
  apply (StronglySorted_unique Z.le); [|done|].
  - apply StronglySorted_of_lookup. intros i j a b Hi Hj Hij.
    pose proof (StronglySorted_lookup_lt _ _ i j a b
                  (np_nonzero_sorted mask) Hi Hj Hij). lia.
  - apply NoDup_Permutation; [|done|].
    + apply NoDup_strictly_sorted, np_nonzero_sorted.
    + intros x. split.
      * intros [Hx Hm]%np_nonzero_true. apply Hiff in Hm as [Hm|[_ Hm]].
        -- by apply lookup_replicate in Hm as [? _].
        -- by rewrite Z2Nat.id in Hm.
      * intros Hx. rewrite Forall_forall in Hnon, Hlt.
        specialize (Hnon x Hx). specialize (Hlt x Hx).
        rewrite <-(Z2Nat.id x) by done. apply np_nonzero_elem, Hiff.
        right. split; [lia|]. by rewrite Z2Nat.id.
Qed.

(** Without [align_waveform], on a peak table sorted by segment (as peak
    detection leaves it) and for positions that are not counted from the
    end: the [n]-th window of the sample is the one read around the peak
    at the [n]-th position of [some_peaks_index]: the samples from
    [index + n_left] up to, and without, [index + n_right] of the segment
    of the peak. *)
Theorem extract_some_waveforms_window_of_peak (nla nra : option Z)
    (chosen : option (list Z)) (mode : string) (nb : Z) (ratio : Z)
    self self' (peaks : list Peak) :
  all_peaks self = Some peaks →
  (∀ (i j : nat) (a b : Peak),
     peaks !! i = Some a → peaks !! j = Some b → (i < j)%nat →
     segment a ≤ segment b) →
  (∀ l, chosen = Some l → Forall (λ i, 0 ≤ i) l) →
  extract_some_waveforms nla nra chosen mode nb false ratio self
  = Ok self' →
  ∃ (idx : list Z) (wfs : list (list (list Q))) (nl nr : Z),
    some_peaks_index self' = Some idx
    ∧ some_waveforms self' = Some wfs
    ∧ params_waveformextractor (info self')
      = Some (mkWaveformExtractorParams nl nr nb false ratio)
    ∧ length wfs = length idx
    ∧ ∀ (n : nat) (i : Z),
        idx !! n = Some i →
        ∃ (p : Peak) (wf : list (list Q)),
          0 ≤ i ∧ peaks !! Z.to_nat i = Some p
          ∧ wfs !! n = Some wf
          ∧ broadcast_rows (Z.to_nat (nr - nl)) nb_channel
              (get_signals_chunk (segment p) (index p + nl)
                 (index p + nl + (nr - nl))) = Ok wf.
Proof.
  intros Hp Hsorted Hindex
    (nl & nr & pdp & raw & mask & peaks' & waveforms & _ & Hraw & Hmask
     & Hpw & Hp' & Hloop & Hidx & Hwfs & Hinfo & _)
      %extract_some_waveforms_inv.
  rewrite Hp in Hp'. injection Hp' as <-.
  set (idx := np_unique raw) in *.
  assert (Forall (λ i, 0 ≤ i) idx) as Hnon.
  { apply Forall_forall. intros i Hi.
    apply (proj1 (elem_of_np_unique raw i)) in Hi.
    assert (Forall (λ i, 0 ≤ i) raw) as Hall.
    { destruct chosen as [l|].
      - subst raw. by apply Hindex.
      - by eapply choose_peaks_index_nonneg. }
    rewrite Forall_forall in Hall.
    by apply Hall. }
  rewrite (nb_peak_of_length self peaks Hp), Nat2Z.id in Hmask.
  pose proof (np_nonzero_put_true _ _ _ Hmask
                (StronglySorted_merge_sort _ _) (NoDup_np_unique raw) Hnon)
    as Hnz.
  apply np_put_true_spec in Hmask as (Hlen & _ & Hchar).
  destruct (Hchar Hnon) as [Hlt _]. rewrite length_replicate in Hlen, Hlt.
  apply segment_loop_spec in Hloop as (wfs & -> & Hall); [|done].
  simpl in Hwfs.
  (* the selected peaks are the peaks at the positions [idx] *)
  set (M := fst <$> filter (λ xb : Peak * bool, snd xb = true)
                      (zip peaks mask)) in *.
  assert (M = omap (λ i, peaks !! Z.to_nat i) idx) as HM.
  { pose proof (np_mask_select_nonzero mask peaks Hlen) as Hsel.
    unfold np_mask_select in Hsel. rewrite decide_True in Hsel by done.
    injection Hsel as Hsel. by rewrite Hnz in Hsel. }
  assert (Forall (λ i, is_Some (peaks !! Z.to_nat i)) idx) as Htotal.
  { apply Forall_forall. intros i Hi.
    pose proof (proj1 (Forall_forall _ _) Hnon i Hi).
    pose proof (proj1 (Forall_forall _ _) Hlt i Hi).
    apply lookup_lt_is_Some_2. cbv beta in *. lia. }
  assert (∀ k, M !! k = idx !! k ≫= λ i, peaks !! Z.to_nat i) as Hlook.
  { intros k. rewrite HM. by apply omap_lookup_total. }
  assert (length M = length idx) as HlenM.
  { rewrite HM. by apply omap_length_total. }
  rewrite concat_by_segment_sorted in Hall.
  - pose proof (Forall2_length _ _ _ Hall) as Hlenw.
    exists idx, wfs, nl, nr.
    replace (length idx - length wfs)%nat with 0%nat in Hwfs by lia.
    rewrite app_nil_r in Hwfs.
    split_and!; [done| |done|lia|].
    { unfold some_waveforms. by rewrite Hwfs. }
    intros n i Hi. pose proof (Hlook n) as Hn. rewrite Hi in Hn.
    simpl in Hn.
    assert (i ∈ idx) as Hin by by eapply list_elem_of_lookup_2.
    destruct (proj1 (Forall_forall _ _) Htotal i Hin) as [p Hpi].
    rewrite Hpi in Hn.
    destruct (Forall2_lookup_l _ _ _ _ _ Hall Hn) as (wf & Hwf & Hone).
    exists p, wf.
    split_and!; [exact (proj1 (Forall_forall _ _) Hnon i Hin)|done..|].
    revert Hone. unfold extract_one_waveform. simpl.
    destruct (broadcast_rows _ _ _) as [wf'|]; simpl; [|done].
    by intros [= <-].
  - apply StronglySorted_of_lookup. intros i j a b.
    apply np_unique_increasing.
  - apply StronglySorted_of_lookup. intros i j a b Hi Hj Hij.
    rewrite Hlook in Hi, Hj.
    destruct (idx !! i) as [ia|] eqn:Hia; [simpl in Hi|done].
    destruct (idx !! j) as [ib|] eqn:Hib; [simpl in Hj|done].
    pose proof (np_unique_increasing raw i j ia ib Hia Hib Hij).
    rewrite Forall_forall in Hnon.
    apply (Hsorted (Z.to_nat ia) (Z.to_nat ib)); [done..|].
    assert (0 ≤ ia) by by eapply Hnon, list_elem_of_lookup_2.
    lia.
  - intros p Hin%selection_in_table. apply elem_of_np_unique.
    by apply list_elem_of_fmap_2.
Qed.
End WaveformExtractorFacts.

(** ** Limits of the window: the edges of the flags *)

Lemma np_nonzero_iff (mask : list bool) (x : Z) :
  x ∈ np_nonzero mask ↔ 0 ≤ x ∧ mask !! Z.to_nat x = Some true.
Proof.
  split; [apply np_nonzero_true|]. intros [Hx Hm].
  rewrite <-(Z2Nat.id x) by done. by apply np_nonzero_elem.
Qed.

Lemma np_diff_lookup (above : list bool) (i : nat) :
  np_diff ((λ b : bool, if b then 1 else 0) <$> above) !! i
  = (x ← above !! i; y ← above !! S i;
     Some ((if y : bool then 1 else 0) - (if x : bool then 1 else 0))).
Proof.
  unfold np_diff. rewrite lookup_zip_with, lookup_tail, !list_lookup_fmap.
  destruct (above !! i) as [x|]; [simpl|done].
  by destruct (above !! S i) as [y|].
Qed.

(** The positions that [find_good_limits] calls [up] and [down] are the
    samples after which the flags rise and fall. *)
Lemma np_where_diff (above : list bool) (z : Z) :
  let d := np_diff ((λ b : bool, if b then 1 else 0) <$> above) in
  (z ∈ np_where_eq d 1 ↔ ∃ i, z = Z.of_nat i ∧ rises_after above i)
  ∧ (z ∈ np_where_eq d (-1) ↔ ∃ i, z = Z.of_nat i ∧ falls_after above i).
Proof.
  intros d. unfold np_where_eq, rises_after, falls_after.
  rewrite !np_nonzero_iff, !list_lookup_fmap. unfold d.
  rewrite np_diff_lookup. split; split.
  - intros [Hz Hm]. exists (Z.to_nat z). split; [lia|].
    destruct (above !! Z.to_nat z) as [[]|]; try done;
      destruct (above !! S (Z.to_nat z)) as [[]|]; done.
  - intros (i & -> & Hx & Hy). rewrite Nat2Z.id, Hx, Hy. split; [lia|done].
  - intros [Hz Hm]. exists (Z.to_nat z). split; [lia|].
    destruct (above !! Z.to_nat z) as [[]|]; try done;
      destruct (above !! S (Z.to_nat z)) as [[]|]; done.
  - intros (i & -> & Hx & Hy). rewrite Nat2Z.id, Hx, Hy. split; [lia|done].
Qed.

Lemma interleaved_above (lo : Z) (xs ys : list Z) :
  interleaved lo xs ys →
  Forall (λ x, lo < x) xs ∧ Forall (λ y, lo < y) ys.
Proof.
  induction 1 as [|lo x xs ys Hlo _ [IHy IHx]]; [by split|]. split.
  - constructor; [done|]. eapply Forall_impl; [exact IHx|]. simpl. lia.
  - eapply Forall_impl; [exact IHy|]. simpl. lia.
Qed.

Lemma interleaved_shift (lo : Z) (xs ys : list Z) :
  interleaved lo xs ys →
  interleaved (Z.succ lo) (Z.succ <$> xs) (Z.succ <$> ys).
Proof.
  induction 1 as [|lo x xs ys Hlo _ IH]; [constructor|].
  rewrite fmap_cons. constructor; [lia|done].
Qed.

Lemma interleaved_weaken (lo lo' : Z) (xs ys : list Z) :
  interleaved lo xs ys → lo' ≤ lo → interleaved lo' xs ys.
Proof. destruct 1; intros Hle; constructor; [lia|done]. Qed.

Lemma omap_id_fmap_succ (l : list (option Z)) :
  omap id (fmap Z.succ <$> l) = Z.succ <$> omap id l.
Proof.
  induction l as [|[x|] l IH]; [done|..].
  - rewrite fmap_cons. cbn [omap list_omap fmap option_fmap option_map id].
    rewrite fmap_cons. f_equal. exact IH.
  - rewrite fmap_cons. cbn [omap list_omap fmap option_fmap option_map id].
    exact IH.
Qed.

Lemma np_nonzero_cons (b : bool) (mask : list bool) :
  np_nonzero (b :: mask)
  = (if b then [0] else []) ++ (Z.succ <$> np_nonzero mask).
Proof.
  unfold np_nonzero. rewrite imap_cons. cbn [omap list_omap].
  rewrite <-omap_id_fmap_succ, fmap_imap.
  rewrite (imap_ext _ (λ n, fmap Z.succ ∘ (λ b : bool, if b then Some (Z.of_nat n) else None)) mask).
  2:{ intros i [] _; simpl; [|done]. f_equal. lia. }
  by destruct b.
Qed.

Lemma np_where_eq_cons (x v : Z) (d : list Z) :
  np_where_eq (x :: d) v
  = (if decide (x = v) then [0] else []) ++ (Z.succ <$> np_where_eq d v).
Proof.
  unfold np_where_eq. rewrite fmap_cons, np_nonzero_cons.
  by destruct (decide (x = v)) as [->|?];
    [rewrite bool_decide_eq_true_2|rewrite bool_decide_eq_false_2].
Qed.

(** The rises and the falls of the flags alternate, and a fall comes
    first when the first sample is flagged. *)
Lemma edges_interleaved (b : bool) (above : list bool) :
  let d := np_diff ((λ b : bool, if b then 1 else 0) <$> b :: above) in
  if b then interleaved (-1) (np_where_eq d (-1)) (np_where_eq d 1)
  else interleaved (-1) (np_where_eq d 1) (np_where_eq d (-1)).
Proof.
  revert b. induction above as [|b' above IH]; intros b; cbv zeta.
  - destruct b; constructor.
  - specialize (IH b'). cbv zeta in IH.
    change (np_diff ((λ b : bool, if b then 1 else 0) <$> b :: b' :: above))
      with (((if b' then 1 else 0) - (if b then 1 else 0))
              :: np_diff ((λ b : bool, if b then 1 else 0) <$> b' :: above)).
    set (d := np_diff _) in *. rewrite !np_where_eq_cons.
    destruct b, b'; simpl.
    + apply (interleaved_weaken 0); [|lia]. by apply interleaved_shift in IH.
    + constructor; [lia|]. by apply interleaved_shift in IH.
    + constructor; [lia|]. by apply interleaved_shift in IH.
    + apply (interleaved_weaken 0); [|lia]. by apply interleaved_shift in IH.
Qed.

(** Of two alternating lists that start with [up], the rises before the
    last fall pair up with the falls. *)
Lemma interleaved_filter_before (lo m : Z) (up down : list Z) :
  interleaved lo up down → m ∈ down → (∀ d, d ∈ down → d ≤ m) →
  interleaved lo (filter (λ u, u < m) up) down
  ∧ length (filter (λ u, u < m) up) = length down.
Proof.
  revert lo up. induction down as [|d1 down1 IH]; intros lo up Hil Hm Hmax.
  { by apply elem_of_nil in Hm. }
  inversion Hil as [|? u1 up1 ? Hlo Hil1]; subst.
  inversion Hil1 as [|? ? ? ? Hu1 Hil2]; subst.
  assert (d1 ≤ m) by (apply Hmax; left).
  rewrite filter_cons_True by lia.
  destruct (interleaved_above _ _ _ Hil2) as [Hup1 Hdown1].
  destruct down1 as [|d2 down2].
  - apply list_elem_of_singleton in Hm as ->.
    rewrite filter_none.
    2:{ eapply Forall_impl; [exact Hup1|]. simpl. lia. }
    split; [|done]. repeat constructor; lia.
  - assert (m ∈ d2 :: down2) as Hm'.
    { apply elem_of_cons in Hm as [->|Hm]; [|done].
      apply Forall_cons in Hdown1 as [Hd2 _].
      specialize (Hmax d2 ltac:(right; left)). lia. }
    destruct (IH d1 up1 Hil2 Hm') as [Hil' Hlen].
    { intros d Hd. apply Hmax. by right. }
    split; [|simpl in *; lia]. constructor; [done|]. by constructor.
Qed.

(** In two alternating lists of the same length, the [k]-th of the second
    is the first of its list above the [k]-th of the first. *)
Lemma interleaved_pair (lo : Z) (xs ys : list Z) (k : nat) (x y : Z) :
  interleaved lo xs ys → length xs = length ys →
  xs !! k = Some x → ys !! k = Some y →
  x < y ∧ ∀ y', y' ∈ ys → x < y' → y ≤ y'.
Proof.
  revert lo ys k. induction xs as [|x1 xs1 IH]; intros lo ys k Hil Hlen Hx Hy.
  { done. }
  destruct ys as [|y1 ys1]; [done|].
  inversion Hil as [|? ? ? ? Hlo Hil1]; subst.
  inversion Hil1 as [|? ? ? ? Hx1 Hil2]; subst.
  destruct (interleaved_above _ _ _ Hil2) as [Hxs1 Hys1].
  rewrite Forall_forall in Hxs1, Hys1.
  destruct k as [|k]; simpl in Hx, Hy.
  - injection Hx as <-. injection Hy as <-. split; [done|].
    intros y' [->|Hy']%elem_of_cons _; [done|].
    specialize (Hys1 y' Hy'). lia.
  - destruct (IH y1 ys1 k Hil2 ltac:(simpl in Hlen; lia) Hx Hy)
      as [Hlt Hfirst].
    split; [done|]. intros y' [->|Hy']%elem_of_cons Hxy'; [|by apply Hfirst].
    apply list_elem_of_lookup_2 in Hx. specialize (Hxs1 x Hx). lia.
Qed.

(** [np.argmax] of integers returns the position of a largest value. *)
Lemma np_argmax_int_spec (l : list Z) (i : Z) :
  np_argmax_int l = Ok i →
  ∃ x, 0 ≤ i ∧ l !! Z.to_nat i = Some x ∧ ∀ y, y ∈ l → y ≤ x.
Proof.
  destruct l as [|x0 l]; [done|]. unfold np_argmax_int. intros [= <-].
  assert (∀ (ixs : list (nat * Z)) (best : nat * Z),
            let best' := foldl (λ best ix : nat * Z,
                                  if decide (snd best < snd ix) then ix
                                  else best) best ixs in
            (best' = best ∨ best' ∈ ixs) ∧ snd best ≤ snd best'
            ∧ ∀ ix, ix ∈ ixs → snd ix ≤ snd best') as Hloop.
  { clear. induction ixs as [|ix ixs IH]; intros best; cbn [foldl].
    - split_and!; [by left|lia|]. intros ix Hix. by apply elem_of_nil in Hix.
    - destruct (IH (if decide (snd best < snd ix) then ix else best))
        as (Hsel & Hle & Hall). cbv zeta. split_and!.
      + destruct Hsel as [->|Hin]; [|right; by right].
        case_decide; [right; left|by left].
      + case_decide; lia.
      + intros ix' [->|Hix]%elem_of_cons; [|by apply Hall].
        case_decide; lia. }
  destruct (Hloop (imap (λ i y, (S i, y)) l) (0%nat, x0))
    as (Hsel & Hle & Hall).
  set (best := foldl _ _ _) in *. exists (snd best).
  rewrite Nat2Z.id. split_and!; [lia| |].
  - destruct Hsel as [->|Hin]; [done|].
    apply elem_of_lookup_imap in Hin as (i & y & -> & Hi). done.
  - intros y [->|Hy]%elem_of_cons; [done|].
    apply list_elem_of_lookup_1 in Hy as [i Hi].
    apply (Hall (S i, y)).
    by apply (elem_of_lookup_imap_2 (λ i y, (S i, y))).
Qed.

(** Between a rise and the first fall after it all samples are flagged. *)
Lemma flagged_run (above : list bool) (u d : nat) :
  rises_after above u → falls_after above d → (u < d)%nat →
  (∀ d', falls_after above d' → (u < d')%nat → (d ≤ d')%nat) →
  ∀ j, (u < j ≤ d)%nat → above !! j = Some true.
Proof.
  intros [_ Hu] [Hd Hd'] Hud Hfirst j [Huj Hjd].
  induction j as [|j IH]; [lia|].
  destruct (decide (j = u)) as [->|Hne]; [done|].
  specialize (IH ltac:(lia) ltac:(lia)).
  destruct (above !! S j) as [[]|] eqn:Hj; [done| |].
  - specialize (Hfirst j (conj IH Hj) ltac:(lia)). lia.
  - apply lookup_ge_None in Hj. apply lookup_lt_Some in Hd. lia.
Qed.

Lemma np_getitem_lookup {A} (a : list A) (i : Z) (x : A) :
  0 ≤ i → a !! Z.to_nat i = Some x → np_getitem a i = Ok x.
Proof.
  intros Hi Hx. unfold np_getitem. cbv zeta.
  pose proof (lookup_lt_Some _ _ _ Hx).
  rewrite (decide_False (P := i < 0)) by lia. rewrite decide_True by lia.
  by rewrite Hx.
Qed.

Lemma interleaved_filter_after (lo m0 : Z) (up down : list Z) :
  interleaved lo up down → m0 ∈ up → (∀ u, u ∈ up → m0 ≤ u) →
  filter (λ d, m0 < d) down = down.
Proof.
  intros Hil Hm0 Hmin. inversion Hil as [|? u1 up1 ? Hlo Hil1]; subst.
  { by apply elem_of_nil in Hm0. }
  destruct (interleaved_above _ _ _ Hil1) as [Hdown _].
  apply filter_all. eapply Forall_impl; [exact Hdown|]. simpl.
  specialize (Hmin u1 ltac:(left)). lia.
Qed.

(** What the two filters of [find_good_limits] leave when some rise comes
    before some fall: as many rises as falls, in alternation. *)
Lemma edges_paired (above : list bool) (u0 d0 : nat) :
  rises_after above u0 → falls_after above d0 → (u0 < d0)%nat →
  let d := np_diff ((λ b : bool, if b then 1 else 0) <$> above) in
  ∃ m m0 lo,
    py_max (np_where_eq d (-1)) = Ok m
    ∧ py_min (filter (λ u, u < m) (np_where_eq d 1)) = Ok m0
    ∧ m0 < m
    ∧ interleaved lo (filter (λ u, u < m) (np_where_eq d 1))
        (filter (λ d, m0 < d) (np_where_eq d (-1)))
    ∧ length (filter (λ u, u < m) (np_where_eq d 1))
      = length (filter (λ d, m0 < d) (np_where_eq d (-1)))
    ∧ filter (λ u, u < m) (np_where_eq d 1) ≠ [].
Proof.
  intros Hu0 Hd0 Hlt d.
  assert (Z.of_nat u0 ∈ np_where_eq d 1) as Hu.
  { apply (proj1 (np_where_diff above _)). eauto. }
  assert (Z.of_nat d0 ∈ np_where_eq d (-1)) as Hd.
  { apply (proj2 (np_where_diff above _)). eauto. }
  destruct above as [|b above]; [by destruct Hu0|].
  pose proof (edges_interleaved b above) as Hil. cbv zeta in Hil.
  fold d in Hil. revert Hu Hd Hil.
  generalize (np_where_eq d 1) (np_where_eq d (-1)). intros up down Hu Hd Hil.
  destruct (py_max down) as [m|] eqn:Hmax.
  2:{ destruct down; [by apply elem_of_nil in Hd|done]. }
  pose proof (py_max_spec _ _ Hmax) as [Hm Hmmax].
  assert (∃ lo down1, interleaved lo up down1 ∧ m ∈ down1
            ∧ (∀ x, x ∈ down1 → x ≤ m)
            ∧ ∀ m0, m0 ∈ up →
                filter (λ d, m0 < d) down = filter (λ d, m0 < d) down1)
    as (lo & down1 & Hil1 & Hm1 & Hmax1 & Hsame).
  { destruct b.
    - inversion Hil as [|? d1 down1 ? Hlo Hil1]; subst.
      { by apply elem_of_nil in Hd. }
      destruct (interleaved_above _ _ _ Hil1) as [Hup Hdown].
      rewrite Forall_forall in Hup, Hdown.
      exists d1, down1. split_and!; [done| | |].
      + apply elem_of_cons in Hm as [->|Hm]; [|done]. exfalso.
        apply elem_of_cons in Hd as [Hd|Hd].
        * specialize (Hup _ Hu). lia.
        * specialize (Hdown _ Hd). specialize (Hmmax _ ltac:(right; exact Hd)).
          lia.
      + intros x Hx. apply Hmmax. by right.
      + intros m0 Hm0. specialize (Hup _ Hm0).
        by rewrite filter_cons_False by lia.
    - exists (-1), down. split_and!; done. }
  destruct (interleaved_filter_before _ _ _ _ Hil1 Hm1 Hmax1) as [Hil' Hlen].
  set (up' := filter (λ u, u < m) up) in *.
  assert (up' ≠ []) as Hne.
  { intros Hnil. rewrite Hnil in Hlen. destruct down1; [|done].
    by apply elem_of_nil in Hm1. }
  destruct (py_min up') as [m0|] eqn:Hmin; [|by destruct up'].
  pose proof (py_min_spec _ _ Hmin) as [Hm0 Hm0min].
  pose proof Hm0 as [Hm0lt Hm0up]%list_elem_of_filter.
  exists m, m0, lo. rewrite (Hsame m0 Hm0up).
  rewrite (interleaved_filter_after _ _ _ _ Hil' Hm0 Hm0min).
  split_and!; done.
Qed.

(** The limits that [find_good_limits] reads off the flags when some rise
    comes before some fall: those of a longest run of flagged samples that
    starts after a rise and ends with a fall. *)
Lemma limits_of_flags_longest_run (above : list bool)
    (old_n_left min_left max_right : Z) (u0 d0 : nat) :
  rises_after above u0 → falls_after above d0 → (u0 < d0)%nat →
  ∃ u d : nat,
    limits_of_flags above old_n_left min_left max_right
    = Ok (Some (Z.min (old_n_left + Z.of_nat u) min_left,
                Z.max (old_n_left + Z.of_nat d + 1) max_right))
    ∧ rises_after above u ∧ falls_after above d ∧ (u < d)%nat
    ∧ (∀ j, (u < j ≤ d)%nat → above !! j = Some true)
    ∧ ∀ u' d',
        rises_after above u' → falls_after above d' → (u' < d')%nat →
        (∀ j, (u' < j ≤ d')%nat → above !! j = Some true) →
        (d' - u' ≤ d - u)%nat.
Proof.
  intros Hu0 Hd0 Hlt.
  destruct (edges_paired above u0 d0 Hu0 Hd0 Hlt)
    as (m & m0 & lo & Hmax & Hmin & Hm0m & Hil & Hlen & Hne).
  unfold limits_of_flags. cbv zeta.
  pose proof (np_where_diff above) as Hedges. cbv zeta in Hedges.
  set (dd := np_diff _) in *.
  assert (Z.of_nat u0 ∈ np_where_eq dd 1) as Hu.
  { apply (proj1 (Hedges _)). eauto. }
  assert (Z.of_nat d0 ∈ np_where_eq dd (-1)) as Hd.
  { apply (proj2 (Hedges _)). eauto. }
  pose proof (py_max_spec _ _ Hmax) as [Hm Hmmax].
  pose proof (py_min_spec _ _ Hmin) as [Hm0 Hm0min].
  set (up := np_where_eq dd 1) in *. set (down := np_where_eq dd (-1)) in *.
  rewrite decide_False.
  2:{ intros [Hz|Hz]; apply nil_length_inv in Hz; rewrite Hz in *;
        by eapply elem_of_nil. }
  rewrite Hmax. cbn [mbind result_bind]. rewrite Hmin. cbn [mbind result_bind].
  set (up' := filter (λ u, u < m) up) in *.
  set (down' := filter (λ d, m0 < d) down) in *.
  rewrite decide_False.
  2:{ intros [Hz|Hz]; [|rewrite <-Hlen in Hz];
        by apply nil_length_inv in Hz. }
  unfold np_subtract. rewrite decide_True by done. cbn [mbind result_bind].
  destruct (np_argmax_int (zip_with Z.sub down' up')) as [best|] eqn:Hbest.
  2:{ destruct up', down'; done. }
  cbn [mbind result_bind].
  apply np_argmax_int_spec in Hbest as (x & Hbest0 & Hx & Hxmax).
  apply lookup_zip_with_Some in Hx as (d & u & -> & Hdk & Huk).
  rewrite (np_getitem_lookup _ _ _ Hbest0 Huk). cbn [mbind result_bind].
  rewrite (np_getitem_lookup _ _ _ Hbest0 Hdk). cbn [mbind result_bind].
  assert (∀ z, z ∈ up' → ∃ i, z = Z.of_nat i ∧ rises_after above i) as Hup'.
  { intros z [_ Hz]%list_elem_of_filter. by apply (proj1 (Hedges z)). }
  assert (∀ z, z ∈ down' ↔
               m0 < z ∧ ∃ i, z = Z.of_nat i ∧ falls_after above i) as Hdown'.
  { intros z. unfold down'. rewrite list_elem_of_filter.
    by rewrite (proj2 (Hedges z)). }
  destruct (Hup' u (list_elem_of_lookup_2 _ _ _ Huk)) as (i & -> & Hrise).
  destruct (proj1 (Hdown' d) (list_elem_of_lookup_2 _ _ _ Hdk))
    as (_ & j & -> & Hfall).
  destruct (interleaved_pair _ _ _ _ _ _ Hil Hlen Huk Hdk) as [Hij Hfirst].
  exists i, j. split_and!; [done|done|done|lia| |].
  - apply flagged_run; [done|done|lia|]. intros j' Hj' Hij'.
    assert (Z.of_nat j ≤ Z.of_nat j'); [|lia]. apply Hfirst; [|lia].
    apply Hdown'. split; [|eauto].
    specialize (Hm0min _ (list_elem_of_lookup_2 _ _ _ Huk)). lia.
  - intros u' d' Hru' Hfd' Hud' Hrun.
    assert (Z.of_nat d' ∈ down) as Hd'.
    { apply (proj2 (Hedges _)). eauto. }
    assert (Z.of_nat u' ∈ up') as Hu'.
    { apply list_elem_of_filter. split.
      - specialize (Hmmax _ Hd'). lia.
      - apply (proj1 (Hedges _)). eauto. }
    pose proof Hu' as [k Hk]%list_elem_of_lookup_1.
    destruct (lookup_lt_is_Some_2 down' k) as [dk Hdk'].
    { rewrite <-Hlen. by eapply lookup_lt_Some. }
    destruct (interleaved_pair _ _ _ _ _ _ Hil Hlen Hk Hdk')
      as [Hlt' Hfirst'].
    assert (Z.of_nat d' ∈ down') as Hd'in.
    { apply Hdown'. split; [|eauto]. specialize (Hm0min _ Hu'). lia. }
    specialize (Hfirst' _ Hd'in ltac:(lia)).
    destruct (proj1 (Hdown' dk) (list_elem_of_lookup_2 _ _ _ Hdk'))
      as (_ & jk & -> & [_ Hfk]).
    assert (jk = d') as ->.
    { destruct (decide (jk = d')) as [|Hne']; [done|]. exfalso.
      specialize (Hrun (S jk) ltac:(lia)). congruence. }
    assert (Z.of_nat d' - Z.of_nat u' ≤ Z.of_nat j - Z.of_nat i); [|lia].
    apply Hxmax. apply (list_elem_of_lookup_2 _ k).
    rewrite lookup_zip_with, Hdk'. simpl. by rewrite Hk.
Qed.

Section GoodLimitsEdge.
Context {Projector : Type}
  `{!DataIO, !RandomState, !ProjectorOps Projector, !Resampler, !Tools}.
Implicit Types self : CatalogueConstructor Projector.

(** When the flags rise and fall, but only rise after their last fall (a
    window flagged at both ends and not in between), [find_good_limits]
    fails with [ValueError] on [min(up)], the minimum of an empty sequence,
    before the check that would return [(None, None)]. *)
Theorem find_good_limits_rise_after_fall (mad_threshold channel_percent : Q)
    (extract : bool) (min_left max_right : Z) self
    (wfp : WaveformExtractorParams) (dtype : float_dtype)
    (median mad : list (list float64)) (above : list bool) :
  params_waveformextractor (info self) = Some wfp →
  median_mad (some_waveforms self) = Ok (dtype, median, mad) →
  flags_above mad_threshold channel_percent dtype mad = Ok above →
  (∃ u, rises_after above u) → (∃ d, falls_after above d) →
  (∀ u d, rises_after above u → falls_after above d → (d < u)%nat) →
  find_good_limits mad_threshold channel_percent extract min_left max_right
    self = Raise ValueError.
Proof.
  intros Hwfp Hmad Habove [u0 Hu0] [d0 Hd0] Horder.
  unfold find_good_limits. rewrite Hwfp. simpl. rewrite Hmad. simpl.
  rewrite Habove. simpl. unfold limits_of_flags.
  destruct (np_where_diff above (Z.of_nat u0)) as [Hup _].
  destruct (np_where_diff above (Z.of_nat d0)) as [_ Hdown].
  set (d := np_diff _) in *. cbv zeta in Hup, Hdown.
  assert (Z.of_nat u0 ∈ np_where_eq d 1) as Hu by (apply Hup; eauto).
  assert (Z.of_nat d0 ∈ np_where_eq d (-1)) as Hd by (apply Hdown; eauto).
  rewrite decide_False.
  2:{ intros [Hz|Hz]; apply nil_length_inv in Hz; rewrite Hz in *;
        by eapply elem_of_nil. }
  destruct (py_max (np_where_eq d (-1))) as [m|] eqn:Hmax.
  2:{ destruct (np_where_eq d (-1)); [by apply elem_of_nil in Hd|done]. }
  simpl. apply py_max_spec in Hmax as [Hm _].
  rewrite filter_none; [done|].
  apply Forall_forall. intros z Hz.
  apply (proj1 (np_where_diff above z)) in Hz as (u & -> & Hru).
  apply (proj2 (np_where_diff above m)) in Hm as (dm & -> & Hfd).
  specialize (Horder u dm Hru Hfd). lia.
Qed.

(** Without a rise or without a fall of the flags [find_good_limits]
    returns [(None, None)] and leaves the constructor alone: nothing is
    extracted, whatever [extract] says. *)
Theorem find_good_limits_without_edge (mad_threshold channel_percent : Q)
    (extract : bool) (min_left max_right : Z) self
    (wfp : WaveformExtractorParams) (dtype : float_dtype)
    (median mad : list (list float64)) (above : list bool) :
  params_waveformextractor (info self) = Some wfp →
  median_mad (some_waveforms self) = Ok (dtype, median, mad) →
  flags_above mad_threshold channel_percent dtype mad = Ok above →
  (∀ u, ¬ rises_after above u) ∨ (∀ d, ¬ falls_after above d) →
  find_good_limits mad_threshold channel_percent extract min_left max_right
    self = Ok (self, None).
Proof.
  intros Hwfp Hmad Habove Hnone.
  unfold find_good_limits. rewrite Hwfp. simpl. rewrite Hmad. simpl.
  rewrite Habove. simpl. unfold limits_of_flags.
  pose proof (np_where_diff above) as Hedges. cbv zeta in Hedges.
  set (d := np_diff _) in *. cbv zeta.
  rewrite decide_True; [done|].
  destruct Hnone as [Hnone|Hnone]; [left|right].
  - destruct (np_where_eq d 1) as [|z up] eqn:Hup; [done|]. exfalso.
    destruct (proj1 (proj1 (Hedges z))) as (u & _ & Hu); [left|].
    by apply (Hnone u).
  - destruct (np_where_eq d (-1)) as [|z down] eqn:Hdown; [done|]. exfalso.
    destruct (proj1 (proj2 (Hedges z))) as (u & _ & Hu); [left|].
    by apply (Hnone u).
Qed.

(** When some rise of the flags comes before some fall, the limits that
    [find_good_limits] computes are those of a longest run of flagged
    samples that starts after a rise and ends with a fall, widened to
    [min_left] and [max_right]: it returns them, after a new extraction
    with these limits when [extract] is set. *)
Theorem find_good_limits_longest_run (mad_threshold channel_percent : Q)
    (extract : bool) (min_left max_right : Z) self
    (wfp : WaveformExtractorParams) (dtype : float_dtype)
    (median mad : list (list float64)) (above : list bool) :
  params_waveformextractor (info self) = Some wfp →
  median_mad (some_waveforms self) = Ok (dtype, median, mad) →
  flags_above mad_threshold channel_percent dtype mad = Ok above →
  (∃ u d, rises_after above u ∧ falls_after above d ∧ (u < d)%nat) →
  ∃ u d : nat,
    rises_after above u ∧ falls_after above d ∧ (u < d)%nat
    ∧ (∀ j, (u < j ≤ d)%nat → above !! j = Some true)
    ∧ (∀ u' d',
         rises_after above u' → falls_after above d' → (u' < d')%nat →
         (∀ j, (u' < j ≤ d')%nat → above !! j = Some true) →
         (d' - u' ≤ d - u)%nat)
    ∧ let limits := (Z.min (n_left wfp + Z.of_nat u) min_left,
                     Z.max (n_left wfp + Z.of_nat d + 1) max_right) in
      find_good_limits mad_threshold channel_percent extract min_left
        max_right self
      = if extract then
          self' ← extract_some_waveforms (Some (fst limits))
                    (Some (snd limits)) (some_peaks_index self) "rand" 10000
                    (align_waveform wfp) 20 (set_projector None self);
          Ok (self', Some limits)
        else Ok (self, Some limits).
Proof.
  intros Hwfp Hmad Habove (u0 & d0 & Hu0 & Hd0 & Hlt).
  destruct (limits_of_flags_longest_run above (n_left wfp) min_left
              max_right u0 d0 Hu0 Hd0 Hlt)
    as (u & d & Hlimits & Hu & Hd & Hud & Hrun & Hlongest).
  exists u, d. split_and!; [done..|]. cbv zeta.
  unfold find_good_limits. rewrite Hwfp. simpl. rewrite Hmad. simpl.
  rewrite Habove. simpl. rewrite Hlimits. simpl. by destruct extract.
Qed.
End GoodLimitsEdge.

(** ** Colours of the clusters *)

Section ColorsFacts.
Context {Projector : Type} `{!LabelCodes, !Palette}.
Implicit Types self : CatalogueConstructor Projector.

Lemma color_loop_spec (color_table : list color) (iks : list (nat * Z))
    (colors colors' : gmap Z color) :
  foldlM (λ (colors : gmap Z color) (ik : nat * Z),
            match colors !! snd ik with
            | Some _ => Ok colors
            | None =>
                c ← np_getitem color_table (Z.of_nat (fst ik));
                Ok (<[snd ik := c]> colors)
            end) iks colors = Ok colors' →
  (∀ k c, colors !! k = Some c → colors' !! k = Some c)
  ∧ ∀ ik, ik ∈ iks → is_Some (colors' !! snd ik).
Proof.
  revert colors. induction iks as [|[i k] iks IH]; intros colors; simpl.
  - intros [= <-]. split; [done|]. intros ik Hik.
    by apply elem_of_nil in Hik.
  - destruct (colors !! k) as [c0|] eqn:Hk; simpl.
    + intros [Hkeep Hall]%IH. split; [done|].
      intros ik [->|Hik]%elem_of_cons; [|by apply Hall].
      simpl. rewrite (Hkeep k c0 Hk). eauto.
    + destruct (np_getitem _ _) as [c|]; [simpl|done].
      intros [Hkeep Hall]%IH. split.
      * intros k' c' Hk'. apply Hkeep. rewrite lookup_insert_ne; [done|].
        intros <-. congruence.
      * intros ik [->|Hik]%elem_of_cons; [|by apply Hall].
        simpl. rewrite (Hkeep k c); [eauto|]. by rewrite lookup_insert_eq.
Qed.

(** After [refresh_colors] the three reserved labels have their fixed
    greys (the later of two equal codes wins), every cluster with a
    non-negative label has a colour, and without [reset] the colours that
    were assigned before are kept for all labels but the reserved ones. *)
Theorem refresh_colors_spec (reset : bool) (palette : string)
    (colors : option (gmap Z color)) self (colors' : gmap Z color) :
  refresh_colors reset palette colors self = Ok colors' →
  colors' !! LABEL_NOISE = Some (8 # 10, 8 # 10, 8 # 10)
  ∧ (LABEL_UNCLASSIFIED ≠ LABEL_NOISE →
     colors' !! LABEL_UNCLASSIFIED = Some (6 # 10, 6 # 10, 6 # 10))
  ∧ (LABEL_TRASH ≠ LABEL_NOISE → LABEL_TRASH ≠ LABEL_UNCLASSIFIED →
     colors' !! LABEL_TRASH = Some (4 # 10, 4 # 10, 4 # 10))
  ∧ (∀ k, k ∈ positive_cluster_labels self → is_Some (colors' !! k))
  ∧ (reset = false →
     ∀ old k c, colors = Some old → old !! k = Some c →
       k ≠ LABEL_TRASH → k ≠ LABEL_UNCLASSIFIED → k ≠ LABEL_NOISE →
       colors' !! k = Some c).
Proof.
  unfold refresh_colors. cbv zeta.
  destruct (color_palette _ _) as [color_table|]; [simpl|done].
  destruct (if reset then Some ∅ else colors) as [colors0|] eqn:Hstart;
    [simpl|done].
  destruct (foldlM _ _ colors0) as [colors1|] eqn:Hloop; [simpl|done].
  intros [= <-]. apply color_loop_spec in Hloop as [Hkeep Hall].
  split_and!.
  - by rewrite lookup_insert_eq.
  - intros Hne. rewrite lookup_insert_ne by done. by rewrite lookup_insert_eq.
  - intros Hn1 Hn2.
    rewrite !lookup_insert_ne by done. by rewrite lookup_insert_eq.
  - intros k Hk. apply list_elem_of_lookup_1 in Hk as [i Hi].
    assert (is_Some (colors1 !! k)) as [c Hc].
    { apply (Hall (i, k)).
      by apply (elem_of_lookup_imap_2 (λ i k, (i, k))). }
    destruct (decide (k = LABEL_NOISE)) as [->|?];
      [rewrite lookup_insert_eq; eauto|rewrite lookup_insert_ne by done].
    destruct (decide (k = LABEL_UNCLASSIFIED)) as [->|?];
      [rewrite lookup_insert_eq; eauto|rewrite lookup_insert_ne by done].
    destruct (decide (k = LABEL_TRASH)) as [->|?];
      [rewrite lookup_insert_eq; eauto|rewrite lookup_insert_ne by done].
    eauto.
  - intros -> old k c -> Hold Hn1 Hn2 Hn3. injection Hstart as <-.
    rewrite !lookup_insert_ne by done. by apply Hkeep.
Qed.
End ColorsFacts.

(** ** The further properties at work on the examples *)

Lemma on_new_cluster_increasing_labels_witness :
  let self := Examples.constructor Examples.four_peaks None Examples.empty_info in
  ∃ tbl, clusters (on_new_cluster self) = Some tbl
    ∧ ∀ (i j : nat) (a b : Cluster),
        tbl !! i = Some a → tbl !! j = Some b → (i < j)%nat →
        cluster_label a < cluster_label b.
Proof.
  apply (on_new_cluster_increasing_labels
           (Examples.constructor Examples.four_peaks None Examples.empty_info)
           Examples.four_peaks); by_eval.
Defined.

Lemma order_clusters_without_cluster_witness :
  @order_clusters unit Examples.numerics "waveforms_rms"
    (Examples.constructor [mkPeak 20 (-1) 0]
       (Some [mkCluster (-1) (-1) (-1) nan nan 1]) Examples.empty_info)
  = Raise ValueError.
Proof.
  apply (@order_clusters_without_cluster unit Examples.numerics
           "waveforms_rms"
           (Examples.constructor [mkPeak 20 (-1) 0]
              (Some [mkCluster (-1) (-1) (-1) nan nan 1]) Examples.empty_info)
           [mkCluster (-1) (-1) (-1) nan nan 1]).
  - left. by_eval.
  - by_eval.
  - by_eval.
  - by left.
Defined.

Lemma order_clusters_labels_from_zero_witness :
  let cl := Examples.measured_table in
  ∃ pos',
    clusters Examples.ordered
    = Some (filter (λ c, cluster_label c < 0) cl ++ pos')
    ∧ cluster_label <$> pos'
      = Z.of_nat <$> seq 0 (length (filter (λ c, 0 ≤ cluster_label c) cl)).
Proof.
  apply (@order_clusters_labels_from_zero unit Examples.numerics
           "waveforms_rms" Examples.measured Examples.ordered
           Examples.measured_table);
    [apply argsort_stable_Permutation|by_eval..].
Defined.






Lemma compute_centroid_frame_witness :
  let self := Examples.sampled_constructor in
  let self' :=
    Examples.ok_or self (@compute_centroid unit Examples.numerics self) in
  has_centroids self' = true ∧ centroid_frame self self'.
Proof.
  apply (@compute_centroid_frame unit Examples.numerics
           Examples.sampled_constructor
           (Examples.ok_or Examples.sampled_constructor
              (@compute_centroid unit Examples.numerics
                 Examples.sampled_constructor))).
  by_eval.
Defined.

Lemma re_detect_peak_table_witness :
  ∃ peaks, all_peaks Examples.detected_again = Some peaks
    ∧ Forall (λ p, label p = @LABEL_UNCLASSIFIED Examples.labelcodes
                   ∧ 0 ≤ segment p
                       < Z.of_nat (@nb_segment Examples.two_segments)) peaks
    ∧ ∀ (i j : nat) (a b : Peak),
        peaks !! i = Some a → peaks !! j = Some b → (i < j)%nat →
        segment a ≤ segment b.
Proof.
  apply (@re_detect_peak_table unit Examples.two_segments
           Examples.spiky_engines Examples.labelcodes Examples.engine_names
           "numpy" Examples.detector_params
           (Examples.constructor Examples.four_peaks
              (Some Examples.measured_table) (Examples.window_info (-2) 3 100))
           Examples.detected_again).
  by_eval.
Defined.

Lemma re_detect_peak_one_cluster_witness :
  let peaks :=
    (λ si, mkPeak (snd si) (-10) (fst si))
      <$> [(0, 20); (0, 40); (0, 70); (0, 90);
           (1, 20); (1, 40); (1, 70); (1, 90)] in
  ∃ c, clusters Examples.detected_again = Some [c]
       ∧ cluster_label c = @LABEL_UNCLASSIFIED Examples.labelcodes
       ∧ nb_peak c = Z.of_nat (length peaks).
Proof.
  apply (@re_detect_peak_one_cluster unit Examples.two_segments
           Examples.spiky_engines Examples.labelcodes Examples.engine_names
           "numpy" Examples.detector_params
           (Examples.constructor Examples.four_peaks
              (Some Examples.measured_table) (Examples.window_info (-2) 3 100))
           Examples.detected_again); by_eval.
Defined.

Lemma run_signalprocessor_processed_length_witness :
  let duration := Examples.double (57 # 100) in
  let self :=
    initialize_array "all_peaks"
      (Examples.chunked_constructor 100 Examples.trim_info) in
  let self' :=
    Examples.ok_or self
      (@run_signalprocessor unit Examples.long_dataio Examples.spiky_engines
         Examples.labelcodes duration true self) in
  (py_int (float_mul duration (@sample_rate Examples.long_dataio)) = Ok 5699
   ∧ processed_length (info self') = Some 5600)
  ∧ ∃ requested length : Z,
      py_int (float_mul duration (@sample_rate Examples.long_dataio))
      = Ok requested
      ∧ processed_length (info self') = Some length
      ∧ let available :=
          Z.min requested
            (@get_segment_length Examples.long_dataio (Z.of_nat 0)) in
        length = available - available `mod` chunksize self
        ∧ length `mod` chunksize self = 0
        ∧ (0 < chunksize self →
           length ≤ available < length + chunksize self).
Proof.
  split; [split; by_eval|].
  apply (@run_signalprocessor_processed_length unit Examples.long_dataio
           Examples.spiky_engines Examples.labelcodes
           (Examples.double (57 # 100)) true
           (initialize_array "all_peaks"
              (Examples.chunked_constructor 100 Examples.trim_info))
           (Examples.ok_or
              (initialize_array "all_peaks"
                 (Examples.chunked_constructor 100 Examples.trim_info))
              (@run_signalprocessor unit Examples.long_dataio
                 Examples.spiky_engines Examples.labelcodes
                 (Examples.double (57 # 100)) true
                 (initialize_array "all_peaks"
                    (Examples.chunked_constructor 100 Examples.trim_info))))
           0%nat); by_eval.
Defined.

Lemma run_signalprocessor_table_witness :
  ∃ peaks, all_peaks Examples.detected = Some peaks
    ∧ Forall (λ p, label p = @LABEL_UNCLASSIFIED Examples.labelcodes
                   ∧ 0 ≤ segment p
                       < Z.of_nat (@nb_segment Examples.two_segments)) peaks
    ∧ ∀ (i j : nat) (a b : Peak),
        peaks !! i = Some a → peaks !! j = Some b → (i < j)%nat →
        segment a ≤ segment b.
Proof.
  apply (@run_signalprocessor_table unit Examples.two_segments
           Examples.spiky_engines Examples.labelcodes 1 true
           Examples.fresh_constructor Examples.detected); by_eval.
Defined.

Lemma run_signalprocessor_without_detection_witness :
  let self := Examples.constructor Examples.four_peaks None
                (Examples.window_info (-2) 3 100) in
  let self' :=
    Examples.ok_or Examples.fresh_constructor
      (@run_signalprocessor unit Examples.two_segments Examples.spiky_engines
         Examples.labelcodes 1 false self) in
  all_peaks self' = all_peaks self.
Proof.
  apply (@run_signalprocessor_without_detection unit Examples.two_segments
           Examples.spiky_engines Examples.labelcodes 1
           (Examples.constructor Examples.four_peaks None
              (Examples.window_info (-2) 3 100))
           (Examples.ok_or Examples.fresh_constructor
              (@run_signalprocessor unit Examples.two_segments
                 Examples.spiky_engines Examples.labelcodes 1 false
                 (Examples.constructor Examples.four_peaks None
                    (Examples.window_info (-2) 3 100))))).
  by_eval.
Defined.

Lemma extract_some_noise_margin_witness :
  ∃ idx, some_noise_index Examples.noisy = Some idx
    ∧ Forall (λ p,
        3 - -2 ≤ index p
        ∧ index p < 100 - (3 - -2)
        ∧ (-2 ≤ 0 ≤ 3 → 0 ≤ index p + -2 ∧ index p + 3 ≤ 100)) idx.
Proof.
  apply (@extract_some_noise_margin unit Examples.dataio
           Examples.labelcodes (Examples.pick 45) 3
           (Examples.constructor Examples.four_peaks None
              (Examples.window_info (-2) 3 100))
           Examples.noisy
           (mkWaveformExtractorParams (-2) 3 10000 false 20) 100); by_eval.
Defined.

Lemma estimate_signals_noise_statistics_witness :
  let self := Examples.chunked_constructor 10 Examples.trim_info in
  let self' :=
    Examples.ok_or self
      (@estimate_signals_noise unit Examples.short_dataio
         Examples.trim_engines 0 (Examples.double (12 # 1000)) self) in
  ∃ medians mads,
    attrs self' !! "signals_medians" = Some (FloatArray1 medians)
    ∧ attrs self' !! "signals_mads" = Some (FloatArray1 mads)
    ∧ length medians = @nb_channel Examples.short_dataio
    ∧ length mads = @nb_channel Examples.short_dataio
    ∧ Forall (λ x, match x with nan => True | fin q => (0 <= q)%Q end) mads
    ∧ (∀ name, name ≠ "signals_medians" → name ≠ "signals_mads" →
         attrs self' !! name = attrs self !! name)
    ∧ info self' = info self.
Proof.
  apply (@estimate_signals_noise_statistics unit Examples.short_dataio
           Examples.trim_engines 0 (Examples.double (12 # 1000))
           (Examples.chunked_constructor 10 Examples.trim_info)
           (Examples.ok_or
              (Examples.chunked_constructor 10 Examples.trim_info)
              (@estimate_signals_noise unit Examples.short_dataio
                 Examples.trim_engines 0 (Examples.double (12 # 1000))
                 (Examples.chunked_constructor 10 Examples.trim_info)))).
  by_eval.
Defined.

Lemma make_catalogue_label_to_index_witness :
  let cat := Examples.ok_or
               Examples.empty_catalogue
               Examples.sampled_catalogue in
  catalogue_cluster_labels cat = [0]
  ∧ (label_to_index cat !! 0 = Some 0%nat
     ↔ catalogue_cluster_labels cat !! 0%nat = Some 0).
Proof.
  split; [by_eval|].
  apply (@make_catalogue_label_to_index unit Examples.flat_interpolation
           Examples.labelcodes Examples.plain_palette None
           Examples.sampled_constructor
           (Examples.ok_or Examples.empty_catalogue
              Examples.sampled_catalogue)); by_eval.
Defined.

Lemma make_catalogue_max_on_channel_witness :
  let cat := Examples.ok_or
               Examples.empty_catalogue
               Examples.sampled_catalogue in
  length (catalogue_max_on_channel cat) = length (catalogue_cluster_labels cat)
  ∧ ∀ (i : nat) (chan : Z),
      catalogue_max_on_channel cat !! i = Some chan →
      ∃ center row x,
        centers0 cat !! i = Some center
        ∧ np_getitem center (- catalogue_n_left cat) = Ok row
        ∧ 0 ≤ chan
        ∧ row !! Z.to_nat chan = Some x
        ∧ ∀ y, y ∈ row → float64_le (fabs y) (fabs x).
Proof.
  apply (@make_catalogue_max_on_channel unit Examples.flat_interpolation
           Examples.labelcodes Examples.plain_palette None
           Examples.sampled_constructor
           (Examples.ok_or Examples.empty_catalogue
              Examples.sampled_catalogue)); by_eval.
Defined.

Lemma make_catalogue_cluster_without_sample_witness :
  let self := Examples.unsampled_constructor in
  (sample_labels self = Ok [0; 0] ∧ 1 ∈ positive_cluster_labels self)
  ∧ @make_catalogue unit Examples.flat_interpolation Examples.labelcodes
      Examples.plain_palette None self
    ≠ Ok Examples.empty_catalogue.
Proof.
  split; [split; by_eval|].
  apply (@make_catalogue_cluster_without_sample unit
           Examples.flat_interpolation Examples.labelcodes
           Examples.plain_palette None Examples.unsampled_constructor
           [0; 0] 1 Examples.empty_catalogue); by_eval.
Defined.

Lemma tag_same_cell_spec_witness :
  let self := Examples.measured in
  let self' := Examples.ok_or self (tag_same_cell [1; 0] self) in
  ∃ m, m ∈ [1; 0] ∧ (∀ k, k ∈ [1; 0] → m ≤ k)
    ∧ clusters self'
      = Some ((λ c, if decide (cluster_label c ∈ [1; 0])
                    then set_cell_label m c else c)
                <$> Examples.measured_table)
    ∧ ∀ name, name ≠ "clusters" → attrs self' !! name = attrs self !! name.
Proof.
  apply (tag_same_cell_spec [1; 0] Examples.measured
           (Examples.ok_or Examples.measured
              (tag_same_cell [1; 0] Examples.measured))
           Examples.measured_table); by_eval.
Defined.

Lemma tag_same_cell_completes_witness :
  ∃ self', tag_same_cell [1; 0] Examples.measured = Ok self'.
Proof.
  apply (proj2 (proj2 (tag_same_cell_completes [1; 0] Examples.measured)));
    by_eval.
Defined.

Lemma tag_same_cell_then_rebuild_witness :
  let self := Examples.measured in
  let self' := Examples.ok_or self (tag_same_cell [1; 0] self) in
  ∃ m tbl,
    py_min [1; 0] = Ok m
    ∧ clusters (on_new_cluster self') = Some tbl
    ∧ ∀ c, c ∈ tbl → cluster_label c ∈ [1; 0] →
           cluster_label c ∈ cluster_labels self → cell_label c = m.
Proof.
  apply (tag_same_cell_then_rebuild [1; 0] Examples.measured
           (Examples.ok_or Examples.measured
              (tag_same_cell [1; 0] Examples.measured))
           Examples.four_peaks); by_eval.
Defined.

Lemma set_preprocessor_params_then_detect_witness :
  let self1 :=
    Examples.ok_or Examples.measured
      (@set_preprocessor_params unit Examples.engine_names 50 "float32" "numpy" 128 "numpy" "-" 7
         (2 # 10000) Examples.measured) in
  ∃ self2 peaks,
    @run_signalprocessor unit Examples.two_segments Examples.spiky_engines
      Examples.labelcodes 1 true self1 = Ok self2
    ∧ all_peaks self2 = Some peaks
    ∧ Forall (λ p, label p = @LABEL_UNCLASSIFIED Examples.labelcodes
                   ∧ 0 ≤ segment p
                       < Z.of_nat (@nb_segment Examples.two_segments)) peaks
    ∧ (∀ (i j : nat) (a b : Peak),
         peaks !! i = Some a → peaks !! j = Some b → (i < j)%nat →
         segment a ≤ segment b)
    ∧ (∃ self3,
         @re_detect_peak unit Examples.two_segments Examples.spiky_engines
           Examples.labelcodes Examples.engine_names "numpy"
           Examples.detector_params self2 = Ok self3)
    ∧ ∀ engine,
        (engine ∈ @peakdetector_engines Examples.engine_names →
         ∃ self3,
           @re_detect_peak unit Examples.two_segments Examples.spiky_engines
             Examples.labelcodes Examples.engine_names engine
             Examples.detector_params self2 = Ok self3)
        ∧ (engine ∉ @peakdetector_engines Examples.engine_names →
           @re_detect_peak unit Examples.two_segments Examples.spiky_engines
             Examples.labelcodes Examples.engine_names engine
             Examples.detector_params self2 = Raise (KeyError engine)).
Proof.
  apply (@set_preprocessor_params_then_detect unit Examples.two_segments
           Examples.spiky_engines Examples.labelcodes Examples.engine_names
           50 "float32" "numpy" 128 "numpy" "-" 7 (2 # 10000) 1 true
           Examples.detector_params Examples.measured
           (Examples.ok_or Examples.measured
              (@set_preprocessor_params unit Examples.engine_names 50
                 "float32" "numpy" 128 "numpy" "-" 7 (2 # 10000)
                 Examples.measured))
           1000); by_eval.
Defined.

Lemma extract_some_waveforms_result_witness :
  let self' := Examples.extracted (Some [4; 1; 1]) in
  ∃ (idx : list Z) (wfs : list (list (list Q))) (nl nr : Z),
    some_peaks_index self' = Some idx
    ∧ (∀ (i j : nat) (a b : Z),
         idx !! i = Some a → idx !! j = Some b → (i < j)%nat → a < b)
    ∧ attrs self' !! "some_waveforms"
      = Some (FloatArray3 (Z.to_nat (nr - nl))
                (@nb_channel Examples.two_segments) wfs)
    ∧ has_shape3 (length idx) (Z.to_nat (nr - nl))
        (@nb_channel Examples.two_segments) wfs
    ∧ params_waveformextractor (info self')
      = Some (mkWaveformExtractorParams nl nr 10000 false 20)
    ∧ (∀ a b, (None : option Z) = Some a → (None : option Z) = Some b →
              nl = a ∧ nr = b)
    ∧ attrs self' !! "some_features" = None.
Proof.
  apply (@extract_some_waveforms_result unit Examples.two_segments
           (Examples.pick 0) Examples.first_sample Examples.plain_resampler
           None None (Some [4; 1; 1]) "rand" 10000 false 20
           Examples.six_constructor (Examples.extracted (Some [4; 1; 1]))).
  by_eval.
Defined.

Lemma extract_some_waveforms_window_of_peak_witness :
  let self' := Examples.extracted (Some [4; 1; 1]) in
  let peaks := Examples.six_peaks in
  ∃ (idx : list Z) (wfs : list (list (list Q))) (nl nr : Z),
    some_peaks_index self' = Some idx
    ∧ some_waveforms self' = Some wfs
    ∧ params_waveformextractor (info self')
      = Some (mkWaveformExtractorParams nl nr 10000 false 20)
    ∧ length wfs = length idx
    ∧ ∀ (n : nat) (i : Z),
        idx !! n = Some i →
        ∃ (p : Peak) (wf : list (list Q)),
          0 ≤ i ∧ peaks !! Z.to_nat i = Some p
          ∧ wfs !! n = Some wf
          ∧ broadcast_rows (Z.to_nat (nr - nl))
              (@nb_channel Examples.two_segments)
              (@get_signals_chunk Examples.two_segments (segment p)
                 (index p + nl) (index p + nl + (nr - nl))) = Ok wf.
Proof.
  apply (@extract_some_waveforms_window_of_peak unit Examples.two_segments
           (Examples.pick 0) Examples.first_sample Examples.plain_resampler
           None None (Some [4; 1; 1]) "rand" 10000 20
           Examples.six_constructor (Examples.extracted (Some [4; 1; 1]))
           Examples.six_peaks).
  - by_eval.
  - intros i j a b Hi Hj Hij.
    refine (StronglySorted_lookup_lt (λ p q, segment p ≤ segment q)
              _ i j a b _ Hi Hj Hij).
    repeat constructor; simpl; lia.
  - intros l [= <-]. repeat constructor; lia.
  - by_eval.
Defined.

Lemma find_good_limits_rise_after_fall_witness :
  @flags_above Examples.two_segments (Examples.double (11 # 10))
    (Examples.double (3 # 10)) dtype_float32 [[fin 2]; [fin 0]; [fin 2]]
  = Ok [true; false; true]
  ∧ @find_good_limits unit Examples.two_segments (Examples.pick 0)
      Examples.first_sample Examples.plain_resampler Examples.edge_tools
      (Examples.double (11 # 10)) (Examples.double (3 # 10)) true (-5) 5
      Examples.sampled_constructor
    = Raise ValueError.
Proof.
  split; [by_eval|].
  apply (@find_good_limits_rise_after_fall unit Examples.two_segments
           (Examples.pick 0) Examples.first_sample Examples.plain_resampler
           Examples.edge_tools (Examples.double (11 # 10))
           (Examples.double (3 # 10)) true (-5) 5
           Examples.sampled_constructor
           (mkWaveformExtractorParams (-2) 3 10000 false 20) dtype_float32
           [[fin 0]; [fin 0]; [fin 0]] [[fin 2]; [fin 0]; [fin 2]]
           [true; false; true]).
  - by_eval.
  - by_eval.
  - by_eval.
  - exists 1%nat. by_eval.
  - exists 0%nat. by_eval.
  - intros u d [Hu Hu'] [Hd Hd'].
    destruct u as [|[|[|u]]]; vm_compute in Hu, Hu'; try discriminate;
      destruct d as [|[|[|d]]]; vm_compute in Hd, Hd'; try discriminate; lia.
Defined.

Lemma refresh_colors_spec_witness :
  let colors' :=
    Examples.ok_or ∅
      (@refresh_colors unit Examples.labelcodes Examples.plain_palette
         false "husl" (Some {[0 := (0%Q, 1%Q, 0%Q)]}) Examples.measured) in
  colors' !! @LABEL_NOISE Examples.labelcodes = Some (8 # 10, 8 # 10, 8 # 10)
  ∧ (@LABEL_UNCLASSIFIED Examples.labelcodes ≠ @LABEL_NOISE Examples.labelcodes
     → colors' !! @LABEL_UNCLASSIFIED Examples.labelcodes
       = Some (6 # 10, 6 # 10, 6 # 10))
  ∧ (@LABEL_TRASH Examples.labelcodes ≠ @LABEL_NOISE Examples.labelcodes →
     @LABEL_TRASH Examples.labelcodes ≠ @LABEL_UNCLASSIFIED Examples.labelcodes
     → colors' !! @LABEL_TRASH Examples.labelcodes
       = Some (4 # 10, 4 # 10, 4 # 10))
  ∧ (∀ k, k ∈ positive_cluster_labels Examples.measured
          → is_Some (colors' !! k))
  ∧ (false = false →
     ∀ old k c, Some ({[0 := (0%Q, 1%Q, 0%Q)]} : gmap Z color) = Some old →
       old !! k = Some c →
       k ≠ @LABEL_TRASH Examples.labelcodes →
       k ≠ @LABEL_UNCLASSIFIED Examples.labelcodes →
       k ≠ @LABEL_NOISE Examples.labelcodes →
       colors' !! k = Some c).
Proof.
  apply (@refresh_colors_spec unit Examples.labelcodes Examples.plain_palette
           false "husl" (Some {[0 := (0%Q, 1%Q, 0%Q)]}) Examples.measured).
  by_eval.
Defined.

Lemma find_good_limits_without_edge_witness :
  @flags_above Examples.two_segments (Examples.double (11 # 10))
    (Examples.double (3 # 10)) dtype_float32 (replicate 3 [fin 0])
  = Ok [false; false; false]
  ∧ @find_good_limits unit Examples.two_segments (Examples.pick 0)
      Examples.first_sample Examples.plain_resampler Examples.flat_tools
      (Examples.double (11 # 10)) (Examples.double (3 # 10)) true (-5) 5
      Examples.sampled_constructor
    = Ok (Examples.sampled_constructor, None).
Proof.
  split; [by_eval|].
  apply (@find_good_limits_without_edge unit Examples.two_segments
           (Examples.pick 0) Examples.first_sample Examples.plain_resampler
           Examples.flat_tools (Examples.double (11 # 10))
           (Examples.double (3 # 10)) true (-5) 5
           Examples.sampled_constructor
           (mkWaveformExtractorParams (-2) 3 10000 false 20) dtype_float32
           (replicate 3 [fin 0]) (replicate 3 [fin 0])
           [false; false; false]).
  - by_eval.
  - by_eval.
  - by_eval.
  - left. intros u [_ Hu].
    destruct u as [|[|[|u]]]; vm_compute in Hu; discriminate.
Defined.

Lemma find_good_limits_longest_run_witness :
  let above := [false; true; true; false; true; false] in
  @flags_above Examples.ten_channels (Examples.double (11 # 10))
    (Examples.double (1 # 10)) dtype_float32 Examples.run_mad
  = Ok above
  ∧ ∃ u d : nat,
      rises_after above u ∧ falls_after above d ∧ (u < d)%nat
      ∧ (∀ j, (u < j ≤ d)%nat → above !! j = Some true)
      ∧ (∀ u' d',
           rises_after above u' → falls_after above d' → (u' < d')%nat →
           (∀ j, (u' < j ≤ d')%nat → above !! j = Some true) →
           (d' - u' ≤ d - u)%nat)
      ∧ let limits := (Z.min (-2 + Z.of_nat u) (-1),
                       Z.max (-2 + Z.of_nat d + 1) 1) in
        @find_good_limits unit Examples.ten_channels (Examples.pick 0)
          Examples.first_sample Examples.plain_resampler Examples.run_tools
          (Examples.double (11 # 10)) (Examples.double (1 # 10)) false (-1) 1
          Examples.sampled_constructor
        = Ok (Examples.sampled_constructor, Some limits).
Proof.
  split; [by_eval|].
  apply (@find_good_limits_longest_run unit Examples.ten_channels
           (Examples.pick 0) Examples.first_sample Examples.plain_resampler
           Examples.run_tools (Examples.double (11 # 10))
           (Examples.double (1 # 10)) false (-1) 1
           Examples.sampled_constructor
           (mkWaveformExtractorParams (-2) 3 10000 false 20) dtype_float32
           (replicate 6 (replicate 10 (fin 0))) Examples.run_mad
           [false; true; true; false; true; false]).
  - by_eval.
  - by_eval.
  - by_eval.
  - exists 0%nat, 2%nat. split_and!; [by_eval|by_eval|lia].
Defined.
